(** * DMIS: the MedEx / Bissoy crawl-and-extract scripts

    A shallow embedding of the scraping scripts of the repository:

    - [scrape_medex_brands_file_split_v3.js] (module [Split]): the
      fetch-retry unit, the listing extractor and the page-batch scheduler;
    - the Bissoy variant of the listing extractor (module [Bissoy]);
    - [fetch_medex_brand_details.js] (module [Details]): the per-item
      resumable detail fetcher and its raw-text section table;
    - [medex_detail_fetcher_with_medicine_id.js] (module [Structured]):
      pricing, the section parser, the dosage parser and the result object.

    Conventions.  A JavaScript string is a [string] of 8-bit code units
    (so U+00A0 is the code unit 160).  [null] is [None] of an [option].
    The HTTP client, the file system and the clock are an environment:
    every call is logged in a trace and answered by an oracle that may
    look at the whole history.  The calls that a batch runs at once take
    their turns as the environment schedules them.  The HTML parser is
    outside the scripts: a fetched page is the tree that [cheerio.load]
    builds from it. *)

From Stdlib Require Import ZArith Ascii String List Lia Bool.
From stdpp Require Import base decidable option list sorting gmap strings pretty.

Set Warnings "-register-all".

Open Scope string_scope.
Open Scope list_scope.
Open Scope Z_scope.

(** ** JavaScript strings *)

Module Js.

(** [s.startsWith(p)] *)
Definition startsWith (p s : string) : bool := String.prefix p s.

(** Truthiness of a string: [!!s]. *)
Definition truthy (s : string) : bool :=
  match s with EmptyString => false | String _ _ => true end.

(** [a || b] on values that are strings or [null]/[undefined]. *)
Definition orElse (a b : option string) : option string :=
  match a with
  | Some s => if truthy s then Some s else b
  | None => b
  end.

(** The white space of [\s] and of [String.prototype.trim] among the
    8-bit code units: TAB, LF, VT, FF, CR, SPACE and NBSP. *)
Definition isSpace (c : ascii) : bool :=
  let n := nat_of_ascii c in
  ((9 <=? n)%nat && (n <=? 13)%nat) || (n =? 32)%nat || (n =? 160)%nat.

Fixpoint dropSpaces (l : list ascii) : list ascii :=
  match l with
  | c :: l' => if isSpace c then dropSpaces l' else l
  | [] => []
  end.

Definition trimList (l : list ascii) : list ascii :=
  rev (dropSpaces (rev (dropSpaces l))).

(** [s.trim()] *)
Definition trim (s : string) : string :=
  string_of_list_ascii (trimList (list_ascii_of_string s)).

(** [.replace(/\s+/g, " ")]: every maximal run of white space becomes one
    space.  [inRun] tells whether the previous unit was white space. *)
Fixpoint collapse (inRun : bool) (l : list ascii) : list ascii :=
  match l with
  | [] => []
  | c :: l' =>
      if isSpace c
      then (if inRun then collapse true l' else " "%char :: collapse true l')
      else c :: collapse false l'
  end.

(** [.replace(/\u00A0/g, " ").replace(/\s+/g, " ").trim()]: NBSP is white
    space already, so the first replacement changes nothing that the
    second does not rewrite. *)
Definition normWs (s : string) : string :=
  string_of_list_ascii (trimList (collapse false (list_ascii_of_string s))).

(** A text without white space other than single blanks; [inRun] forbids
    a leading blank.  This is what [collapse] produces. *)
Fixpoint tidy (inRun : bool) (l : list ascii) : bool :=
  match l with
  | [] => true
  | c :: l' =>
      if isSpace c then Ascii.eqb c " " && negb inRun && tidy true l'
      else tidy false l'
  end.

(** A text that does not begin with white space. *)
Definition noLead (l : list ascii) : Prop :=
  match l with [] => True | c :: _ => isSpace c = false end.

(** [s || null] for a string [s]. *)
Definition orNull (s : string) : option string :=
  if truthy s then Some s else None.

(** What a script can find in a [catch] clause: an [Error] object with
    its [message] and what [String(err)] prints. *)
Record Error := mkError { message : string; toStr : string }.

(** [err.message || String(err)] *)
Definition errorText (e : Error) : string :=
  if truthy (message e) then message e else toStr e.

(** Completion of a call: a value, or a thrown error. *)
Inductive Completion (A : Type) :=
| Return (a : A)
| Throw (e : Error).
Arguments Return {A} a.
Arguments Throw {A} e.

(** Sequencing: a thrown error skips what follows. *)
Definition andThen {A B} (c : Completion A) (k : A -> Completion B) : Completion B :=
  match c with
  | Return a => k a
  | Throw e => Throw e
  end.

(** A [for ... of] loop whose body may throw. *)
Fixpoint forEach {A B} (body : A -> B -> Completion A) (l : list B) (a : A)
  : Completion A :=
  match l with
  | [] => Return a
  | b :: l' => andThen (body a b) (forEach body l')
  end.

(** The [TypeError] of reading [.length] of [null]. *)
Definition nullLength : Error :=
  mkError "Cannot read properties of null (reading 'length')"
          "TypeError: Cannot read properties of null (reading 'length')".

End Js.

(** ** [normalizeUrl] (the same text in every detail fetcher) *)

Definition ORIGIN : string := "https://medex.com.bd".

Definition normalizeUrl (u : string) : string :=
  if negb (Js.truthy u) then u
  else if Js.startsWith "http" u then u
  else if Js.startsWith "/" u then ORIGIN +:+ u
  else ORIGIN +:+ "/" +:+ u.

(** ** The parse tree behind the cheerio API *)

Module Dom.

(** A node of the tree: text, comment, or element.  Tag names are lower
    case, as the HTML parser delivers them. *)
Inductive node :=
| Text (data : string)
| Comment (data : string)
| Elem (tag : string) (attrs : list (string * string)) (children : list node).

(** A fetched page: the top-level nodes of its document. *)
Definition Page := list node.

Definition children (n : node) : list node :=
  match n with Elem _ _ cs => cs | _ => [] end.

Definition isElem (n : node) : bool :=
  match n with Elem _ _ _ => true | _ => false end.

(** [node.type === "text"] *)
Definition isText (n : node) : bool :=
  match n with Text _ => true | _ => false end.

(** [node.type === "tag"]: the parser gives [<script>] and [<style>]
    elements the types ["script"] and ["style"]. *)
Definition isTagType (n : node) : bool :=
  match n with
  | Elem t _ _ => negb (String.eqb t "script" || String.eqb t "style")
  | _ => false
  end.

(** [node.tagName === t] for an element. *)
Definition hasTag (t : string) (n : node) : bool :=
  match n with Elem t' _ _ => String.eqb t' t | _ => false end.

(** [.attr(name)]: [None] is [undefined]. *)
Fixpoint lookupAttr (name : string) (l : list (string * string)) : option string :=
  match l with
  | [] => None
  | (k, v) :: l' => if String.eqb k name then Some v else lookupAttr name l'
  end.

Definition attr (name : string) (n : node) : option string :=
  match n with Elem _ as_ _ => lookupAttr name as_ | _ => None end.

(** The white space that separates class names. *)
Definition isHtmlSpace (c : ascii) : bool :=
  let n := nat_of_ascii c in
  (n =? 9)%nat || (n =? 10)%nat || (n =? 12)%nat || (n =? 13)%nat || (n =? 32)%nat.

(** Split at white space; [cur] is the word being read, reversed. *)
Fixpoint wordsAux (cur : list ascii) (l : list ascii) : list string :=
  match l with
  | [] => match cur with [] => [] | _ => [string_of_list_ascii (rev cur)] end
  | c :: l' =>
      if isHtmlSpace c
      then match cur with
           | [] => wordsAux [] l'
           | _ => string_of_list_ascii (rev cur) :: wordsAux [] l'
           end
      else wordsAux (c :: cur) l'
  end.

Definition classes (n : node) : list string :=
  match attr "class" n with
  | Some v => wordsAux [] (list_ascii_of_string v)
  | None => []
  end.

(** The selector [.c] *)
Definition hasClass (c : string) (n : node) : bool :=
  existsb (String.eqb c) (classes n).

(** The selector [#i] *)
Definition hasId (i : string) (n : node) : bool :=
  match attr "id" n with Some v => String.eqb v i | None => false end.

(** [textContent]: the data of the text nodes below, in document order. *)
Fixpoint textContent (n : node) : string :=
  match n with
  | Text d => d
  | Comment _ => ""
  | Elem _ _ cs =>
      (fix go (l : list node) : string :=
         match l with
         | [] => ""
         | c :: l' => textContent c +:+ go l'
         end) cs
  end.

(** [$(sel).text()] for a selection of several nodes. *)
Definition text (sel : list node) : string :=
  fold_right (fun n acc => textContent n +:+ acc) "" sel.

(** Text of [n] once the elements that satisfy [p] have been removed
    from a clone of it, at any depth:
    [clone.find(p).remove(); clone.text()]. *)
Fixpoint textWithout (p : node -> bool) (n : node) : string :=
  match n with
  | Text d => d
  | Comment _ => ""
  | Elem _ _ cs =>
      (fix go (l : list node) : string :=
         match l with
         | [] => ""
         | c :: l' =>
             (if isElem c && p c then "" else textWithout p c) +:+ go l'
         end) cs
  end.

(** Text of [n] once its direct element children that satisfy [p] have
    been removed: [n.clone().children(p).remove().end().text()]. *)
Definition textWithoutChildren (p : node -> bool) (n : node) : string :=
  text (filter (fun c => negb (isElem c && p c)) (children n)).

(** A located node: the child indices that lead to it from the top of
    the searched scope, its proper ancestors inside that scope (nearest
    first), its following siblings, and the node. *)
Record Loc := mkLoc {
  path : list nat;
  anc : list node;
  after : list node;
  self : node
}.

(** The node [n], found at [here], and everything below it, in document
    order. *)
Fixpoint locs (here : list nat) (up : list node) (n : node) (sibs : list node)
         {struct n} : list Loc :=
  mkLoc here up sibs n ::
  match n with
  | Elem _ _ cs =>
      (fix go (i : nat) (l : list node) : list Loc :=
         match l with
         | [] => []
         | c :: l' => locs (here ++ [i]) (n :: up) c l' ++ go (S i) l'
         end) 0%nat cs
  | _ => []
  end.

Fixpoint locsForest (here : list nat) (up : list node) (i : nat) (l : list node)
  : list Loc :=
  match l with
  | [] => []
  | c :: l' => locs (here ++ [i]) up c l' ++ locsForest here up (S i) l'
  end.

(** The elements of a whole page, [$(...)] before any filter. *)
Definition allOf (doc : Page) : list Loc :=
  filter (fun x => isElem (self x)) (locsForest [] [] 0 doc).

(** The elements strictly below [n]: what [$(n).find(...)] searches.
    Their ancestors are counted from [n], excluded. *)
Definition below (n : node) : list Loc :=
  filter (fun x => isElem (self x)) (locsForest [] [] 0 (children n)).

(** Where [$(n).find("A B")] looks for [A] from an element [x] below
    [n]: a selector given to [find] is scoped to [n], which may itself
    match its outermost compound, and nothing above [n] may. *)
Definition within (n : node) (x : Loc) : list node := anc x ++ [n].

(** The part of [l] up to its last element that satisfies [p], that
    element included; empty when there is none. *)
Fixpoint upToLast {A} (p : A -> bool) (l : list A) : list A :=
  match l with
  | [] => []
  | a :: l' =>
      match upToLast p l' with
      | [] => if p a then [a] else []
      | r => a :: r
      end
  end.

(** [ps] are the compound selectors of a descendant chain, nearest
    first: [A B C] read from an element matching [C] gives [[B; A]]. *)
Fixpoint underChain (ps : list (node -> bool)) (up : list node) : bool :=
  match ps with
  | [] => true
  | p :: ps' =>
      (fix seek (l : list node) : bool :=
         match l with
         | [] => false
         | a :: l' => if p a then underChain ps' l' else seek l'
         end) up
  end.

(** [.next()]: the next sibling that is an element. *)
Definition nextElem (x : Loc) : option node :=
  head (filter isElem (after x)).

(** [.nextAll(p).first()] *)
Definition nextAllFirst (p : node -> bool) (x : Loc) : option node :=
  head (filter (fun n => isElem n && p n) (after x)).

(** [.parent()] of a node found in a whole page; [None] is the document. *)
Definition parent (x : Loc) : option node := head (anc x).

End Dom.

(** ** More string helpers used by the extractors *)

Module Str.

Fixpoint isPrefixL (p l : list ascii) : bool :=
  match p, l with
  | [], _ => true
  | a :: p', b :: l' => Ascii.eqb a b && isPrefixL p' l'
  | _ :: _, [] => false
  end.

(** [hay.includes(needle)] *)
Fixpoint containsL (needle hay : list ascii) : bool :=
  isPrefixL needle hay ||
  match hay with
  | [] => false
  | _ :: hay' => containsL needle hay'
  end.

Definition contains (needle hay : string) : bool :=
  containsL (list_ascii_of_string needle) (list_ascii_of_string hay).

(** Case folding of the letters A-Z, which is all that the [i] flag does
    to the patterns of these scripts. *)
Definition lowerChar (c : ascii) : ascii :=
  let n := nat_of_ascii c in
  if ((65 <=? n)%nat && (n <=? 90)%nat)%bool then ascii_of_nat (n + 32) else c.

Definition lower (s : string) : string :=
  string_of_list_ascii (map lowerChar (list_ascii_of_string s)).

(** [/needle/i.test(hay)] for a pattern that is a plain lower-case word. *)
Definition containsCI (needle hay : string) : bool :=
  contains needle (lower hay).

(** [s.split(sep)] for a non-empty separator.  [skip] counts the units of
    a separator still to be passed over; [cur] is the piece being read,
    reversed. *)
Fixpoint splitAux (sep : list ascii) (skip : nat) (cur : list ascii)
         (l : list ascii) : list string :=
  match l with
  | [] => [string_of_list_ascii (rev cur)]
  | c :: l' =>
      match skip with
      | S k => splitAux sep k cur l'
      | O =>
          if isPrefixL sep l
          then string_of_list_ascii (rev cur)
                 :: splitAux sep (length sep - 1) [] l'
          else splitAux sep 0 (c :: cur) l'
      end
  end.

Definition split (sep s : string) : list string :=
  splitAux (list_ascii_of_string sep) 0 [] (list_ascii_of_string s).

(** [s.replace(sub, "")] for a non-empty string [sub]: its first
    occurrence is removed. *)
Fixpoint removeFirstL (sub l : list ascii) : list ascii :=
  if isPrefixL sub l then drop (length sub) l
  else match l with
       | [] => []
       | c :: l' => c :: removeFirstL sub l'
       end.

Definition removeFirst (sub s : string) : string :=
  string_of_list_ascii (removeFirstL (list_ascii_of_string sub) (list_ascii_of_string s)).

(** [.replace(/\u00A0/g, " ")] *)
Definition nbspToSpace (s : string) : string :=
  string_of_list_ascii
    (map (fun c => if (nat_of_ascii c =? 160)%nat then " "%char else c)
         (list_ascii_of_string s)).

Fixpoint dropWhile (p : ascii -> bool) (l : list ascii) : list ascii :=
  match l with
  | c :: l' => if p c then dropWhile p l' else l
  | [] => []
  end.

(** [.replace(/[:\s]+$/, "")] *)
Definition stripTrailing (s : string) : string :=
  string_of_list_ascii
    (rev (dropWhile (fun c => Ascii.eqb c ":" || Js.isSpace c)
                     (rev (list_ascii_of_string s)))).

(** [/A\s*B/.test(hay)] for two plain words [A] and [B]. *)
Fixpoint containsSpacedL (a b hay : list ascii) : bool :=
  (isPrefixL a hay && isPrefixL b (Js.dropSpaces (drop (length a) hay))) ||
  match hay with
  | [] => false
  | _ :: hay' => containsSpacedL a b hay'
  end.

Definition containsSpacedCI (a b hay : string) : bool :=
  containsSpacedL (list_ascii_of_string a) (list_ascii_of_string b)
                  (list_ascii_of_string (lower hay)).

End Str.

(** ** JavaScript values, as [JSON.stringify] sees them *)

Module Json.

Inductive JsVal :=
| JUndefined
| JNull
| JStr (s : string)
| JNum (n : Z)
| JArr (elems : list JsVal)
| JObj (props : list (string * JsVal)).

(** A value that is a string or [null]. *)
Definition ofString (v : option string) : JsVal :=
  match v with Some s => JStr s | None => JNull end.

Definition ofStrings (l : list string) : JsVal := JArr (map JStr l).

Fixpoint getProp (k : string) (props : list (string * JsVal)) : option JsVal :=
  match props with
  | [] => None
  | (k', v) :: rest => if String.eqb k' k then Some v else getProp k rest
  end.

(** [o[k]]; [None] when [o] has no own property [k]. *)
Definition get (k : string) (o : JsVal) : option JsVal :=
  match o with JObj props => getProp k props | _ => None end.

(** [o[k] = v] on the properties of [o]. *)
Fixpoint setProp (k : string) (v : JsVal) (props : list (string * JsVal))
  : list (string * JsVal) :=
  match props with
  | [] => [(k, v)]
  | (k', v') :: rest =>
      if String.eqb k' k then (k, v) :: rest else (k', v') :: setProp k v rest
  end.




Definition isArray (v : JsVal) : bool :=
  match v with JArr _ => true | _ => false end.

End Json.

(** ** [scrape_medex_brands_file_split_v3.js] *)

Module Split.
Import Js Dom.

Definition BASE : string := "https://medex.com.bd/brands".
Definition MAX_PAGES : Z := 900.
Definition BATCH_SIZE : Z := 5.
Definition MAX_RETRIES : Z := 3.
Definition RETRY_DELAY_MS : Z := 1000.
Definition BATCH_DELAY_MS : Z := 300.

(** One listing entry, as pushed to [out]; [_source_page] is [None]
    (absent) until the scheduler tags the record. *)
Record Brand := mkBrand {
  name : string;
  strength : option string;
  generic : option string;
  company : option string;
  medicine_type : option string;
  source_url : string;
  _source_page : option Z
}.

(** What the script does to the outside world, newest event first. *)
Inductive Event :=
| EvGet (url : string)
| EvSleep (ms : Z)
| EvWrite (startPage endPage : Z) (items : list Brand).

(** Answer of [axios.get]: a response body with [responseUrl], or a
    rejection (network error, time-out, status outside 2xx). *)
Inductive Reply :=
| Response (data : Page) (responseUrl : option string)
| Rejected (e : Error).

(** The environment: the server, the disk, and the event loop, which
    tells which of [n] pending calls goes on next.  All three see the
    history of the run. *)
Record Env := mkEnv {
  http : list Event -> string -> Reply;
  disk : list Event -> Z -> Z -> option Error;
  turn : list Event -> nat -> nat
}.

(** A file of the output directory: a batch written by the script, or
    anything else of a given size. *)
Inductive File :=
| Json (items : list Brand)
| Bytes (size : Z).

(** Files are keyed by the pair in their name [page_{start}_to_{end}.json]. *)
Record World := mkWorld {
  trace : list Event;
  files : gmap (Z * Z) File
}.

Definition log (e : Event) (w : World) : World :=
  mkWorld (e :: trace w) (files w).

Definition sleep (ms : Z) (w : World) : World := log (EvSleep ms) w.

(** [st.size > 0]; a JSON array is never empty text. *)
Definition fileExistsNonEmpty (startPage endPage : Z) (w : World) : bool :=
  match files w !! (startPage, endPage) with
  | Some (Json _) => true
  | Some (Bytes n) => 0 <? n
  | None => false
  end.

Definition pageUrl (page : Z) : string :=
  if 1 <? page then BASE +:+ "?page=" +:+ pretty page else BASE.

(** [resp.request?.res?.responseUrl || url] *)
Definition finalUrlOf (responseUrl : option string) (url : string) : string :=
  match responseUrl with
  | Some s => if truthy s then s else url
  | None => url
  end.

Definition fetchPageRaw (env : Env) (page : Z) (w : World)
  : Completion (Page * string) * World :=
  let url := pageUrl page in
  let w' := log (EvGet url) w in
  match http env (trace w) url with
  | Response data responseUrl => (Return (data, finalUrlOf responseUrl url), w')
  | Rejected e => (Throw e, w')
  end.

Inductive FetchResult :=
| Success (page : Z) (html : Page) (finalUrl : string)
| Failure (page : Z) (error : string).

Definition resultPage (r : FetchResult) : Z :=
  match r with Success p _ _ => p | Failure p _ => p end.

(** The [while] loop of [fetchWithRetries]; [None] when [fuel] iterations
    did not reach its end. *)
Fixpoint retryLoop (fuel : nat) (env : Env) (page maxRetries attempt : Z)
         (lastErr : option Error) (w : World)
  : option (Completion FetchResult * World) :=
  match fuel with
  | O => None
  | S fuel' =>
      if attempt <? maxRetries then
        let attempt := attempt + 1 in
        match fetchPageRaw env page w with
        | (Return (html, finalUrl), w1) =>
            Some (Return (Success page html finalUrl), w1)
        | (Throw err, w1) =>
            retryLoop fuel' env page maxRetries attempt (Some err)
                      (sleep RETRY_DELAY_MS w1)
        end
      else
        Some (Return (Failure page
                        match lastErr with
                        | Some e => errorText e
                        | None => "unknown"
                        end), w)
  end.

Definition fetchWithRetries (env : Env) (page maxRetries : Z) (w : World)
  : option (Completion FetchResult * World) :=
  retryLoop (S (Z.to_nat maxRetries)) env page maxRetries 0 None w.

(** How the loop can have stopped, with [new] its events (newest first):
    on an answer; before any request, with the error it was given; or on
    the rejection of its last request. *)
Inductive Stopped (env : Env) (page : Z) (lastErr : option Error) (w : World)
  : FetchResult -> list Event -> Prop :=
| StopSuccess html finalUrl responseUrl h new :
    new ++ trace w = EvGet (pageUrl page) :: h ->
    http env h (pageUrl page) = Response html responseUrl ->
    finalUrl = finalUrlOf responseUrl (pageUrl page) ->
    Stopped env page lastErr w (Success page html finalUrl) new
| StopUntried :
    Stopped env page lastErr w
            (Failure page match lastErr with Some e => errorText e | None => "unknown" end)
            []
| StopExhausted e h new :
    new ++ trace w = EvSleep RETRY_DELAY_MS :: EvGet (pageUrl page) :: h ->
    http env h (pageUrl page) = Rejected e ->
    Stopped env page lastErr w (Failure page (errorText e)) new.

(** The requests of a trace: all of them, and those for one address. *)
Definition isGet (e : Event) : bool :=
  match e with EvGet _ => true | _ => false end.

Definition isGetOf (url : string) (e : Event) : bool :=
  match e with EvGet u => String.eqb u url | _ => false end.

Definition requests (tr : list Event) : nat := length (List.filter isGet tr).

Definition requestsFor (url : string) (tr : list Event) : nat :=
  length (List.filter (isGetOf url) tr).

(** Every request of [new] is for a page of [pages], and no address is
    asked more than [n] times. *)
Definition Polite (n : nat) (pages : list Z) (new : list Event) : Prop :=
  forall u, (requestsFor u new <= n)%nat
            /\ (requestsFor u new <> 0%nat -> exists p, p ∈ pages /\ u = pageUrl p).

(** *** The listing extractor *)

(** [$dataRow.find("C1 ... Ck Q")] for [$dataRow = $a.find(".data-row")]:
    the elements that match [Q] below a [.data-row] below [a], under the
    chain.  The chain is looked for from the element up to the outermost
    such [.data-row], which may itself match the outermost compound;
    [chain] is nearest first. *)
Definition inDataRow (chain : list (node -> bool)) (q : node -> bool)
           (a : node) : list node :=
  map self
      (filter (fun x => q (self x)
                        && existsb (hasClass "data-row") (anc x)
                        && underChain chain (upToLast (hasClass "data-row") (anc x)))
              (below a)).

(** [$el.find(q).length] as a truth value *)
Definition hasInside (q : node -> bool) (n : node) : bool :=
  existsb (fun x => q (self x)) (below n).

(** [($img.attr("alt") || $img.attr("title") || "").trim() || null] *)
Definition altOrTitle (img : node) : option string :=
  orNull (trim (default "" (orElse (attr "alt" img) (attr "title" img)))).

(** [.clone().children().remove().end().text()] *)
Definition directText (sel : list node) : string :=
  fold_right (fun n acc => textWithoutChildren (fun _ => true) n +:+ acc) "" sel.

(** [/(Ltd|Limited|PLC|Pharma|Laboratories|Ltd\.)/i.test(s)] *)
Definition companySuffix (s : string) : bool :=
  existsb (fun w => Str.containsCI w s)
          ["ltd"; "limited"; "plc"; "pharma"; "laboratories"; "ltd."].

(** The [for (const $col of cols)] scan for a generic name. *)
Fixpoint scanGeneric (name : string) (strength : option string)
         (cols : list node) : option string :=
  match cols with
  | [] => None
  | col :: rest =>
      let txt := trim (textContent col) in
      if negb (truthy txt) then scanGeneric name strength rest
      else if String.eqb txt name then scanGeneric name strength rest
      else if bool_decide (strength = Some txt) then scanGeneric name strength rest
      else if hasInside (hasClass "data-row-company") col
           then scanGeneric name strength rest
      else if hasClass "data-row-top" col || hasClass "data-row-strength" col
           then scanGeneric name strength rest
      else Some txt
  end.

(** The body of the [each] callback; [None] is an early [return]. *)
Definition parseEntry (a : node) : option Brand :=
  let href := default "" (attr "href" a) in
  let source_url := if startsWith "http" href then href else ORIGIN +:+ href in
  let dataRow := filter (fun x => hasClass "data-row" (self x)) (below a) in
  if bool_decide (dataRow = []) then None else
  let icon := [hasClass "md-icon-container"] in
  let medicine_type :=
    match head (inDataRow icon (fun n => hasTag "img" n && hasClass "dosage-icon" n) a) with
    | Some img => altOrTitle img
    | None =>
        match head (inDataRow icon (hasTag "img") a) with
        | Some img2 => altOrTitle img2
        | None => None
        end
    end in
  let tops := inDataRow [] (hasClass "data-row-top") a in
  let name := trim (directText tops) in
  let name := if truthy name then name else trim (text tops) in
  let strength :=
    trim (text (inDataRow [hasClass "data-row-strength"] (hasClass "grey-ligten") a)) in
  let strength :=
    if truthy strength then strength
    else trim (text (inDataRow [] (hasClass "data-row-strength") a)) in
  let strength := orNull strength in
  let cols := inDataRow [] (hasClass "col-xs-12") a in
  let generic :=
    match cols !! 2%nat with
    | Some c =>
        let candidate := trim (textContent c) in
        if truthy candidate && negb (hasInside (hasClass "data-row-company") c)
        then Some candidate else None
    | None => None
    end in
  let generic :=
    match generic with
    | Some g => Some g
    | None => scanGeneric name strength cols
    end in
  let generic := if bool_decide (generic = Some "") then None else generic in
  let company := trim (text (inDataRow [] (hasClass "data-row-company") a)) in
  let company :=
    if truthy company then company
    else match last cols with
         | Some c =>
             let lastText := trim (textContent c) in
             if companySuffix lastText then lastText else company
         | None => company
         end in
  let company := orNull company in
  if negb (truthy name) then None
  else Some (mkBrand name strength generic company medicine_type source_url None).

Definition parsePageByStructure (html : Page) (pageUrl : string) : list Brand :=
  omap parseEntry
       (map self
            (filter (fun x => hasTag "a" (self x) && hasClass "hoverable-block" (self x))
                    (allOf html))).

(** *** The batch scheduler *)

(** [it._source_page = res.page] *)
Definition tag (p : Z) (it : Brand) : Brand :=
  mkBrand (name it) (strength it) (generic it) (company it)
          (medicine_type it) (source_url it) (Some p).



(** An entry of [batchFailed]. *)
Record Failed := mkFailed { page : Z; error : string }.

(** *** The fetches of a batch

    [pages.map((p) => fetchWithRetries(p, MAX_RETRIES))] awaited by
    [Promise.all]: the calls share one event loop.  Each call runs from
    its start to its first [await] as soon as it is made, so every page
    of the batch is asked for before any answer is read; from then on a
    call goes on when the event loop gives it its turn. *)

(** A call of [fetchWithRetries] between two turns: it waits for the
    answer to its request, it waits for its timer, or it has returned. *)
Inductive Call :=
| Asking (page attempt : Z)
| Pausing (page attempt : Z) (err : Error)
| Done (r : FetchResult).

Definition pending (c : Call) : bool :=
  match c with Done _ => false | _ => true end.

Definition returned (c : Call) : option FetchResult :=
  match c with Done r => Some r | _ => None end.

(** From the test of the [while] to the next [await], or to the [return]
    behind the loop. *)
Definition enter (page maxRetries attempt : Z) (lastErr : option Error) (w : World)
  : Call * World :=
  if attempt <? maxRetries
  then (Asking page (attempt + 1), log (EvGet (pageUrl page)) w)
  else (Done (Failure page
                match lastErr with
                | Some e => errorText e
                | None => "unknown"
                end), w).

(** A pending call goes on, up to its next [await] or to its [return].
    The answer to its request is the server's at the time it is read, so
    it may depend on what the other calls did in between. *)
Definition resume (env : Env) (maxRetries : Z) (c : Call) (w : World) : Call * World :=
  match c with
  | Asking page attempt =>
      let url := pageUrl page in
      match http env (trace w) url with
      | Response data responseUrl =>
          (Done (Success page data (finalUrlOf responseUrl url)), w)
      | Rejected e => (Pausing page attempt e, sleep RETRY_DELAY_MS w)
      end
  | Pausing page attempt e => enter page maxRetries attempt (Some e) w
  | Done _ => (c, w)
  end.

(** The [i]-th pending call of [calls] goes on. *)
Fixpoint resumeNth (env : Env) (maxRetries : Z) (i : nat) (calls : list Call) (w : World)
  : list Call * World :=
  match calls with
  | [] => ([], w)
  | c :: cs =>
      match pending c, i with
      | true, O =>
          let '(c', w') := resume env maxRetries c w in (c' :: cs, w')
      | true, S i' =>
          let '(cs', w') := resumeNth env maxRetries i' cs w in (c :: cs', w')
      | false, _ =>
          let '(cs', w') := resumeNth env maxRetries i cs w in (c :: cs', w')
      end
  end.

(** [pages.map(...)]: the calls are made in the order of the pages. *)
Fixpoint startAll (maxRetries : Z) (pages : list Z) (w : World) : list Call * World :=
  match pages with
  | [] => ([], w)
  | p :: ps =>
      let '(c, w1) := enter p maxRetries 0 None w in
      let '(cs, w2) := startAll maxRetries ps w1 in
      (c :: cs, w2)
  end.

(** [await Promise.all(fetchPromises)]: turns are taken until no call is
    pending, and the results come in the order of the calls.  Whatever
    the event loop answers designates a pending call.  [None] when [fuel]
    turns did not reach the end. *)
Fixpoint eventLoop (fuel : nat) (env : Env) (maxRetries : Z) (calls : list Call)
         (w : World) : option (list FetchResult * World) :=
  match length (List.filter pending calls) with
  | O => Some (omap returned calls, w)
  | S k =>
      match fuel with
      | O => None
      | S fuel' =>
          let '(calls', w') :=
            resumeNth env maxRetries (turn env (trace w) (S k) mod S k) calls w in
          eventLoop fuel' env maxRetries calls' w'
      end
  end.

(** [const results = await Promise.all(fetchPromises)]: the calls are
    made, then they take their turns.  A call takes at most two turns for
    each attempt, which bounds the turns of the batch. *)
Definition fetchAll (env : Env) (maxRetries : Z) (pages : list Z) (w : World)
  : option (Completion (list FetchResult) * World) :=
  let '(calls, w0) := startAll maxRetries pages w in
  match eventLoop (length pages * (2 * Z.to_nat maxRetries)) env maxRetries calls w0 with
  | Some (results, w') => Some (Return results, w')
  | None => None
  end.

(** The server of [env], asked about the history that includes the
    request itself. *)
Definition asked (env : Env) : Env :=
  mkEnv (fun h url => http env (EvGet url :: h) url) (disk env) (turn env).

(** The page of a call, the attempts it may still make, and the turns it
    may still take. *)
Definition callPage (c : Call) : Z :=
  match c with
  | Asking p _ => p
  | Pausing p _ _ => p
  | Done r => resultPage r
  end.

Definition triesLeft (maxRetries : Z) (c : Call) : nat :=
  match c with
  | Asking _ a => Z.to_nat (maxRetries - a)
  | Pausing _ a _ => Z.to_nat (maxRetries - a)
  | Done _ => 0
  end.

Definition turnsLeft (maxRetries : Z) (c : Call) : nat :=
  match c with
  | Asking _ a => 2 * Z.to_nat (maxRetries - a) + 2
  | Pausing _ a _ => 2 * Z.to_nat (maxRetries - a) + 1
  | Done _ => 0
  end.

Definition turnsOf (maxRetries : Z) (calls : list Call) : nat :=
  fold_right (fun c n => (turnsLeft maxRetries c + n)%nat) 0%nat calls.

(** At some point of the batch, [new] being its events up to now, the
    server gave [reply] for [url]. *)
Definition Answered (env : Env) (w : World) (new : list Event) (url : string)
           (reply : Reply) : Prop :=
  exists later earlier,
    new = later ++ earlier /\ http env (earlier ++ trace w) url = reply.

(** What a result of a batch means, [new] being the events of the batch:
    a success is an answer of the server, after at least one and at most
    [maxRetries] requests; a failure comes after [maxRetries] requests,
    with the error of a rejection (or without any, when there was no
    request to make). *)
Definition Fetched (env : Env) (maxRetries : Z) (w : World) (new : list Event)
           (r : FetchResult) : Prop :=
  match r with
  | Success p html finalUrl =>
      (1 <= requestsFor (pageUrl p) new <= Z.to_nat maxRetries)%nat
      /\ exists responseUrl,
          Answered env w new (pageUrl p) (Response html responseUrl)
          /\ finalUrl = finalUrlOf responseUrl (pageUrl p)
  | Failure p err =>
      requestsFor (pageUrl p) new = Z.to_nat maxRetries
      /\ ((maxRetries <= 0 /\ err = "unknown")
          \/ exists e, Answered env w new (pageUrl p) (Rejected e) /\ err = errorText e)
  end.

(** What holds of a call between two turns. *)
Definition CallOk (env : Env) (maxRetries : Z) (w : World) (new : list Event)
           (c : Call) : Prop :=
  match c with
  | Asking p a =>
      1 <= a <= maxRetries /\ requestsFor (pageUrl p) new = Z.to_nat a
  | Pausing p a e =>
      1 <= a <= maxRetries /\ requestsFor (pageUrl p) new = Z.to_nat a
      /\ Answered env w new (pageUrl p) (Rejected e)
  | Done r => Fetched env maxRetries w new r
  end.

Section Scheduler.
(** The extractor called by the scheduler, with what its [try] sees. *)
Variable parse : Page -> string -> Completion (list Brand).

(** [for (const it of parsed) { it._source_page = res.page; batchItems.push(it); }] *)
Definition pushTagged (p : Z) (parsed batchItems : list Brand) : list Brand :=
  fold_left (fun acc it => acc ++ [tag p it]) parsed batchItems.

(** [for (const res of results) ...] *)
Fixpoint collect (results : list FetchResult) (batchItems : list Brand)
         (batchFailed : list Failed) : list Brand * list Failed :=
  match results with
  | [] => (batchItems, batchFailed)
  | Failure p err :: rest =>
      collect rest batchItems
              (batchFailed ++ [mkFailed p (if truthy err then err else "unknown")])
  | Success p html finalUrl :: rest =>
      match parse html finalUrl with
      | Return parsed => collect rest (pushTagged p parsed batchItems) batchFailed
      | Throw err =>
          collect rest batchItems
                  (batchFailed ++ [mkFailed p ("parse_error: " +:+ errorText err)])
      end
  end.

(** The [catch] of the write: every page of the batch not yet in
    [batchFailed] is added to it. *)
Definition markWriteFailed (err : Error) (pages : list Z)
           (batchFailed : list Failed) : list Failed :=
  fold_left
    (fun bf p =>
       if existsb (fun b => page b =? p) bf then bf
       else bf ++ [mkFailed p ("write_error: " +:+ errorText err)])
    pages batchFailed.

(** State of [main] between two batches. *)
Record Run := mkRun {
  failedPages : list Z;
  totalSaved : Z;
  world : World
}.

(** One batch that is not skipped: from the list of pages to the sleep. *)
Definition processBatch (env : Env) (maxRetries startPage endPage : Z) (st : Run)
  : option (Completion Run) :=
  let pages := seqZ startPage (endPage - startPage + 1) in
  match fetchAll env maxRetries pages (world st) with
  | None => None
  | Some (Throw e, _) => Some (Throw e)
  | Some (Return results, w1) =>
      let '(batchItems, batchFailed) := collect results [] [] in
      let w2 := log (EvWrite startPage endPage batchItems) w1 in
      let '(w3, saved, batchFailed) :=
        match disk env (trace w1) startPage endPage with
        | None =>
            (mkWorld (trace w2)
                     (<[(startPage, endPage) := Json batchItems]> (files w2)),
             totalSaved st + Z.of_nat (length batchItems),
             batchFailed)
        | Some err =>
            (w2, totalSaved st, markWriteFailed err pages batchFailed)
        end in
      Some (Return (mkRun (failedPages st ++ map page batchFailed) saved
                          (sleep BATCH_DELAY_MS w3)))
  end.

(** [for (let start = 1; start <= MAX_PAGES; start += BATCH_SIZE)] *)
Fixpoint batches (fuel : nat) (env : Env) (maxPages batchSize maxRetries : Z)
         (start : Z) (st : Run) : option (Completion Run) :=
  match fuel with
  | O => None
  | S fuel' =>
      if start <=? maxPages then
        let endPage := Z.min (start + batchSize - 1) maxPages in
        if fileExistsNonEmpty start endPage (world st)
        then batches fuel' env maxPages batchSize maxRetries (start + batchSize) st
        else match processBatch env maxRetries start endPage st with
             | Some (Return st') =>
                 batches fuel' env maxPages batchSize maxRetries
                         (start + batchSize) st'
             | r => r
             end
      else Some (Return st)
  end.

(** [new Set(xs)]: members in the order of their first insertion. *)
Definition setOf (xs : list Z) : list Z :=
  fold_left (fun seen x => if bool_decide (x ∈ seen) then seen else seen ++ [x]) xs [].

(** [.sort((a, b) => a - b)] *)
Definition sortNumeric (xs : list Z) : list Z := merge_sort Z.le xs.

(** What [main] prints at its end. *)
Record Report := mkReport {
  failedUnique : list Z;
  saved : Z;
  final : World
}.

Definition mainWith (fuel : nat) (env : Env) (maxPages batchSize maxRetries : Z)
           (w : World) : option (Completion Report) :=
  match batches fuel env maxPages batchSize maxRetries 1 (mkRun [] 0 w) with
  | None => None
  | Some (Throw e) => Some (Throw e)
  | Some (Return st) =>
      Some (Return (mkReport (sortNumeric (setOf (failedPages st)))
                             (totalSaved st) (world st)))
  end.

(** The outcome of a batch in the words of the specification: the records
    of the pages that were fetched and parsed, in page order, each with its
    page; and the pages that were not. *)
Definition recordsOf (results : list FetchResult) : list Brand :=
  flat_map (fun r =>
              match r with
              | Success p html finalUrl =>
                  match parse html finalUrl with
                  | Return parsed => map (tag p) parsed
                  | Throw _ => []
                  end
              | Failure _ _ => []
              end) results.

Definition pageFailed (r : FetchResult) : bool :=
  match r with
  | Failure _ _ => true
  | Success _ html finalUrl =>
      match parse html finalUrl with
      | Throw _ => true
      | Return _ => false
      end
  end.


Definition failedOf (results : list FetchResult) : list Z :=
  map resultPage (List.filter pageFailed results).

(** What a batch that is not skipped leaves behind: one result per page;
    one write, of exactly the records of the pages fetched and parsed; the
    file, when the disk takes the write; the failed pages recorded; and
    every result is what its call fetched. *)
Definition BatchPersisted (env : Env) (maxRetries startPage endPage : Z) (st : Run)
  : Prop :=
  exists results w1 st',
    fetchAll env maxRetries (seqZ startPage (endPage - startPage + 1)) (world st)
    = Some (Return results, w1)
    /\ map resultPage results = seqZ startPage (endPage - startPage + 1)
    /\ processBatch env maxRetries startPage endPage st = Some (Return st')
    /\ trace (world st')
       = EvSleep BATCH_DELAY_MS :: EvWrite startPage endPage (recordsOf results)
                                :: trace w1
    /\ (disk env (trace w1) startPage endPage = None ->
        files (world st') !! (startPage, endPage) = Some (Json (recordsOf results))
        /\ failedPages st' = failedPages st ++ failedOf results)
    /\ (forall p, p ∈ failedOf results -> p ∈ failedPages st')
    /\ (exists new,
          trace w1 = new ++ trace (world st)
          /\ Forall (Fetched env maxRetries (world st) new) results).

(** The batches of the loop from [start] on: [startPage] is a value of
    the loop variable, and [endPage] the last page of that batch. *)
Definition BatchFrom (start maxPages batchSize startPage endPage : Z) : Prop :=
  (exists k, 0 <= k /\ startPage = start + k * batchSize)
  /\ startPage <= maxPages
  /\ endPage = Z.min (startPage + batchSize - 1) maxPages.

(** A run that began in [w] and whose events are [tr] went through the
    batch: from some point [w0] of the run its pages were fetched, with
    one result per page, each being what its call fetched, up to [w1];
    the write of the records of the pages fetched and parsed came next,
    and then the pause. *)
Definition Processed (env : Env) (maxRetries startPage endPage : Z) (w : World)
           (tr : list Event) (results : list FetchResult) (w1 : World) : Prop :=
  exists w0 before after,
    trace w0 = before ++ trace w
    /\ fetchAll env maxRetries (seqZ startPage (endPage - startPage + 1)) w0
       = Some (Return results, w1)
    /\ map resultPage results = seqZ startPage (endPage - startPage + 1)
    /\ (exists new,
          trace w1 = new ++ trace w0
          /\ Forall (Fetched env maxRetries w0 new) results)
    /\ tr = after ++ EvSleep BATCH_DELAY_MS
                  :: EvWrite startPage endPage (recordsOf results) :: trace w1.

(** What is kept of such a batch, [before] and [after] being the files at
    both ends of the run and [failed] the pages it recorded: the failed
    pages of the batch are in [failed]; when the disk took the write the
    file holds the records, and when it did not the file is as it was and
    every page of the batch is in [failed]. *)
Definition BatchKept (env : Env) (startPage endPage : Z)
           (before after : gmap (Z * Z) File) (failed : list Z)
           (results : list FetchResult) (w1 : World) : Prop :=
  (forall p, p ∈ failedOf results -> p ∈ failed)
  /\ match disk env (trace w1) startPage endPage with
     | None => after !! (startPage, endPage) = Some (Json (recordsOf results))
     | Some _ =>
         after !! (startPage, endPage) = before !! (startPage, endPage)
         /\ forall p, startPage <= p <= endPage -> p ∈ failed
     end.

(** What a whole run leaves behind: it ends with a report; no address was
    asked more often than the retry budget allows; the report lists the
    recorded failed pages in ascending order, each once; the run went
    through every batch whose file it did not find, and kept its outcome;
    and every page of the report failed in such a batch, or is a page of
    such a batch whose write was rejected. *)
Definition RunReported (env : Env) (maxPages batchSize maxRetries : Z) (w : World)
  : Prop :=
  exists rep st new,
    mainWith (S (Z.to_nat maxPages)) env maxPages batchSize maxRetries w
    = Some (Return rep)
    /\ batches (S (Z.to_nat maxPages)) env maxPages batchSize maxRetries 1 (mkRun [] 0 w)
       = Some (Return st)
    /\ trace (final rep) = new ++ trace w
    /\ (forall u, (requestsFor u new <= Z.to_nat maxRetries)%nat)
    /\ StronglySorted Z.lt (failedUnique rep)
    /\ (forall p, p ∈ failedUnique rep <-> p ∈ failedPages st)
    /\ (forall startPage endPage,
          BatchFrom 1 maxPages batchSize startPage endPage ->
          fileExistsNonEmpty startPage endPage w = false ->
          exists results w1,
            Processed env maxRetries startPage endPage w (trace (final rep)) results w1
            /\ BatchKept env startPage endPage (files w) (files (final rep))
                         (failedUnique rep) results w1)
    /\ (forall p,
          p ∈ failedUnique rep ->
          exists startPage endPage results w1,
            BatchFrom 1 maxPages batchSize startPage endPage
            /\ startPage <= p <= endPage
            /\ fileExistsNonEmpty startPage endPage w = false
            /\ Processed env maxRetries startPage endPage w (trace (final rep)) results w1
            /\ (p ∈ failedOf results
                \/ disk env (trace w1) startPage endPage <> None)).

End Scheduler.

(** The script, with its constants; steps of at least one page reach the
    end of the loop within [MAX_PAGES + 1] tests of its condition. *)
Definition main (env : Env) (w : World) : option (Completion Report) :=
  mainWith (fun html pageUrl => Return (parsePageByStructure html pageUrl))
           (S (Z.to_nat MAX_PAGES)) env MAX_PAGES BATCH_SIZE MAX_RETRIES w.

End Split.

(** ** The Bissoy variant of the listing extractor *)

Module Bissoy.
Import Js Dom.

Definition ORIGIN : string := "https://www.bissoy.com".

Record Medicine := mkMedicine {
  name_en : string;
  name_bn : option string;
  source_url : string;
  company : option string;
  price : option string;
  generic : option string;
  strength : option string
}.

(** The selector [a[href^='/medicine/']] *)
Definition medicineLink (n : node) : bool :=
  hasTag "a" n &&
  match attr "href" n with
  | Some h => startsWith "/medicine/" h
  | None => false
  end.

(** [X > Y]: an element matching [Y] whose parent matches [X]. *)
Definition childOf (parentSel sel : node -> bool) (x : Loc) : bool :=
  sel (self x) &&
  match anc x with
  | p :: _ => parentSel p
  | [] => false
  end.

(** [pArray[i] || null] *)
Definition cell (pArray : list string) (i : nat) : option string :=
  match pArray !! i with
  | Some s => orNull s
  | None => None
  end.

(** The body of the [each] callback; [None] is an early [return]. *)
Definition parseEntry (li : node) : option Medicine :=
  let a := head (map self (filter (fun x => medicineLink (self x)) (below li))) in
  let href := default "" (a ≫= attr "href") in
  let source_url := if startsWith "http" href then href else ORIGIN +:+ href in
  if negb (truthy source_url) || String.eqb source_url ORIGIN then None else
  let nameLink :=
    map self
        (filter (childOf (fun p => hasTag "h3" p && hasClass "text-xl" p
                                   && hasClass "font-bold" p)
                         (hasTag "a"))
                (below li)) in
  let nameText := trim (text nameLink) in
  let pieces := map trim (Str.split " | " nameText) in
  let name_en := pieces !! 0%nat in
  let name_bn := pieces !! 1%nat in
  match name_en with
  | None => None
  | Some name_en =>
      if negb (truthy name_en) then None else
      let pArray :=
        map (fun x => trim (textContent (self x)))
            (filter (childOf (hasTag "div") (hasTag "p")) (below li)) in
      let strength := cell pArray 0 in
      let generic := cell pArray 1 in
      let company := cell pArray 2 in
      let price := cell pArray 3 in
      Some (mkMedicine name_en (orElse name_bn None) source_url
                       company price generic strength)
  end.

Definition parsePageByStructure (html : Page) (pageUrl : string) : list Medicine :=
  omap parseEntry
       (map self
            (filter (childOf (fun p => hasTag "ul" p && hasClass "space-y-6" p)
                             (hasTag "li"))
                    (allOf html))).



End Bissoy.

(** ** [fetch_medex_brand_details.js]: the resumable per-item loop *)

Module Details.
Import Js Dom.

Definition REQUEST_DELAY_MS : Z := 500.

(** A brand record of the input file, seen through the four keys that
    [main] reads; [None] is an absent or [null] key. *)
Record Item := mkItem {
  source_url : option string;
  source : option string;
  href : option string;
  link : option string
}.

(** What [parseBrandDetail] puts between [source_url] and [fetched_at]:
    the other properties of its result. *)
Definition Fields : Type := list (string * Json.JsVal).

Section Resume.

(** An element of the output array. *)
Inductive Entry :=
| Parsed (source_url : option string) (fields : Fields) (fetched_at : string)
         (input_index : Z) (brand_record : Item)
| ErrorRecord (source_url : option string) (error : string)
              (fetched_at : string) (original_record : Item)
| Other (source_url : option string).

(** [e.source_url] when it is a string; [Other None] stands for [null]
    and for every value without such a key. *)
Definition entryUrl (e : Entry) : option string :=
  match e with
  | Parsed u _ _ _ _ => u
  | ErrorRecord u _ _ _ => u
  | Other u => u
  end.

Inductive Event :=
| EvGet (url : option string)
| EvWrite (entries : list Entry)
| EvSleep (ms : Z).

Inductive Reply :=
| Response (data : Page) (responseUrl : option string)
| Rejected (e : Error).

(** The HTTP client, the file system on [writeFile], and the clock. *)
Record Env := mkEnv {
  http : list Event -> option string -> Reply;
  disk : list Event -> option Error;
  clock : list Event -> string
}.

(** The output file as [ensureOutputFile] and [appendToOutput] read it. *)
Inductive FileState :=
| Missing
| Blank
| Garbage
| Array (entries : list Entry).

Record World := mkWorld { trace : list Event; file : FileState }.

Definition log (e : Event) (w : World) : World := mkWorld (e :: trace w) (file w).

Definition sleep (ms : Z) (w : World) : World := log (EvSleep ms) w.

(** [fs.writeFile(OUTPUT_FILE, JSON.stringify(arr, null, 2), "utf8")]:
    a rejected write leaves the file as it was. *)
Definition writeFile (env : Env) (arr : list Entry) (w : World)
  : Completion unit * World :=
  match disk env (trace w) with
  | None => (Return tt, mkWorld (EvWrite arr :: trace w) (Array arr))
  | Some err => (Throw err, log (EvWrite arr) w)
  end.

Definition ensureOutputFile (env : Env) (w : World)
  : Completion (list Entry) * World :=
  let reset w :=
    match writeFile env [] w with
    | (Return _, w') => (Return [], w')
    | (Throw e, w') => (Throw e, w')
    end in
  match file w with
  | Array arr => (Return arr, w)
  | Blank =>
      match writeFile env [] w with
      | (Return _, w') => (Return [], w')
      | (Throw _, w') => reset w'
      end
  | Missing | Garbage => reset w
  end.

(** [throw new Error(`Fetch failed: ${err.message || err}`)] *)
Definition fetchFailed (err : Error) : Error :=
  let m := "Fetch failed: " +:+ errorText err in
  mkError m ("Error: " +:+ m).

Definition fetchHtml (env : Env) (url : option string) (w : World)
  : Completion (Page * option string) * World :=
  let w' := log (EvGet url) w in
  match http env (trace w) url with
  | Response data responseUrl => (Return (data, orElse responseUrl url), w')
  | Rejected err => (Throw (fetchFailed err), w')
  end.

Definition appendToOutput (env : Env) (newObj : Entry) (w : World)
  : Completion unit * World :=
  let arr := match file w with Array arr => arr | _ => [] end in
  writeFile env (arr ++ [newObj]) w.

Definition alreadyProcessed (outputArr : list Entry) (sourceUrl : option string)
  : bool :=
  match sourceUrl with
  | None => false
  | Some sourceUrl =>
      if negb (truthy sourceUrl) then false else
      let su := trim sourceUrl in
      existsb (fun e => bool_decide (entryUrl e = Some su)
                        || bool_decide (entryUrl e = Some (normalizeUrl su)))
              outputArr
  end.

(** The extractor as [main] calls it: the record without the two keys
    above, or what it throws. *)
Variable parseBrandDetail : Page -> Completion Fields.

(** [const src = item.source_url || item.source || item.href || item.link;
    const source_url = src ? normalizeUrl(src) : null;] *)
Definition sourceUrlOf (item : Item) : option string :=
  let src := orElse (source_url item)
                    (orElse (source item) (orElse (href item) (link item))) in
  match src with
  | Some s => if truthy s then Some (normalizeUrl s) else None
  | None => None
  end.

(** One turn of the [for] loop. *)
Definition step (env : Env) (i : Z) (item : Item)
           (st : list Entry * World) : list Entry * World :=
  let '(outputArr, w) := st in
  let source_url := sourceUrlOf item in
  if alreadyProcessed outputArr source_url then (outputArr, w) else
  let attempt : Completion Entry * World :=
    match fetchHtml env source_url w with
    | (Throw e, w1) => (Throw e, w1)
    | (Return (html, finalUrl), w1) =>
        match parseBrandDetail html with
        | Throw e => (Throw e, w1)
        | Return fields =>
            let parsed := Parsed (orElse finalUrl source_url) fields
                                 (clock env (trace w1)) i item in
            match appendToOutput env parsed w1 with
            | (Return _, w2) => (Return parsed, w2)
            | (Throw e, w2) => (Throw e, w2)
            end
        end
    end in
  let '(outputArr, w) :=
    match attempt with
    | (Return parsed, w2) => (outputArr ++ [parsed], w2)
    | (Throw err, w2) =>
        let errObj := ErrorRecord source_url (errorText err)
                                  (clock env (trace w2)) item in
        match appendToOutput env errObj w2 with
        | (Return _, w3) => (outputArr ++ [errObj], w3)
        | (Throw _, w3) => (outputArr, w3)
        end
    end in
  (outputArr, sleep REQUEST_DELAY_MS w).

(** [for (let i = 0; i < input.length; i++)] *)
Fixpoint loop (env : Env) (i : Z) (input : list Item)
         (st : list Entry * World) : list Entry * World :=
  match input with
  | [] => st
  | item :: rest => loop env (i + 1) rest (step env i item st)
  end.

(** [main], once the input file has been read. *)
Definition main (env : Env) (input : list Item) (w : World)
  : Completion unit * World :=
  match ensureOutputFile env w with
  | (Throw e, w') => (Throw e, w')
  | (Return outputArr, w') => (Return tt, snd (loop env 0 input (outputArr, w')))
  end.

(** The records that the output file holds. *)
Definition stored (f : FileState) : list Entry :=
  match f with Array entries => entries | _ => [] end.

(** The server never reports a final address other than the one asked. *)
Definition NoRedirect (env : Env) : Prop :=
  forall h url data responseUrl,
    http env h (Some url) = Response data responseUrl ->
    orElse responseUrl (Some url) = Some url.

(** The item has an address, and the address has no white space around it. *)
Definition Clean (item : Item) : Prop :=
  exists su, sourceUrlOf item = Some su /\ trim su = su.

End Resume.

(** *** [parseBrandDetail] of this script: raw section texts *)

Definition textOrNullLocal (sel : list node) : option string :=
  match sel with
  | [] => None
  | _ => orNull (normWs (text sel))
  end.

Definition falsy (v : option string) : bool :=
  match v with
  | Some s => negb (truthy s)
  | None => true
  end.

Definition nullIfFalsy (v : option string) : option string :=
  if falsy v then None else v.

Definition select (doc : Page) (chain : list (node -> bool)) (q : node -> bool)
  : list node :=
  map self (filter (fun x => q (self x) && underChain chain (anc x)) (allOf doc)).

Definition find (q : node -> bool) (n : node) : list node :=
  map self (filter (fun x => q (self x)) (below n)).

(** [new Set(xs)] on paths: first occurrences, in order. *)
Definition uniq (xs : list (list nat)) : list (list nat) :=
  fold_left (fun seen x => if bool_decide (x ∈ seen) then seen else seen ++ [x]) xs [].

Definition properPrefix (p q : list nat) : bool :=
  bool_decide (p `prefix_of` q) && negb (bool_decide (p = q)).

(** [$marker.parent()]: the parents that are elements, without
    duplicates. *)
Definition parentPaths (markers : list Loc) : list (list nat) :=
  uniq (omap (fun m => match path m with
                       | [] | [_] => None
                       | p => Some (removelast p)
                       end) markers).

(** [$(roots).find(q)]: roots inside other roots are dropped, then each
    root is searched in document order. *)
Definition findUnder (doc : Page) (roots : list (list nat)) (q : node -> bool)
  : list node :=
  let tops := filter (fun r => negb (existsb (fun r' => properPrefix r' r) roots)) roots in
  flat_map (fun r => map self (filter (fun x => q (self x) && properPrefix r (path x))
                                      (allOf doc)))
           tops.

(** [$marker.nextAll(".ac-body").first()] for every element with the id. *)
Definition nextBody (markers : list Loc) : option node :=
  head (flat_map (fun m => filter (fun n => isElem n && hasClass "ac-body" n) (after m))
                 markers).

Definition sectionIds : list string :=
  ["indications"; "mode_of_action"; "dosage"; "interaction"; "contraindications";
   "side_effects"; "pregnancy_cat"; "precautions"; "pediatric_uses";
   "overdose_effects"; "drug_classes"; "storage_conditions"; "compound_summary";
   "commonly_asked_questions"].

(** The text of one section, [null] when the marker or its body is
    missing or blank. *)
Definition sectionText (doc : Page) (id : string) : option string :=
  let marker := filter (fun x => hasId id (self x)) (allOf doc) in
  match marker with
  | [] => None
  | _ =>
      let body :=
        match nextBody marker with
        | Some b => Some b
        | None => head (findUnder doc (parentPaths marker) (hasClass "ac-body"))
        end in
      textOrNullLocal (option_list body)
  end.

(** [for (const id of sectionIds) { ...; if (text) sections[id] = text; }] *)
Definition sections (doc : Page) : list (string * Json.JsVal) :=
  fold_left (fun sections id =>
               match sectionText doc id with
               | Some text => if truthy text then Json.setProp id (Json.JStr text) sections
                              else sections
               | None => sections
               end)
            sectionIds [].

Definition brandHeading (n : node) : bool :=
  hasTag "h1" n && hasClass "page-heading-1-l" n && hasClass "brand" n.

Definition subtitleSel (n : node) : bool :=
  hasTag "small" n && hasClass "h1-subtitle" n.

Definition hasTitle (t : string) (n : node) : bool :=
  hasTag "div" n && bool_decide (attr "title" n = Some t).

Definition nameOf (doc : Page) : option string :=
  match nullIfFalsy (textOrNullLocal (option_list (head (select doc [] brandHeading)))) with
  | Some name =>
      match nullIfFalsy (textOrNullLocal (select doc [brandHeading] subtitleSel)) with
      | Some subtitle => Some (trim (Str.removeFirst subtitle name))
      | None => Some name
      end
  | None => nullIfFalsy (textOrNullLocal (option_list (head (select doc [] (hasClass "brand")))))
  end.

Definition companyOf (doc : Page) : option string :=
  let company :=
    textOrNullLocal (option_list (head (select doc [hasTitle "Manufactured by"] (hasTag "a")))) in
  if falsy company then
    match head (select doc [] (hasTitle "Manufactured by")) with
    | Some manuDiv =>
        match head (find (hasTag "a") manuDiv) with
        | Some anchor => textOrNullLocal [anchor]
        | None =>
            orNull (trim (Str.nbspToSpace (textWithoutChildren (fun _ => true) manuDiv)))
        end
    | None => company
    end
  else company.

(** [href ? (href.startsWith("http") ? href : ORIGIN + href) : null] *)
Definition absHref (href : option string) : option string :=
  match href with
  | Some h => if negb (truthy h) then None
              else if startsWith "http" h then Some h else Some (ORIGIN +:+ h)
  | None => None
  end.

Definition packImageOf (doc : Page) : option string :=
  match head (select doc [hasClass "mp-trigger"] (hasTag "img")) with
  | Some mpImg =>
      let pack_image := nullIfFalsy (orElse (attr "src" mpImg) (attr "data-src" mpImg)) in
      match pack_image with
      | Some src => if startsWith "http" src then Some src else Some (ORIGIN +:+ src)
      | None => None
      end
  | None =>
      match head (select doc [] (hasClass "img-defer")) with
      | Some imgDefer => nullIfFalsy (orElse (attr "src" imgDefer) (attr "data-src" imgDefer))
      | None => None
      end
  end.

(** [$s.nextUntil("strong")]: the following sibling elements up to the
    next [strong]. *)
Fixpoint nextUntilStrong (sibs : list node) : list node :=
  match sibs with
  | [] => []
  | n :: rest =>
      if isElem n then
        if hasTag "strong" n then [] else n :: nextUntilStrong rest
      else nextUntilStrong rest
  end.

Definition liTexts (lst : node) : list string :=
  omap (fun li => nullIfFalsy (textOrNullLocal [li])) (find (hasTag "li") lst).

Record RawDosage := mkRawDosage {
  medication_type : option string;
  instructions : list string
}.

(** The body of [for (const node of nodes)]. *)
Definition dosageNode (medType : option string) (instructions : list string)
           (nd : node) : list string :=
  if hasTag "ul" nd then instructions ++ liTexts nd
  else
    let instructions := instructions ++ flat_map liTexts (find (hasTag "ul") nd) in
    let directText := normWs (textWithoutChildren (hasTag "ul") nd) in
    if truthy directText && negb (bool_decide (Some directText = medType))
    then directText :: instructions else instructions.

Definition dosageOf (doc : Page) : list RawDosage :=
  match nextBody (filter (fun x => hasId "dosage" (self x)) (allOf doc)) with
  | None => []
  | Some dosageBody =>
      match filter (fun x => hasTag "strong" (self x)) (below dosageBody) with
      | [] =>
          let fallbackInstructions :=
            flat_map liTexts (find (hasTag "ul") dosageBody) in
          if bool_decide (fallbackInstructions = []) then []
          else [mkRawDosage None fallbackInstructions]
      | strongs =>
          map (fun s =>
                 let medType := nullIfFalsy (textOrNullLocal [self s]) in
                 mkRawDosage medType
                             (fold_left (dosageNode medType) (nextUntilStrong (after s)) []))
              strongs
      end
  end.

(** The callback over the rows of the compound table; [compound] is an
    object whose keys depend on the page. *)
Definition compoundRow (compound : list (string * Json.JsVal)) (tr : node)
  : list (string * Json.JsVal) :=
  match find (hasTag "td") tr with
  | td0 :: valEl :: _ =>
      let key := trim (Str.stripTrailing (textContent td0)) in
      let valText := trim (textContent valEl) in
      if Str.containsCI "molecular formula" key then
        Json.setProp "molecular_formula" (Json.ofString (orNull valText)) compound
      else if Str.containsCI "chemical structure" key then
        match head (find (hasTag "img") valEl) with
        | Some img =>
            Json.setProp "chemical_structure" (Json.ofString (absHref (attr "src" img)))
                         compound
        | None =>
            Json.setProp "chemical_structure" (Json.ofString (orNull valText)) compound
        end
      else Json.setProp key (Json.ofString (orNull valText)) compound
  | _ => compound
  end.

Definition compoundOf (doc : Page) : list (string * Json.JsVal) :=
  let acBody := [hasClass "ac-body"; hasId "compound_summary"] in
  match head (select doc acBody (hasTag "table")) with
  | Some compoundTable => fold_left compoundRow (find (hasTag "tr") compoundTable) []
  | None =>
      match nullIfFalsy
              (textOrNullLocal
                 (option_list (head (select doc [hasId "compound_summary"]
                                            (hasClass "ac-body"))))) with
      | Some compTxt => [("summary", Json.JStr compTxt)]
      | None => []
      end
  end.

Section RawExtractor.
(** The three patterns applied to the text of a package container:
    [/Unit Price:\s*([৳\d\.,]+)/i], [/Strip Price:\s*([৳\d\.,]+)/i] and
    [/\(([^)]+x[^)]+)\)/i].  Each gives the whole match and its first
    capture, when there is a match. *)
Variable matchUnitPrice matchStripPrice matchPackSize
  : string -> option (string * string).

Record Prices := mkPrices {
  unit_price : option string;
  strip_price : option string;
  pack_size_info : option string
}.

(** [match && match[1]], then [.trim()] *)
Definition capture (m : option (string * string)) (old : option string)
  : option string :=
  match m with
  | Some (_, g) => if truthy g then Some (trim g) else old
  | None => old
  end.

Definition priceStep (acc : Prices) (pc : node) : Prices :=
  let txt := normWs (textContent pc) in
  let unit_price := capture (matchUnitPrice txt) (unit_price acc) in
  let strip_price := capture (matchStripPrice txt) (strip_price acc) in
  let pack_size_info :=
    match head (find (hasClass "pack-size-info") pc) with
    | Some psi => Some (trim (textContent psi))
    | None => pack_size_info acc
    end in
  let pack_size_info :=
    if falsy pack_size_info then
      match matchPackSize txt with
      | Some (whole, g) => if truthy g then Some whole else pack_size_info
      | None => pack_size_info
      end
    else pack_size_info in
  mkPrices unit_price strip_price pack_size_info.

Definition pricingOf (doc : Page) : Prices :=
  fold_left priceStep
            (select doc [hasClass "packages-wrapper"] (hasClass "package-container"))
            (mkPrices None None None).

Import Json.

(** The object of [parseBrandDetail] between [source_url] and
    [fetched_at]. *)
Definition fieldsOf (doc : Page) : list (string * JsVal) :=
  let dosage_form :=
    textOrNullLocal (option_list (head (select doc [brandHeading] subtitleSel))) in
  let generic :=
    orElse (textOrNullLocal (option_list (head (select doc [hasTitle "Generic Name"]
                                                       (hasTag "a")))))
           (textOrNullLocal (option_list (head (select doc [] (hasTitle "Generic Name"))))) in
  let strength :=
    textOrNullLocal (option_list (head (select doc [] (hasTitle "Strength")))) in
  let pr := pricingOf doc in
  let also_available :=
    map (fun a => JObj [("text", ofString (textOrNullLocal [a]));
                        ("href", ofString (absHref (attr "href" a)))])
        (select doc [] (hasClass "btn-sibling-brands")) in
  let alternate_brands_link :=
    head (select doc []
                 (fun n => hasTag "a" n && hasClass "btn-teal" n && hasClass "prsinf-btn" n
                           && match attr "href" n with
                              | Some h => Str.contains "/brand-names" h
                              | None => false
                              end))
    ≫= attr "href" in
  let common_questions :=
    omap (fun el =>
            let q := textOrNullLocal (find (hasClass "caq-q") el) in
            let a := textOrNullLocal (find (hasClass "caq-a") el) in
            if negb (falsy q) || negb (falsy a)
            then Some (JObj [("q", ofString q); ("a", ofString a)]) else None)
         (select doc [hasId "commonly_asked_questions"] (hasClass "caq")) in
  let therapeutic_class :=
    nullIfFalsy (textOrNullLocal
                   (option_list (head (select doc [hasId "drug_classes"]
                                              (hasClass "ac-body"))))) in
  [("name", ofString (nullIfFalsy (nameOf doc)));
   ("dosage_form", ofString (nullIfFalsy dosage_form));
   ("generic", ofString (nullIfFalsy generic));
   ("strength", ofString (nullIfFalsy strength));
   ("company", ofString (nullIfFalsy (companyOf doc)));
   ("pack_image", ofString (nullIfFalsy (packImageOf doc)));
   ("pricing", JObj [("unit_price", ofString (unit_price pr));
                     ("strip_price", ofString (strip_price pr));
                     ("pack_size_info", ofString (pack_size_info pr))]);
   ("also_available", JArr also_available);
   ("alternate_brands_url", ofString (absHref alternate_brands_link));
   ("sections", JObj (sections doc));
   ("dosage",
    JArr (map (fun d => JObj [("medication_type", ofString (medication_type d));
                              ("instructions", ofStrings (instructions d))])
              (dosageOf doc)));
   ("common_questions", JArr common_questions);
   ("compound_summary", JObj (compoundOf doc));
   ("therapeutic_class", ofString therapeutic_class)].

(** [parseBrandDetail(html, pageUrl)], as the loop above takes it. *)
Definition parseBrandDetail (html : Page) : Completion (list (string * JsVal)) :=
  Return (fieldsOf html).

End RawExtractor.

End Details.

(** ** [medex_detail_fetcher_with_medicine_id.js]: the structured extractor *)

Module Structured.
Import Js Dom.

(** [normText($el)] and [cleanText($el)] (the same text): [null] for an
    empty selection and for blank text. *)
Definition normText (sel : list node) : option string :=
  match sel with
  | [] => None
  | _ => orNull (normWs (text sel))
  end.

Definition cleanText := normText.

(** [!v] for a value that is a string or [null]. *)
Definition falsy (v : option string) : bool :=
  match v with
  | Some s => negb (truthy s)
  | None => true
  end.

(** [v || null] *)
Definition nullIfFalsy (v : option string) : option string :=
  if falsy v then None else v.

(** [v || ""] *)
Definition orEmpty (v : option string) : string :=
  match v with Some s => s | None => "" end.

(** *** Pricing *)

Record Package := mkPackage {
  label : option string;
  price : option string;
  pack_size_info : option string
}.

(** [.replace(/:$/, "")] *)
Definition stripColon (s : string) : string :=
  match rev (list_ascii_of_string s) with
  | c :: r => if Ascii.eqb c ":" then string_of_list_ascii (rev r) else s
  | [] => s
  end.

(** [cleanText($(span))?.replace(/:$/, "") || null] *)
Definition labelOf (span : node) : option string :=
  match cleanText [span] with
  | Some t => orNull (stripColon t)
  | None => None
  end.

(** The entries that one [.package-container] contributes. *)
Definition packageEntriesOf (pc : node) : list Package :=
  let psiEl := head (map self (filter (fun x => hasClass "pack-size-info" (self x))
                                      (below pc))) in
  let psiText := cleanText (option_list psiEl) in
  let directSpans :=
    filter (fun c => isElem c && hasTag "span" c && negb (hasClass "pack-size-info" c))
           (children pc) in
  let own :=
    match directSpans with
    | s0 :: s1 :: _ =>
        [mkPackage (labelOf s0) (nullIfFalsy (cleanText [s1])) psiText]
    | [s0] =>
        let nestedValueSpan :=
          last (map self
                    (filter (fun x => hasTag "span" (self x)
                                      && underChain [hasTag "div"] (within pc x))
                            (below pc))) in
        [mkPackage (labelOf s0) (nullIfFalsy (cleanText (option_list nestedValueSpan)))
                   psiText]
    | [] => []
    end in
  let nested :=
    flat_map
      (fun d =>
         match map self (filter (fun x => hasTag "span" (self x)) (below d)) with
         | s0 :: s1 :: _ =>
             [mkPackage (labelOf s0) (nullIfFalsy (cleanText [s1])) None]
         | _ => []
         end)
      (filter (fun c => isElem c && hasTag "div" c) (children pc)) in
  own ++ nested.

(** [$(".packages-wrapper .package-container").each(...)] *)
Definition packageEntries (doc : Page) : list Package :=
  flat_map packageEntriesOf
           (map self
                (filter (fun x => hasClass "package-container" (self x)
                                  && underChain [hasClass "packages-wrapper"] (anc x))
                        (allOf doc))).

(** [(p.label || "") + "||" + (p.price || "")] *)
Definition pkKey (p : Package) : string :=
  orEmpty (label p) +:+ "||" +:+ orEmpty (price p).

(** The loop over [packageEntries] with the set [seenPK]. *)
Fixpoint dedupe (seenPK : gset string) (entries : list Package) : list Package :=
  match entries with
  | [] => []
  | p :: rest =>
      let key := pkKey p in
      if bool_decide (key ∈ seenPK) then dedupe seenPK rest
      else p :: dedupe ({[key]} ∪ seenPK) rest
  end.

Record Prices := mkPrices {
  unit_price : option string;
  strip_price : option string;
  size_info : option string
}.

(** One turn of [for (const p of packages)]. *)
Definition resolveStep (acc : Prices) (p : Package) : Prices :=
  let unit_price :=
    if falsy (unit_price acc) && Str.containsCI "unit price" (orEmpty (label p))
    then price p else unit_price acc in
  let strip_price :=
    if falsy (strip_price acc) && Str.containsCI "strip price" (orEmpty (label p))
    then price p else strip_price acc in
  let size_info :=
    if falsy (size_info acc) && negb (falsy (pack_size_info p))
    then pack_size_info p else size_info acc in
  mkPrices unit_price strip_price size_info.

Record Pricing := mkPricing {
  pr_unit_price : option string;
  pr_strip_price : option string;
  pr_pack_size_info : option string;
  pr_packages : list Package
}.

(** From the discovered entries to the [pricing] object. *)
Definition pricingOf (entries : list Package) : Pricing :=
  let packages := dedupe ∅ entries in
  let acc := fold_left resolveStep packages (mkPrices None None None) in
  let unit_price :=
    match packages with
    | p0 :: _ => if falsy (unit_price acc) then nullIfFalsy (price p0) else unit_price acc
    | [] => unit_price acc
    end in
  let size_info :=
    match packages with
    | p0 :: _ =>
        if falsy (size_info acc) then nullIfFalsy (pack_size_info p0) else size_info acc
    | [] => size_info acc
    end in
  mkPricing (nullIfFalsy unit_price) (nullIfFalsy (strip_price acc))
            (nullIfFalsy size_info) packages.

Definition pricing (doc : Page) : Pricing := pricingOf (packageEntries doc).

(** The resolution in the words of the specification: the first package
    whose label contains the word, in any case, and that has a price; and
    the first package that carries a pack size. *)
Definition firstPriced (word : string) (packages : list Package) : option Package :=
  head (List.filter (fun p => Str.containsCI word (orEmpty (label p))
                              && negb (falsy (price p)))
                    packages).

Definition firstSized (packages : list Package) : option Package :=
  head (List.filter (fun p => negb (falsy (pack_size_info p))) packages).

(** A text of a package that is [null], or is not empty and has no
    vertical bar in it. *)
Definition plainText (v : option string) : Prop :=
  match v with
  | None => True
  | Some s => s <> "" /\ ~ In "|"%char (list_ascii_of_string s)
  end.

Definition PlainTexts (p : Package) : Prop :=
  plainText (label p) /\ plainText (price p).

(** *** The section parser *)

Record SectionGroup := mkGroup {
  title : option string;
  information : option string;
  items : list string
}.

(** [$marker.next(".ac-body")], then [$marker.nextAll(".ac-body").first()],
    then [$("#id .ac-body").first()]: the lookup shared by the sections,
    the compound summary and the therapeutic class. *)
Definition findBody (doc : Page) (sectionId : string) : option node :=
  let acBody := hasClass "ac-body" in
  let marker := head (filter (fun x => hasId sectionId (self x)) (allOf doc)) in
  let body :=
    match marker with
    | Some m =>
        match nextElem m with
        | Some n => if acBody n then Some n else nextAllFirst acBody m
        | None => nextAllFirst acBody m
        end
    | None => None
    end in
  match body with
  | Some b => Some b
  | None =>
      head (map self
                (filter (fun x => acBody (self x) && underChain [hasId sectionId] (anc x))
                        (allOf doc)))
  end.

(** [$(list).find("li").each(...)]: the non-blank texts of the [li]
    elements below the list. *)
Definition liTexts (lst : node) : list string :=
  filter (fun t => truthy t)
         (map (fun x => normWs (textContent (self x)))
              (filter (fun x => hasTag "li" (self x)) (below lst))).

Definition isList (n : node) : bool := hasTag "ul" n || hasTag "ol" n.

(** The accumulators of the walk and the groups pushed so far. *)
Record Walk := mkWalk {
  out : list SectionGroup;
  currTitle : option string;
  currInfos : list string;
  currItems : list string
}.

(** [currInfos.join(" ")] followed by the normalisation. *)
Definition infosText (infos : list string) : string :=
  normWs (String.concat " " infos).

Definition itemsArr (items : list string) : list string :=
  filter (fun t => truthy t) (map normWs items).

Definition flushCurrent (w : Walk) : Walk :=
  let infosText := infosText (currInfos w) in
  let itemsArr := itemsArr (currItems w) in
  let out :=
    if bool_decide (currTitle w <> None) || truthy infosText
       || negb (bool_decide (itemsArr = []))
    then out w ++ [mkGroup (nullIfFalsy (currTitle w)) (orNull infosText) itemsArr]
    else out w in
  mkWalk out None [] [].

(** One turn of the loop over [$body.contents()]. *)
Definition sectionStep (w : Walk) (nd : node) : Walk :=
  match nd with
  | Text data =>
      let t := normWs data in
      if truthy t then mkWalk (out w) (currTitle w) (currInfos w ++ [t]) (currItems w)
      else w
  | Comment _ => w
  | Elem _ _ _ =>
      if negb (isTagType nd) then w
      else if hasTag "strong" nd then
        let w' := flushCurrent w in
        mkWalk (out w') (nullIfFalsy (normText [nd])) (currInfos w') (currItems w')
      else if isList nd then
        mkWalk (out w) (currTitle w) (currInfos w) (currItems w ++ liTexts nd)
      else
        let directText := normWs (textWithout isList nd) in
        let infos := if truthy directText then currInfos w ++ [directText]
                     else currInfos w in
        let lists := map self (filter (fun x => isList (self x)) (below nd)) in
        mkWalk (out w) (currTitle w) infos (currItems w ++ flat_map liTexts lists)
  end.

(** The groups of the walk over [$body.contents()], last flush included. *)
Definition walkSection (body : node) : list SectionGroup :=
  out (flushCurrent (fold_left sectionStep (children body) (mkWalk [] None [] []))).



(** The walk over a section container, with the fallback group. *)
Definition parseSectionBody (body : node) : list SectionGroup :=
  match walkSection body with
  | [] =>
      match nullIfFalsy (normText [body]) with
      | Some full => [mkGroup None (Some full) []]
      | None => []
      end
  | groups => groups
  end.

Definition parseSectionToStructuredArray (doc : Page) (sectionId : string)
  : list SectionGroup :=
  match findBody doc sectionId with
  | Some body => parseSectionBody body
  | None => []
  end.

(** *** The dosage parser *)

Module Dosage.

Record DosageGroup := mkDosage {
  medication_type : option string;
  information : option string;
  instructions : list string
}.

(** [pushGroup(groups, medType, infos, instr)]; [infos] is [None] where
    the caller passes [null]. *)
Definition pushGroup (groups : list DosageGroup) (medType : option string)
           (infos : option (list string)) (instr : list string)
  : Completion (list DosageGroup) :=
  match infos with
  | None => Throw nullLength
  | Some infos =>
      let information :=
        if bool_decide (infos = []) then None
        else Some (normWs (String.concat " " infos)) in
      let instructions := filter (fun t => truthy t) (map normWs instr) in
      Return (groups ++ [mkDosage (nullIfFalsy medType) information instructions])
  end.

Record Walk := mkWalk {
  dosageArray : list DosageGroup;
  currMed : option string;
  currInfos : list string;
  currInstr : list string
}.

(** [if (currMed !== null || currInfos.length || currInstr.length) {...}] *)
Definition flush (w : Walk) : Completion Walk :=
  if bool_decide (currMed w <> None) || negb (bool_decide (currInfos w = []))
     || negb (bool_decide (currInstr w = []))
  then andThen (pushGroup (dosageArray w) (currMed w) (Some (currInfos w)) (currInstr w))
               (fun groups => Return (mkWalk groups None [] []))
  else Return w.

(** [$li.find("> strong")] *)
Definition strongChildren (li : node) : list node :=
  filter (fun c => isElem c && hasTag "strong" c) (children li).

(** [$ul.children("li")] *)
Definition liChildren (ul : node) : list node :=
  filter (fun c => isElem c && hasTag "li" c) (children ul).

(** [liHasStrong] after the first [each] *)
Definition liHasStrong (ul : node) : bool :=
  existsb (fun li => negb (bool_decide (strongChildren li = []))) (liChildren ul).

(** The second [each]: one list item of a list with [liHasStrong]. *)
Definition dosageItem (groups : list DosageGroup) (li : node)
  : Completion (list DosageGroup) :=
  match head (strongChildren li) with
  | Some s =>
      let medType := normText [s] in
      let rest := normWs (textWithoutChildren (hasTag "strong") li) in
      let childInstr :=
        match head (map self (filter (fun x => hasTag "ul" (self x)) (below li))) with
        | Some sub => liTexts sub
        | None => []
        end in
      pushGroup groups medType (Some (if truthy rest then [rest] else [])) childInstr
  | None =>
      let t := normWs (textContent li) in
      if truthy t then pushGroup groups None None [t] else Return groups
  end.

(** The group of a list item that has a bold child, in the words of the
    specification: the bold text, the remaining text of the item, and the
    texts of the items of its first nested list. *)
Definition itemGroup (li : node) : DosageGroup :=
  let rest := normWs (textWithoutChildren (hasTag "strong") li) in
  mkDosage (nullIfFalsy (normText (option_list (head (strongChildren li)))))
           (if truthy rest then Some rest else None)
           match head (map self (filter (fun x => hasTag "ul" (self x)) (below li))) with
           | Some sub => liTexts sub
           | None => []
           end.

(** The first child of the item is a bold node. *)
Definition beginsWithStrong (li : node) : bool :=
  match children li with
  | c :: _ => hasTag "strong" c
  | [] => false
  end.

(** One turn of the loop over [$dosageBody.contents()]. *)
Definition dosageStep (w : Walk) (nd : node) : Completion Walk :=
  match nd with
  | Text data =>
      let t := normWs data in
      Return (if truthy t
              then mkWalk (dosageArray w) (currMed w) (currInfos w ++ [t]) (currInstr w)
              else w)
  | Comment _ => Return w
  | Elem _ _ _ =>
      if negb (isTagType nd) then Return w
      else if hasTag "strong" nd then
        andThen (flush w)
                (fun w' => Return (mkWalk (dosageArray w') (normText [nd])
                                          (currInfos w') (currInstr w')))
      else if hasTag "ul" nd then
        if liHasStrong nd then
          andThen (flush w)
                  (fun w' =>
                     andThen (forEach dosageItem (liChildren nd) (dosageArray w'))
                             (fun groups =>
                                Return (mkWalk groups (currMed w') (currInfos w')
                                               (currInstr w'))))
        else
          Return (mkWalk (dosageArray w) (currMed w) (currInfos w)
                         (currInstr w ++ liTexts nd))
      else
        let nested :=
          flat_map liTexts
                   (map self (filter (fun x => hasTag "ul" (self x)) (below nd))) in
        let direct := normWs (textWithoutChildren (hasTag "ul") nd) in
        Return (mkWalk (dosageArray w) (currMed w)
                       (if truthy direct then currInfos w ++ [direct] else currInfos w)
                       (currInstr w ++ nested))
  end.

(** The walk over the dosage container, with the fallback group. *)
Definition parseDosageBody (body : node) : Completion (list DosageGroup) :=
  andThen (forEach dosageStep (children body) (mkWalk [] None [] []))
          (fun w =>
             andThen (flush w)
                     (fun w' =>
                        match dosageArray w' with
                        | [] =>
                            match normText [body] with
                            | Some plain =>
                                if truthy plain then Return [mkDosage None (Some plain) []]
                                else Return []
                            | None => Return []
                            end
                        | groups => Return groups
                        end)).

(** [$("#dosage").nextAll(".ac-body").first()] *)
Definition dosageBody (doc : Page) : option node :=
  head (flat_map (fun m => filter (fun n => isElem n && hasClass "ac-body" n) (after m))
                 (filter (fun x => hasId "dosage" (self x)) (allOf doc))).

Definition parseDosage (doc : Page) : Completion (list DosageGroup) :=
  match dosageBody doc with
  | Some body => parseDosageBody body
  | None => Return []
  end.

End Dosage.

(** *** The other fields *)

(** [$(sel)] over the whole page, for a compound selector [q] under a
    descendant chain (nearest first). *)
Definition select (doc : Page) (chain : list (node -> bool)) (q : node -> bool)
  : list node :=
  map self (filter (fun x => q (self x) && underChain chain (anc x)) (allOf doc)).

(** [$(n).find(q)] *)
Definition find (q : node -> bool) (n : node) : list node :=
  map self (filter (fun x => q (self x)) (below n)).

Definition makeAbs (src : option string) : option string :=
  match src with
  | None => None
  | Some src =>
      if negb (truthy src) then None
      else if startsWith "http://" (Str.lower src) || startsWith "https://" (Str.lower src)
      then Some src
      else if startsWith "/" src then Some (ORIGIN +:+ src)
      else Some (ORIGIN +:+ "/" +:+ src)
  end.

(** [href ? (href.startsWith("http") ? href : ORIGIN + href) : null] *)
Definition absHref (href : option string) : option string :=
  match href with
  | Some h => if negb (truthy h) then None
              else if startsWith "http" h then Some h else Some (ORIGIN +:+ h)
  | None => None
  end.

Definition hasTitle (t : string) (n : node) : bool :=
  hasTag "div" n && bool_decide (attr "title" n = Some t).

Definition brandHeading (n : node) : bool :=
  hasTag "h1" n && hasClass "page-heading-1-l" n && hasClass "brand" n.

Definition subtitleSel (n : node) : bool :=
  hasTag "small" n && hasClass "h1-subtitle" n.

Definition nameOf (doc : Page) : option string :=
  match nullIfFalsy (normText (option_list (head (select doc [] brandHeading)))) with
  | Some name =>
      match nullIfFalsy (normText (select doc [brandHeading] subtitleSel)) with
      | Some subtitle => Some (trim (Str.removeFirst subtitle name))
      | None => Some name
      end
  | None => normText (option_list (head (select doc [] (hasClass "brand"))))
  end.

Definition dosageFormOf (doc : Page) : option string :=
  normText (option_list (head (select doc [brandHeading] subtitleSel))).

Definition genericOf (doc : Page) : option string :=
  orElse (normText (option_list (head (select doc [hasTitle "Generic Name"] (hasTag "a")))))
         (normText (option_list (head (select doc [] (hasTitle "Generic Name"))))).

Definition strengthOf (doc : Page) : option string :=
  nullIfFalsy (normText (option_list (head (select doc [] (hasTitle "Strength"))))).

Definition companyOf (doc : Page) : option string :=
  let company :=
    normText (option_list (head (select doc [hasTitle "Manufactured by"] (hasTag "a")))) in
  if falsy company then
    match head (select doc [] (hasTitle "Manufactured by")) with
    | Some manuDiv =>
        match head (find (hasTag "a") manuDiv) with
        | Some anchor => normText [anchor]
        | None =>
            orNull (trim (Str.nbspToSpace (textWithoutChildren (fun _ => true) manuDiv)))
        end
    | None => company
    end
  else company.

(** [img.attr("src") || img.attr("data-src") || img.attr("data-lazy") || null] *)
Definition imgSrc (img : node) : option string :=
  nullIfFalsy (orElse (attr "src" img) (orElse (attr "data-src" img) (attr "data-lazy" img))).

Definition packImageOf (doc : Page) : option string :=
  let mpImg :=
    head (map self
              (filter (fun x => (hasTag "img" (self x)
                                 && underChain [hasClass "mp-trigger"] (anc x))
                                || hasClass "img-defer" (self x))
                      (allOf doc))) in
  match mpImg with
  | Some img => match imgSrc img with Some src => makeAbs (Some src) | None => None end
  | None => None
  end.

Record Flag := mkFlag { fl_label : option string; note : option string }.

Definition flagsOf (doc : Page) : list Flag :=
  map (fun el =>
         let divs := filter (fun c => isElem c && hasTag "div" c) (children el) in
         mkFlag (normText (option_list (divs !! 0%nat)))
                (normText (option_list (divs !! 1%nat))))
      (select doc [] (hasClass "sp-flag")).

Record Sibling := mkSibling { sb_text : option string; sb_href : option string }.

Definition alsoAvailableOf (doc : Page) : list Sibling :=
  map (fun a => mkSibling (normText [a]) (absHref (attr "href" a)))
      (select doc [] (hasClass "btn-sibling-brands")).

(** [$("a.btn-teal.prsinf-btn[href*='/brand-names']").attr("href")] made
    absolute. *)
Definition alternateBrandsUrlOf (doc : Page) : option string :=
  let alternate_brands_link :=
    head (select doc []
                 (fun n => hasTag "a" n && hasClass "btn-teal" n && hasClass "prsinf-btn" n
                           && match attr "href" n with
                              | Some h => Str.contains "/brand-names" h
                              | None => false
                              end))
    ≫= attr "href" in
  absHref alternate_brands_link.

(** [extractAnswerArray($container)] *)
Definition answerPart (nd : node) : list string :=
  match nd with
  | Text data => let t := normWs data in if truthy t then [t] else []
  | Comment _ => []
  | Elem _ _ _ =>
      if negb (isTagType nd) then []
      else if isList nd then liTexts nd
      else
        let textPart := normWs (textWithout isList nd) in
        (if truthy textPart then [textPart] else [])
          ++ flat_map liTexts (find isList nd)
  end.

Definition extractAnswerArray (container : option node) : list string :=
  match container with
  | None => []
  | Some c => filter (fun t => truthy t) (map trim (flat_map answerPart (children c)))
  end.

Record Question := mkQuestion { question : option string; answer : list string }.

(** The body of both [each] callbacks over the [.caq] elements. *)
Definition questionOf (el : node) : option Question :=
  let q := orElse (normText (option_list (head (find (hasClass "caq-q") el))))
                  (normText (option_list (head (find (hasTag "h4") el)))) in
  let ansEl := head (find (hasClass "caq-a") el) in
  let arr := extractAnswerArray ansEl in
  let arr :=
    match arr, ansEl with
    | [], Some a =>
        match nullIfFalsy (normText [a]) with
        | Some fallback => [fallback]
        | None => arr
        end
    | _, _ => arr
    end in
  if negb (falsy q) || negb (bool_decide (arr = []))
  then Some (mkQuestion q arr) else None.

Definition commonQuestionsOf (doc : Page) : list Question :=
  let inBlock :=
    match head (select doc [] (hasId "commonly_asked_questions")) with
    | Some commBlock => omap questionOf (find (hasClass "caq") commBlock)
    | None => []
    end in
  match inBlock with
  | [] => omap questionOf (select doc [] (hasClass "caq"))
  | _ => inBlock
  end.

(** *** Compound summary and therapeutic class *)

Record Compound := mkCompound {
  molecular_formula : option string;
  chemical_structure : option string
}.

(** The image of a cell, made absolute, when it has a source. *)
Definition structureOf (valTd : node) (cs : option string) : option string :=
  match head (find (hasTag "img") valTd) with
  | Some img =>
      match imgSrc img with
      | Some src => makeAbs (Some src)
      | None => cs
      end
  | None =>
      let csText := normWs (textContent valTd) in
      if truthy csText then Some csText else cs
  end.

(** The callback of [$table.find("tr").each(...)]. *)
Definition compoundRow (c : Compound) (tr : node) : Compound :=
  match find (hasTag "td") tr with
  | td0 :: valTd :: _ =>
      let rawKey := Str.lower (trim (Str.stripTrailing (textContent td0))) in
      let mfText := normWs (textContent valTd) in
      if Str.containsSpacedCI "molecular" "formula" rawKey then
        mkCompound (if truthy mfText then Some mfText else molecular_formula c)
                   (chemical_structure c)
      else if Str.containsSpacedCI "chemical" "structure" rawKey
              || Str.containsCI "structure" rawKey then
        mkCompound (molecular_formula c) (structureOf valTd (chemical_structure c))
      else
        let mf :=
          if Str.containsCI "molecular" rawKey && Str.containsCI "formula" rawKey
             && falsy (molecular_formula c) && truthy mfText
          then Some mfText else molecular_formula c in
        let cs :=
          if Str.containsCI "structure" rawKey && falsy (chemical_structure c)
          then structureOf valTd (chemical_structure c) else chemical_structure c in
        mkCompound mf cs
  | _ => c
  end.

Section Extractor.
(** [bodyText.match(/Molecular\s*Formula\s*[:\-]?\s*([A-Za-z0-9\-\+\(\)\/·\s]+)/i)]:
    the first capture of the regular-expression engine, when there is a
    match. *)
Variable matchFormula : string -> option string.

Definition compoundOf (doc : Page) : Compound :=
  let c0 := mkCompound None None in
  let c :=
    match findBody doc "compound_summary" with
    | None => c0
    | Some compBody =>
        let c1 :=
          match head (find (hasTag "table") compBody) with
          | Some table => fold_left compoundRow (find (hasTag "tr") table) c0
          | None => c0
          end in
        if falsy (molecular_formula c1) || falsy (chemical_structure c1) then
          let bodyText := normWs (textContent compBody) in
          let mf :=
            if falsy (molecular_formula c1) then
              match matchFormula bodyText with
              | Some g => if truthy g then Some (trim g) else molecular_formula c1
              | None => molecular_formula c1
              end
            else molecular_formula c1 in
          let cs :=
            if falsy (chemical_structure c1) then
              match head (find (hasTag "img") compBody) with
              | Some img =>
                  match imgSrc img with
                  | Some src => makeAbs (Some src)
                  | None => chemical_structure c1
                  end
              | None => chemical_structure c1
              end
            else chemical_structure c1 in
          mkCompound mf cs
        else c1
    end in
  mkCompound (nullIfFalsy (molecular_formula c)) (nullIfFalsy (chemical_structure c)).

Definition therapeuticClassOf (doc : Page) : option string :=
  match findBody doc "drug_classes" with
  | Some drugBody => nullIfFalsy (normText [drugBody])
  | None =>
      match head (filter (fun x => hasId "drug_classes" (self x)) (allOf doc)) with
      | Some drugMarker => nullIfFalsy (normText (option_list (nextElem drugMarker)))
      | None => None
      end
  end.

(** *** The result object *)

Import Json.

Definition groupJs (g : SectionGroup) : JsVal :=
  JObj [("title", ofString (title g)); ("information", ofString (information g));
        ("items", ofStrings (items g))].

Definition dosageJs (g : Dosage.DosageGroup) : JsVal :=
  JObj [("medication_type", ofString (Dosage.medication_type g));
        ("information", ofString (Dosage.information g));
        ("instructions", ofStrings (Dosage.instructions g))].

Definition packageJs (p : Package) : JsVal :=
  JObj [("label", ofString (label p)); ("price", ofString (price p));
        ("pack_size_info", ofString (pack_size_info p))].

Definition pricingJs (p : Pricing) : JsVal :=
  JObj [("unit_price", ofString (pr_unit_price p));
        ("strip_price", ofString (pr_strip_price p));
        ("pack_size_info", ofString (pr_pack_size_info p));
        ("packages", JArr (map packageJs (pr_packages p)))].


(** [promoted[sid]] *)
Definition promoted (doc : Page) (sid : string) : JsVal :=
  JArr (map groupJs (parseSectionToStructuredArray doc sid)).

Definition parseBrandDetail (html : Page) (pageUrl : option string) (now : string)
  : Completion JsVal :=
  andThen (Dosage.parseDosage html) (fun dosageArray =>
  let compound := compoundOf html in
  Return (JObj [
    ("source_url", ofString pageUrl);
    ("name", ofString (nullIfFalsy (nameOf html)));
    ("dosage_form", ofString (nullIfFalsy (dosageFormOf html)));
    ("generic", ofString (nullIfFalsy (genericOf html)));
    ("strength", ofString (nullIfFalsy (strengthOf html)));
    ("company", ofString (nullIfFalsy (companyOf html)));
    ("pack_image", ofString (nullIfFalsy (packImageOf html)));
    ("pricing", pricingJs (pricing html));
    ("flags", JArr (map (fun f => JObj [("label", ofString (fl_label f));
                                        ("note", ofString (note f))])
                        (flagsOf html)));
    ("also_available",
     JArr (map (fun a => JObj [("text", ofString (sb_text a));
                               ("href", ofString (sb_href a))])
               (alsoAvailableOf html)));
    ("alternate_brands_url", ofString (alternateBrandsUrlOf html));
    ("indications", promoted html "indications");
    ("mode_of_action", promoted html "mode_of_action");
    ("interaction", promoted html "interaction");
    ("contraindications", promoted html "contraindications");
    ("side_effects", promoted html "side_effects");
    ("pregnancy_cat", promoted html "pregnancy_cat");
    ("precautions", promoted html "precautions");
    ("pediatric_uses", promoted html "pediatric_uses");
    ("overdose_effects", promoted html "overdose_effects");
    ("storage_conditions", promoted html "storage_conditions");
    ("description", promoted html "description");
    ("administration", promoted html "administration");
    ("compound_summary",
     JObj [("molecular_formula", ofString (molecular_formula compound));
           ("chemical_structure", ofString (chemical_structure compound))]);
    ("therapeutic_class", ofString (nullIfFalsy (therapeuticClassOf html)));
    ("dosage", JArr (map dosageJs dosageArray));
    ("common_questions",
     JArr (map (fun q => JObj [("question", ofString (question q));
                               ("answer", ofStrings (answer q))])
               (commonQuestionsOf html)));
    ("fetched_at", JStr now)])).






End Extractor.

End Structured.

(** ** Sample environments *)

(** A server that rejects every request, and a disk that accepts every
    write; the first pending call always goes on. *)
Definition failingEnv : Split.Env :=
  Split.mkEnv (fun _ _ => Split.Rejected (Js.mkError "timeout of 20000ms exceeded"
                                                     "AxiosError: timeout of 20000ms exceeded"))
              (fun _ _ _ => None)
              (fun _ _ => 0%nat).

(** A listing page with one entry, named after the address it was asked
    at. *)
Definition listingPage (url : string) : Dom.Page :=
  [Dom.Elem "div" [("class", "container")]
     [Dom.Elem "a" [("class", "hoverable-block"); ("href", "/brands/1/napa")]
        [Dom.Elem "div" [("class", "row data-row")]
           [Dom.Elem "div" [("class", "col-xs-12 data-row-top")] [Dom.Text url];
            Dom.Elem "div" [("class", "col-xs-12 data-row-strength")]
              [Dom.Elem "span" [("class", "grey-ligten")] [Dom.Text "500 mg"]];
            Dom.Elem "div" [("class", "col-xs-12")] [Dom.Text "Paracetamol"];
            Dom.Elem "div" [("class", "col-xs-12")]
              [Dom.Elem "span" [("class", "data-row-company")]
                 [Dom.Text "Beximco Pharmaceuticals Ltd."]]]]]].

(** A server that rejects every request for pages 2 and 4 and answers the
    others; the pending calls go on in an order that changes with the
    length of the history. *)
Definition flakyEnv : Split.Env :=
  Split.mkEnv (fun _ url =>
                 if String.eqb url (Split.pageUrl 2) || String.eqb url (Split.pageUrl 4)
                 then Split.Rejected (Js.mkError "Request failed with status code 503"
                                                 "AxiosError: Request failed with status code 503")
                 else Split.Response (listingPage url) None)
              (fun _ _ _ => None)
              (fun h _ => length h).

(** A server that answers every request with an empty document and reports
    that it was redirected to one fixed address; the disk takes every
    write. *)
Definition redirectEnv : Details.Env :=
  Details.mkEnv
    (fun _ _ => Details.Response [] (Some "https://medex.com.bd/brands/1/napa-500-mg-tablet"))
    (fun _ => None)
    (fun _ => "2024-01-01T00:00:00.000Z").

(** A server that rejects every request. *)
Definition downEnv : Details.Env :=
  Details.mkEnv
    (fun _ _ => Details.Rejected (Js.mkError "connect ECONNREFUSED"
                                             "Error: connect ECONNREFUSED"))
    (fun _ => None)
    (fun _ => "2024-01-01T00:00:00.000Z").

(** The patterns of the raw extractor on a text without prices. *)
Definition noMatch (s : string) : option (string * string) := None.

Definition rawParse : Dom.Page -> Js.Completion Details.Fields :=
  Details.parseBrandDetail noMatch noMatch noMatch.

Definition brandItem : Details.Item :=
  Details.mkItem (Some "/brands/1") None None None.

Definition itemWithoutUrl : Details.Item :=
  Details.mkItem None None None None.

(** An item whose address is followed by a space. *)
Definition paddedItem : Details.Item :=
  Details.mkItem (Some "/brands/1 ") None None None.

(** A server that answers every request with an empty document and reports
    no final address. *)
Definition plainEnv : Details.Env :=
  Details.mkEnv
    (fun _ _ => Details.Response [] None)
    (fun _ => None)
    (fun _ => "2024-01-01T00:00:00.000Z").

(** A MedEx listing whose row is itself the strength cell. *)
Definition rowWithStrength : Dom.Page :=
  [Dom.Elem "a" [("class", "hoverable-block"); ("href", "/brands/2/ace")]
     [Dom.Elem "div" [("class", "data-row data-row-strength")]
        [Dom.Elem "div" [("class", "data-row-top")] [Dom.Text "Ace"];
         Dom.Elem "span" [("class", "grey-ligten")] [Dom.Text "5 mg"]]]].

(** A MedEx listing whose only entry has a name and no [href]. *)
Definition listingWithoutHref : Dom.Page :=
  [Dom.Elem "a" [("class", "hoverable-block")]
     [Dom.Elem "div" [("class", "data-row")]
        [Dom.Elem "div" [("class", "data-row-top")] [Dom.Text "Napa"]]]].

(** A Bissoy listing with one complete entry and one without a link. *)
Definition bissoyListing : Dom.Page :=
  [Dom.Elem "ul" [("class", "space-y-6")]
     [Dom.Elem "li" []
        [Dom.Elem "h3" [("class", "text-xl font-bold")]
           [Dom.Elem "a" [("href", "/medicine/1/napa")] [Dom.Text "Napa | Napa-bn"]];
         Dom.Elem "div" []
           [Dom.Elem "p" [] [Dom.Text "500 mg"]; Dom.Elem "p" [] [Dom.Text "Paracetamol"]]];
      Dom.Elem "li" []
        [Dom.Elem "h3" [("class", "text-xl font-bold")]
           [Dom.Elem "a" [("href", "/other/2")] [Dom.Text "Ace"]]]]].


(** A dosage list whose only item has a bold node in the middle of its
    text. *)
Definition boldInsideList : Dom.node :=
  Dom.Elem "ul" []
           [Dom.Elem "li" []
                     [Dom.Text "Take "; Dom.Elem "strong" [] [Dom.Text "two"];
                      Dom.Text " daily"]].

(** A dosage list with one item per medication type. *)
Definition perTypeList : Dom.node :=
  Dom.Elem "ul" []
           [Dom.Elem "li" []
                     [Dom.Elem "strong" [] [Dom.Text "Tablet:"]; Dom.Text " 1 daily";
                      Dom.Elem "ul" [] [Dom.Elem "li" [] [Dom.Text "with food"]]];
            Dom.Elem "li" [] [Dom.Elem "strong" [] [Dom.Text "Syrup"]; Dom.Text " 5 ml"]].

(** A plain dosage list. *)
Definition plainList : Dom.node :=
  Dom.Elem "ul" [] [Dom.Elem "li" [] [Dom.Text "after meals"];
                    Dom.Elem "li" [] [Dom.Text "twice daily"]].

(** The accumulators at the start of the dosage walk. *)
Definition dosageStart : Structured.Dosage.Walk :=
  Structured.Dosage.mkWalk [] None [] [].

(** A dosage list in which only the first item has a bold child. *)
Definition mixedList : Dom.node :=
  Dom.Elem "ul" []
           [Dom.Elem "li" [] [Dom.Elem "strong" [] [Dom.Text "Adult"]; Dom.Text " 1 tablet"];
            Dom.Elem "li" [] [Dom.Text "not for children"]].

(** A page whose only package has a label and an empty price. *)
Definition priceless : Dom.Page :=
  [Dom.Elem "div" [("class", "packages-wrapper")]
     [Dom.Elem "div" [("class", "package-container")]
        [Dom.Elem "span" [] [Dom.Text "Unit Price:"];
         Dom.Elem "span" [] []]]].

(** A page whose only package has a label and no second text: the label
    is found again by [find("div span")], the container being a [div]. *)
Definition labelOnly : Dom.Page :=
  [Dom.Elem "div" [("class", "packages-wrapper")]
     [Dom.Elem "div" [("class", "package-container")]
        [Dom.Elem "span" [] [Dom.Text "Unit Price:"]]]].

(** A page with two packages that differ in label and in price and whose
    label and price, joined by two bars, give the same text. *)
Definition barred : Dom.Page :=
  [Dom.Elem "div" [("class", "packages-wrapper")]
     [Dom.Elem "div" [("class", "package-container")]
        [Dom.Elem "span" [] [Dom.Text "Pack||"];
         Dom.Elem "span" [] [Dom.Text "10"]];
      Dom.Elem "div" [("class", "package-container")]
        [Dom.Elem "span" [] [Dom.Text "Pack"];
         Dom.Elem "span" [] [Dom.Text "||10"]]]].

(** A page with a unit price, a pack size and a nested strip price. *)
Definition priced : Dom.Page :=
  [Dom.Elem "div" [("class", "packages-wrapper")]
     [Dom.Elem "div" [("class", "package-container")]
        [Dom.Elem "span" [] [Dom.Text "Unit Price:"];
         Dom.Elem "span" [] [Dom.Text "1.20"];
         Dom.Elem "span" [("class", "pack-size-info")] [Dom.Text "(10 x 10: 120.00)"];
         Dom.Elem "div" []
           [Dom.Elem "span" [] [Dom.Text "Strip Price:"];
            Dom.Elem "span" [] [Dom.Text "12.00"]]]]].

(** ** Further notions used by the properties below *)

(** [k] rejected attempts at [url] as they stand in a trace (newest first):
    each request is followed by its wait. *)
Definition rejectedAttempts (url : string) (k : nat) : list Split.Event :=
  concat (replicate k [Split.EvSleep Split.RETRY_DELAY_MS; Split.EvGet url]).

(** Every batch of the index space has its file, and the file is not
    empty. *)
Definition AllBatchesSaved (maxPages batchSize : Z) (w : Split.World) : Prop :=
  forall k, 0 <= k -> 1 + k * batchSize <= maxPages ->
            Split.fileExistsNonEmpty (1 + k * batchSize)
                                     (Z.min (1 + k * batchSize + batchSize - 1) maxPages)
                                     w = true.

(** A disk that is full, and a server that answers every request. *)
Definition diskFull : Js.Error :=
  Js.mkError "ENOSPC: no space left on device, write"
             "Error: ENOSPC: no space left on device, write".

Definition fullDiskEnv : Split.Env :=
  Split.mkEnv (fun _ url => Split.Response (listingPage url) None)
              (fun _ _ _ => Some diskFull)
              (fun _ _ => 0%nat).

(** A text that is not empty and has no white space around it; a field
    that is [null] or such a text. *)
Definition Trimmed (s : string) : Prop := Js.truthy s = true /\ Js.trim s = s.

Definition NullOrTrimmed (v : option string) : Prop :=
  match v with Some s => Trimmed s | None => True end.

(** The addresses requested in a trace of the detail fetcher and the
    pauses of the trace, newest first; the write attempts. *)
Definition requestedUrls (tr : list Details.Event) : list (option string) :=
  omap (fun e => match e with Details.EvGet u => Some u | _ => None end) tr.

Definition pauses (tr : list Details.Event) : list Z :=
  omap (fun e => match e with Details.EvSleep ms => Some ms | _ => None end) tr.

Definition isWrite (e : Details.Event) : bool :=
  match e with Details.EvWrite _ => true | _ => false end.

(** A list item that makes the dosage walk throw: it has no bold child
    and its text is not blank.  A mixed list: a [ul] that has an item with
    a bold child and such a plain item. *)
Definition plainItem (li : Dom.node) : bool :=
  bool_decide (Structured.Dosage.strongChildren li = [])
  && Js.truthy (Js.normWs (Dom.textContent li)).

Definition isMixedList (nd : Dom.node) : bool :=
  Dom.hasTag "ul" nd && Structured.Dosage.liHasStrong nd
  && existsb plainItem (Structured.Dosage.liChildren nd).

(** The dosage container of the page has a mixed list among its children. *)
Definition hasMixedList (doc : Dom.Page) : bool :=
  match Structured.Dosage.dosageBody doc with
  | Some body => existsb isMixedList (Dom.children body)
  | None => false
  end.

(** A child of a section container that starts a new group, and the
    list-item texts that a child contributes to the group in hand. *)
Definition isHeading (nd : Dom.node) : bool :=
  Dom.isTagType nd && Dom.hasTag "strong" nd.

Definition sectionItems (nd : Dom.node) : list string :=
  if negb (Dom.isTagType nd) || Dom.hasTag "strong" nd then []
  else if Structured.isList nd then Structured.liTexts nd
  else flat_map Structured.liTexts
                (map Dom.self (filter (fun x => Structured.isList (Dom.self x))
                                      (Dom.below nd))).

(** Texts that are not blank and are their own normal form. *)
Definition normalized (l : list string) : Prop :=
  Forall (fun t => Js.truthy t = true /\ Js.normWs t = t) l.


(** [/^https?:\/\//i.test(u)] *)
Definition isAbsolute (u : string) : bool :=
  Js.startsWith "http://" (Str.lower u) || Js.startsWith "https://" (Str.lower u).

(** A group whose texts are [null] or not empty and without white space
    around them. *)
Definition GroupOk (g : Structured.SectionGroup) : Prop :=
  NullOrTrimmed (Structured.title g) /\ NullOrTrimmed (Structured.information g)
  /\ Forall Trimmed (Structured.items g).

(** The number of records in the writes of a trace of the scheduler. *)
Definition recordsWritten (tr : list Split.Event) : Z :=
  fold_right (fun e n => match e with
                         | Split.EvWrite _ _ items => Z.of_nat (length items) + n
                         | _ => n
                         end) 0 tr.

(** A dosage group whose texts are [null] or not empty and without white
    space around them. *)
Definition DosageOk (g : Structured.Dosage.DosageGroup) : Prop :=
  NullOrTrimmed (Structured.Dosage.medication_type g)
  /\ NullOrTrimmed (Structured.Dosage.information g)
  /\ Forall Trimmed (Structured.Dosage.instructions g).

(** What the dosage walk keeps true of its accumulators. *)
Definition DosageWalkOk (w : Structured.Dosage.Walk) : Prop :=
  Forall DosageOk (Structured.Dosage.dosageArray w)
  /\ NullOrTrimmed (Structured.Dosage.currMed w)
  /\ normalized (Structured.Dosage.currInfos w)
  /\ normalized (Structured.Dosage.currInstr w).

(** A page with a dosage section: a heading, a sentence and a list. *)
Definition dosagePage : Dom.Page :=
  [Dom.Elem "div" [("id", "dosage")] [];
   Dom.Elem "div" [("class", "ac-body")]
     [Dom.Elem "strong" [] [Dom.Text "Adult"];
      Dom.Text " 1-2 tablets   every 4 hours ";
      Dom.Elem "ul" [] [Dom.Elem "li" [] [Dom.Text "not more than 8 tablets daily"]]]].

(** A page with one question and its answer. *)
Definition faqPage : Dom.Page :=
  [Dom.Elem "div" [("id", "commonly_asked_questions")]
     [Dom.Elem "div" [("class", "caq")]
        [Dom.Elem "h4" [("class", "caq-q")] [Dom.Text "What is Napa?"];
         Dom.Elem "div" [("class", "caq-a")] [Dom.Text " A pain reliever. "]]]].

(** A page with one section: a heading, a sentence and a list. *)
Definition sectionPage : Dom.Page :=
  [Dom.Elem "div" [("id", "indications")] [];
   Dom.Elem "div" [("class", "ac-body")]
     [Dom.Elem "strong" [] [Dom.Text "Uses"];
      Dom.Text " Fever and   pain ";
      Dom.Elem "ul" [] [Dom.Elem "li" [] [Dom.Text " headache "];
                        Dom.Elem "li" [] [Dom.Text "toothache"]]]].

(** A page with a pack image, a sibling brand and the link to the
    alternate brands, all with relative addresses. *)
Definition linksPage : Dom.Page :=
  [Dom.Elem "div" [("class", "mp-trigger")]
     [Dom.Elem "img" [("src", "/storage/napa.jpg")] []];
   Dom.Elem "a" [("class", "btn-sibling-brands"); ("href", "/brands/2/napa-syrup")]
     [Dom.Text "Syrup"];
   Dom.Elem "a" [("class", "btn-teal prsinf-btn"); ("href", "/generics/4/brand-names")]
     [Dom.Text "Alternate brands"]].

(** A child of the dosage container at which the group in hand is closed:
    a bold element, or a [ul] that has an item with a bold child. *)
Definition startsGroup (nd : Dom.node) : bool :=
  Dom.hasTag "strong" nd || (Dom.hasTag "ul" nd && Structured.Dosage.liHasStrong nd).

(** What any other child adds to the prose and to the instructions of the
    group in hand. *)
Definition infosOf (nd : Dom.node) : list string :=
  match nd with
  | Dom.Text data => if Js.truthy (Js.normWs data) then [Js.normWs data] else []
  | Dom.Comment _ => []
  | Dom.Elem _ _ _ =>
      if negb (Dom.isTagType nd) || Dom.hasTag "strong" nd || Dom.hasTag "ul" nd then []
      else
        let direct := Js.normWs (Dom.textWithoutChildren (Dom.hasTag "ul") nd) in
        if Js.truthy direct then [direct] else []
  end.

Definition instrOf (nd : Dom.node) : list string :=
  if negb (Dom.isTagType nd) || Dom.hasTag "strong" nd then []
  else if Dom.hasTag "ul" nd then Structured.liTexts nd
  else flat_map Structured.liTexts
                (map Dom.self (filter (fun x => Dom.hasTag "ul" (Dom.self x)) (Dom.below nd))).

(** The children up to the next one that closes the group in hand, and
    the children from that one on. *)
Fixpoint untilGroup (l : list Dom.node) : list Dom.node :=
  match l with
  | [] => []
  | nd :: l' => if startsGroup nd then [] else nd :: untilGroup l'
  end.

Fixpoint fromGroup (l : list Dom.node) : list Dom.node :=
  match l with
  | [] => []
  | nd :: l' => if startsGroup nd then l else fromGroup l'
  end.

(** [infos.length ? infos.join(" ").replace(/\s+/g, " ").trim() : null] *)
Definition infoText (infos : list string) : option string :=
  if bool_decide (infos = []) then None
  else Some (Js.normWs (String.concat " " infos)).

(** The groups of the walk from [w] over [nodes], last flush included;
    and those of a walk that starts with nothing in hand. *)
Definition groupsFrom (w : Structured.Dosage.Walk) (nodes : list Dom.node)
  : Js.Completion (list Structured.Dosage.DosageGroup) :=
  Js.andThen (Js.forEach Structured.Dosage.dosageStep nodes w)
             (fun w1 => Js.andThen (Structured.Dosage.flush w1)
                                   (fun w2 => Js.Return (Structured.Dosage.dosageArray w2))).

Definition walked (nodes : list Dom.node)
  : Js.Completion (list Structured.Dosage.DosageGroup) :=
  groupsFrom (Structured.Dosage.mkWalk [] None [] []) nodes.

(** The walk [w] with the groups [G] pushed before its own. *)
Definition prefixed (G : list Structured.Dosage.DosageGroup) (w : Structured.Dosage.Walk)
  : Structured.Dosage.Walk :=
  Structured.Dosage.mkWalk (G ++ Structured.Dosage.dosageArray w)
                           (Structured.Dosage.currMed w)
                           (Structured.Dosage.currInfos w)
                           (Structured.Dosage.currInstr w).

(** A page whose dosage holds a sentence, a list with one item per
    medication type, and a closing note. *)
Definition perTypePage : Dom.Page :=
  [Dom.Elem "div" [("id", "dosage")] [];
   Dom.Elem "div" [("class", "ac-body")]
     [Dom.Text "Usual dose: ";
      perTypeList;
      Dom.Elem "p" [] [Dom.Text "Or as directed."]]].

(** A page whose dosage holds a heading, a plain list, a note, and a
    second heading with its sentence. *)
Definition plainListPage : Dom.Page :=
  [Dom.Elem "div" [("id", "dosage")] [];
   Dom.Elem "div" [("class", "ac-body")]
     [Dom.Elem "strong" [] [Dom.Text "Adult"];
      plainList;
      Dom.Elem "p" [] [Dom.Text "Swallow whole."];
      Dom.Elem "strong" [] [Dom.Text "Child"];
      Dom.Text " half a tablet"]].

(** A page whose dosage holds the list with a bold node inside its item. *)
Definition boldInsidePage : Dom.Page :=
  [Dom.Elem "div" [("id", "dosage")] [];
   Dom.Elem "div" [("class", "ac-body")] [boldInsideList]].

(** A page whose dosage holds the per-type list inside a [div]. *)
Definition nestedListPage : Dom.Page :=
  [Dom.Elem "div" [("id", "dosage")] [];
   Dom.Elem "div" [("class", "ac-body")] [Dom.Elem "div" [] [perTypeList]]].

(** A page whose dosage holds the per-type list and then a list that
    mixes items with and without a bold child. *)
Definition throwingPage : Dom.Page :=
  [Dom.Elem "div" [("id", "dosage")] [];
   Dom.Elem "div" [("class", "ac-body")] [perTypeList; mixedList]].

(** The markup that [q] selects is missing from the page, or from below
    an element. *)
Definition Lacks (doc : Dom.Page) (q : Dom.node -> bool) : Prop :=
  Forall (fun x => q (Dom.self x) = false) (Dom.allOf doc).

Definition LacksBelow (n : Dom.node) (q : Dom.node -> bool) : Prop :=
  Forall (fun x => q (Dom.self x) = false) (Dom.below n).

(** The ancestors of a located node are those given at the start or
    elements that are located themselves. *)
Definition AncLocated (up : list Dom.node) (l : list Dom.Loc) : Prop :=
  forall x a, In x l -> In a (Dom.anc x) ->
              In a up \/ exists y, In y l /\ Dom.self y = a /\ Dom.isElem a = true.





(** * Properties *)

(** ** [normalizeUrl] *)

Lemma startsWith_http_ORIGIN (u : string) : Js.startsWith "http" (ORIGIN +:+ u) = true.
Proof. reflexivity. Qed.

Lemma truthy_ORIGIN (u : string) : Js.truthy (ORIGIN +:+ u) = true.
Proof. reflexivity. Qed.

Lemma normalizeUrl_twice (u : string) :
  normalizeUrl (normalizeUrl u) = normalizeUrl u.
Proof.
  assert (Habs : forall v, normalizeUrl (ORIGIN +:+ v) = ORIGIN +:+ v).
  { intros v. unfold normalizeUrl.
    now rewrite truthy_ORIGIN, startsWith_http_ORIGIN. }
  destruct (Js.truthy u) eqn:Ht.
  - destruct (Js.startsWith "http" u) eqn:Hh.
    + assert (E : normalizeUrl u = u)
        by (unfold normalizeUrl; now rewrite Ht, Hh).
      now rewrite !E.
    + destruct (Js.startsWith "/" u) eqn:Hs.
      * assert (E : normalizeUrl u = ORIGIN +:+ u)
          by (unfold normalizeUrl; now rewrite Ht, Hh, Hs).
        rewrite E. apply Habs.
      * assert (E : normalizeUrl u = ORIGIN +:+ "/" +:+ u)
          by (unfold normalizeUrl; now rewrite Ht, Hh, Hs).
        rewrite E. apply Habs.
  - assert (E : normalizeUrl u = u)
      by (unfold normalizeUrl; now rewrite Ht).
    now rewrite !E.
Qed.

(** C9.  [normalizeUrl] is idempotent, and it returns unchanged every
    string that already starts with "http". *)
Theorem normalizeUrl_idempotent (u : string) :
  normalizeUrl (normalizeUrl u) = normalizeUrl u
  /\ (Js.startsWith "http" u = true -> normalizeUrl u = u).
Proof.
  split.
  - apply normalizeUrl_twice.
  - intros Hh. unfold normalizeUrl. rewrite Hh.
    now destruct (negb (Js.truthy u)).
Qed.

Lemma normalizeUrl_idempotent_witness :
  Js.startsWith "http" "https://medex.com.bd/brands/1" = true
  /\ normalizeUrl (normalizeUrl "https://medex.com.bd/brands/1")
     = normalizeUrl "https://medex.com.bd/brands/1"
  /\ normalizeUrl "https://medex.com.bd/brands/1" = "https://medex.com.bd/brands/1".
Proof.
  destruct (normalizeUrl_idempotent "https://medex.com.bd/brands/1") as [Htwice Hsame].
  split; [reflexivity|]. split; [exact Htwice|].
  apply Hsame. reflexivity.
Defined.


(** ** The fetch-retry unit *)

Section FetchRetry.
Import Js Split.
Variable env : Env.

Lemma fetchPageRaw_trace page w :
  trace (snd (fetchPageRaw env page w)) = EvGet (pageUrl page) :: trace w.
Proof. unfold fetchPageRaw. now destruct (http env (trace w) (pageUrl page)). Qed.

Lemma fetchPageRaw_files page w :
  files (snd (fetchPageRaw env page w)) = files w.
Proof. unfold fetchPageRaw. now destruct (http env (trace w) (pageUrl page)). Qed.

Lemma fetchPageRaw_throw page w e w1 :
  fetchPageRaw env page w = (Throw e, w1) ->
  http env (trace w) (pageUrl page) = Rejected e.
Proof.
  unfold fetchPageRaw.
  destruct (http env (trace w) (pageUrl page)); intros H; now inversion H.
Qed.

Lemma retryLoop_spec page maxRetries :
  forall fuel attempt lastErr w,
    (Z.to_nat (maxRetries - attempt) < fuel)%nat ->
    exists r new w',
      retryLoop fuel env page maxRetries attempt lastErr w = Some (Return r, w')
      /\ trace w' = new ++ trace w
      /\ files w' = files w
      /\ (requests new <= Z.to_nat (maxRetries - attempt))%nat
      /\ requestsFor (pageUrl page) new = requests new
      /\ Stopped env page lastErr w r new
      /\ (attempt < maxRetries -> new <> [])
      /\ (forall p msg, r = Failure p msg ->
          requests new = Z.to_nat (maxRetries - attempt)).
Proof.
  induction fuel as [|fuel IH]; intros attempt lastErr w Hfuel; [lia|].
  cbn [retryLoop].
  destruct (attempt <? maxRetries) eqn:Hlt.
  - apply Z.ltb_lt in Hlt.
    destruct (fetchPageRaw env page w) as [[[html finalUrl]|err] w1] eqn:Hf.
    + exists (Success page html finalUrl), [EvGet (pageUrl page)], w1.
      pose proof (fetchPageRaw_trace page w) as Ht.
      pose proof (fetchPageRaw_files page w) as Hfs.
      rewrite Hf in Ht, Hfs. cbn in Ht, Hfs.
      split_and!; auto.
      * cbn. lia.
      * cbn. now rewrite String.eqb_refl.
      * unfold fetchPageRaw in Hf.
        destruct (http env (trace w) (pageUrl page)) as [d ru|] eqn:Hh; inversion Hf; subst.
        eapply StopSuccess; [reflexivity | exact Hh | reflexivity].
      * discriminate.
    + pose proof (fetchPageRaw_trace page w) as Ht.
      pose proof (fetchPageRaw_files page w) as Hfs.
      rewrite Hf in Ht, Hfs. cbn in Ht, Hfs.
      apply fetchPageRaw_throw in Hf.
      destruct (IH (attempt + 1) (Some err) (sleep RETRY_DELAY_MS w1))
        as (r & new & w' & Hrun & Htr & Hfl & Hcount & Hfor & Hstop & _ & Hall); [lia|].
      exists r, (new ++ [EvSleep RETRY_DELAY_MS; EvGet (pageUrl page)]), w'.
      cbn in Htr. rewrite Ht in Htr.
      split_and!.
      * exact Hrun.
      * now rewrite <- app_assoc.
      * now rewrite Hfl.
      * unfold requests in *. rewrite List.filter_app, length_app. cbn. lia.
      * unfold requests, requestsFor in *. rewrite !List.filter_app, !length_app.
        cbn. rewrite String.eqb_refl. cbn. lia.
      * inversion Hstop; subst.
        -- eapply StopSuccess; eauto.
           rewrite <- app_assoc. cbn. now rewrite <- Ht.
        -- cbn. eapply StopExhausted; eauto.
        -- eapply StopExhausted; eauto.
           rewrite <- app_assoc. cbn. now rewrite <- Ht.
      * intros _. now destruct new.
      * intros p msg Hr. specialize (Hall p msg Hr).
        unfold requests in *. rewrite List.filter_app, length_app. cbn. lia.
  - apply Z.ltb_ge in Hlt.
    exists (Failure page match lastErr with Some e => errorText e | None => "unknown" end), [], w.
    split_and!; auto.
    + cbn. lia.
    + constructor.
    + lia.
    + intros _ _ _. cbn. lia.
Qed.

Lemma fetchWithRetries_spec page maxRetries w :
  exists r new w',
    fetchWithRetries env page maxRetries w = Some (Return r, w')
    /\ trace w' = new ++ trace w
    /\ files w' = files w
    /\ (requests new <= Z.to_nat maxRetries)%nat
    /\ requestsFor (pageUrl page) new = requests new
    /\ Stopped env page None w r new
    /\ resultPage r = page.
Proof.
  destruct (retryLoop_spec page maxRetries (S (Z.to_nat maxRetries)) 0 None w)
    as (r & new & w' & Hrun & Htr & Hfl & Hcount & Hfor & Hstop & _); [lia|].
  exists r, new, w'. rewrite Z.sub_0_r in Hcount.
  split_and!; auto. now inversion Hstop.
Qed.

End FetchRetry.



(** C10.  With a budget of zero or less, [fetchWithRetries] sends no
    request, leaves the world as it found it, and returns (it neither
    throws nor loops) the failure whose reason is the string "unknown". *)
Theorem fetchWithRetries_no_budget (env : Split.Env) (page maxRetries : Z) (w : Split.World) :
  maxRetries <= 0 ->
  Split.fetchWithRetries env page maxRetries w
  = Some (Js.Return (Split.Failure page "unknown"), w).
Proof.
  intros Hmax. unfold Split.fetchWithRetries. cbn [Split.retryLoop].
  destruct (0 <? maxRetries) eqn:Hlt; [apply Z.ltb_lt in Hlt; lia | reflexivity].
Qed.

Lemma fetchWithRetries_no_budget_witness :
  -2 <= 0 /\
  Split.fetchWithRetries failingEnv 7 (-2) (Split.mkWorld [] ∅)
  = Some (Js.Return (Split.Failure 7 "unknown"), Split.mkWorld [] ∅).
Proof.
  split; [lia|].
  apply (fetchWithRetries_no_budget failingEnv 7 (-2) (Split.mkWorld [] ∅)). lia.
Defined.


(** ** The batch scheduler *)

Section Batch.
Import Js Split.
Variable parse : Dom.Page -> string -> Completion (list Brand).
Variable env : Env.

Lemma pushTagged_spec p parsed batchItems :
  pushTagged p parsed batchItems = batchItems ++ map (tag p) parsed.
Proof.
  unfold pushTagged. revert batchItems.
  induction parsed as [|it parsed IH]; intros batchItems; cbn.
  - now rewrite app_nil_r.
  - rewrite IH. now rewrite <- app_assoc.
Qed.

Lemma collect_spec results :
  forall batchItems batchFailed,
    exists failed,
      collect parse results batchItems batchFailed
      = (batchItems ++ recordsOf parse results, batchFailed ++ failed)
      /\ map page failed = failedOf parse results.
Proof.
  induction results as [|r results IH]; intros batchItems batchFailed.
  - exists []. cbn. now rewrite !app_nil_r.
  - destruct r as [p html finalUrl|p err]; cbn [collect].
    + destruct (parse html finalUrl) as [parsed|e] eqn:Hp.
      * destruct (IH (pushTagged p parsed batchItems) batchFailed) as (failed & Hc & Hf).
        exists failed. rewrite Hc, pushTagged_spec. split.
        -- cbn [recordsOf flat_map]. rewrite Hp. now rewrite <- app_assoc.
        -- unfold failedOf. cbn [List.filter pageFailed]. now rewrite Hp.
      * destruct (IH batchItems (batchFailed ++ [mkFailed p ("parse_error: " +:+ errorText e)]))
          as (failed & Hc & Hf).
        exists (mkFailed p ("parse_error: " +:+ errorText e) :: failed).
        rewrite Hc. split.
        -- cbn [recordsOf flat_map]. rewrite Hp. cbn. now rewrite <- app_assoc.
        -- unfold failedOf. cbn [List.filter pageFailed]. rewrite Hp. cbn.
           now f_equal.
    + destruct (IH batchItems (batchFailed ++ [mkFailed p (if truthy err then err else "unknown")]))
        as (failed & Hc & Hf).
      exists (mkFailed p (if truthy err then err else "unknown") :: failed).
      rewrite Hc. split.
      * cbn. now rewrite <- app_assoc.
      * unfold failedOf. cbn. now f_equal.
Qed.

Lemma markWriteFailed_spec err pages :
  forall batchFailed,
    exists extra,
      markWriteFailed err pages batchFailed = batchFailed ++ extra
      /\ (forall p, p ∈ map page extra -> p ∈ pages)
      /\ (forall p, p ∈ pages -> p ∈ map page (batchFailed ++ extra)).
Proof.
  unfold markWriteFailed.
  induction pages as [|q pages IH]; intros batchFailed; cbn [fold_left].
  - exists []. rewrite app_nil_r. split_and!; auto; intros p Hp; inversion Hp.
  - destruct (existsb (fun b => page b =? q) batchFailed) eqn:Hex.
    + destruct (IH batchFailed) as (extra & Hm & Hin & Hall).
      exists extra. split_and!; auto.
      * intros p Hp. right. auto.
      * intros p Hp. apply elem_of_cons in Hp as [->|Hp]; auto.
        apply existsb_exists in Hex as (b & Hb & Hq). apply Z.eqb_eq in Hq.
        rewrite map_app. apply elem_of_app. left. subst q.
        apply list_elem_of_fmap. exists b. split; auto. now apply list_elem_of_In.
    + destruct (IH (batchFailed ++ [mkFailed q ("write_error: " +:+ errorText err)]))
        as (extra & Hm & Hin & Hall).
      exists (mkFailed q ("write_error: " +:+ errorText err) :: extra).
      rewrite Hm, <- app_assoc. split_and!; auto.
      * intros p Hp. cbn in Hp. apply elem_of_cons in Hp as [->|Hp]; [left|right; auto].
      * intros p Hp. rewrite <- app_assoc in Hall. cbn in Hall.
        apply elem_of_cons in Hp as [->|Hp]; auto.
        rewrite map_app. apply elem_of_app. right. cbn. left.
Qed.

Lemma requestsFor_app u l1 l2 :
  requestsFor u (l1 ++ l2) = (requestsFor u l1 + requestsFor u l2)%nat.
Proof. unfold requestsFor. now rewrite List.filter_app, length_app. Qed.

Lemma requestsFor_le u l : (requestsFor u l <= requests l)%nat.
Proof.
  unfold requestsFor, requests.
  induction l as [|e l IH]; cbn; [lia|].
  destruct e as [v| |]; cbn; try lia.
  destruct (String.eqb v u); cbn; lia.
Qed.

Lemma requestsFor_other u v l :
  u <> v -> requestsFor v l = requests l -> requestsFor u l = 0%nat.
Proof.
  intros Hne. unfold requestsFor, requests.
  induction l as [|e l IH]; cbn; [auto|].
  destruct e as [x| |]; cbn; auto.
  pose proof (requestsFor_le v l) as Hle. unfold requestsFor, requests in Hle.
  destruct (String.eqb x v) eqn:Hxv; cbn.
  - apply String.eqb_eq in Hxv. subst x.
    destruct (String.eqb v u) eqn:Hvu.
    + apply String.eqb_eq in Hvu. congruence.
    + intros H. apply IH. lia.
  - intros H. lia.
Qed.

(** *** The calls of a batch on the event loop *)

Lemma recordsWritten_app l1 l2 :
  recordsWritten (l1 ++ l2) = recordsWritten l1 + recordsWritten l2.
Proof.
  unfold recordsWritten.
  induction l1 as [|e l1 IH]; cbn [app fold_right]; [lia|].
  destruct e; lia.
Qed.

(** From the test of the loop to the next [await]: what the call logs, and
    what it leaves of its budgets. *)
Lemma enter_spec page maxRetries attempt lastErr w :
  exists ev,
    trace (snd (enter page maxRetries attempt lastErr w)) = ev ++ trace w
    /\ files (snd (enter page maxRetries attempt lastErr w)) = files w
    /\ callPage (fst (enter page maxRetries attempt lastErr w)) = page
    /\ (turnsLeft maxRetries (fst (enter page maxRetries attempt lastErr w))
        <= 2 * Z.to_nat (maxRetries - attempt))%nat
    /\ (requestsFor (pageUrl page) ev
        + triesLeft maxRetries (fst (enter page maxRetries attempt lastErr w))
        <= Z.to_nat (maxRetries - attempt))%nat
    /\ (forall u, u <> pageUrl page -> requestsFor u ev = 0%nat)
    /\ recordsWritten ev = 0.
Proof.
  unfold enter. destruct (attempt <? maxRetries) eqn:E.
  - apply Z.ltb_lt in E. exists [EvGet (pageUrl page)]. cbn.
    split_and!; auto; try lia.
    + unfold requestsFor. cbn. rewrite String.eqb_refl. cbn. lia.
    + intros u Hu. unfold requestsFor. cbn.
      destruct (String.eqb (pageUrl page) u) eqn:Eu; auto.
      apply String.eqb_eq in Eu. congruence.
  - exists []. cbn. split_and!; auto; lia.
Qed.

(** One turn of a pending call. *)
Lemma resume_spec maxRetries c w :
  pending c = true ->
  exists ev,
    trace (snd (resume env maxRetries c w)) = ev ++ trace w
    /\ files (snd (resume env maxRetries c w)) = files w
    /\ callPage (fst (resume env maxRetries c w)) = callPage c
    /\ (turnsLeft maxRetries (fst (resume env maxRetries c w)) < turnsLeft maxRetries c)%nat
    /\ (requestsFor (pageUrl (callPage c)) ev
        + triesLeft maxRetries (fst (resume env maxRetries c w))
        <= triesLeft maxRetries c)%nat
    /\ (forall u, u <> pageUrl (callPage c) -> requestsFor u ev = 0%nat)
    /\ recordsWritten ev = 0.
Proof.
  destruct c as [page attempt|page attempt e|r]; cbn [pending]; [intros _|intros _|discriminate].
  - cbn [resume]. destruct (http env (trace w) (pageUrl page)) as [data responseUrl|e].
    + exists []. cbn. split_and!; auto; lia.
    + exists [EvSleep RETRY_DELAY_MS]. cbn. split_and!; auto; lia.
  - cbn [resume].
    destruct (enter_spec page maxRetries attempt (Some e) w)
      as (ev & Htr & Hfl & Hpage & Hturns & Htries & Hother & Hquiet).
    exists ev. cbn [callPage turnsLeft triesLeft]. split_and!; auto; lia.
Qed.

(** The turn of the [i]-th pending call changes that call and no other. *)
Lemma resumeNth_spec maxRetries calls :
  forall i w,
    (i < length (List.filter pending calls))%nat ->
    exists pre c post,
      calls = pre ++ c :: post
      /\ pending c = true
      /\ resumeNth env maxRetries i calls w
         = (pre ++ fst (resume env maxRetries c w) :: post,
            snd (resume env maxRetries c w)).
Proof.
  induction calls as [|c calls IH]; intros i w Hi; cbn in Hi; [lia|].
  cbn [resumeNth]. destruct (pending c) eqn:Hc.
  - destruct i as [|i].
    + exists [], c, calls. split_and!; auto.
      now destruct (resume env maxRetries c w).
    + cbn in Hi. destruct (IH i w) as (pre & c0 & post & -> & Hc0 & Hrun); [lia|].
      rewrite Hrun. exists (c :: pre), c0, post. auto.
  - destruct (IH i w Hi) as (pre & c0 & post & -> & Hc0 & Hrun).
    rewrite Hrun. exists (c :: pre), c0, post. auto.
Qed.

Lemma turnsOf_app maxRetries l1 l2 :
  turnsOf maxRetries (l1 ++ l2) = (turnsOf maxRetries l1 + turnsOf maxRetries l2)%nat.
Proof. induction l1 as [|c l1 IH]; cbn; [auto|]. fold (turnsOf maxRetries (l1 ++ l2)). rewrite IH. fold (turnsOf maxRetries l1). lia. Qed.

Lemma all_returned calls :
  List.filter pending calls = [] ->
  map resultPage (omap returned calls) = map callPage calls.
Proof.
  induction calls as [|c calls IH]; cbn; [auto|].
  destruct c; cbn; try discriminate. intros H. now rewrite IH.
Qed.

(** The loop reaches its end when it is given the turns the calls may
    still take. *)
Lemma eventLoop_spec maxRetries :
  forall fuel calls w,
    (turnsOf maxRetries calls <= fuel)%nat ->
    exists results new w',
      eventLoop fuel env maxRetries calls w = Some (results, w')
      /\ trace w' = new ++ trace w
      /\ files w' = files w
      /\ map resultPage results = map callPage calls
      /\ recordsWritten new = 0
      /\ (forall u, u ∉ map pageUrl (map callPage calls) -> requestsFor u new = 0%nat)
      /\ (NoDup (map pageUrl (map callPage calls)) ->
          forall c, c ∈ calls ->
                    (requestsFor (pageUrl (callPage c)) new <= triesLeft maxRetries c)%nat).
Proof.
  induction fuel as [|fuel IH]; intros calls w Hfuel.
  - assert (List.filter pending calls = []) as Hnone.
    { clear -Hfuel. induction calls as [|c calls IH]; cbn in *; [auto|].
      fold (turnsOf maxRetries calls) in Hfuel.
      destruct c; cbn in *; try lia. apply IH. lia. }
    exists (omap returned calls), [], w. cbn [eventLoop]. rewrite Hnone. cbn [length].
    split_and!; auto using all_returned. intros _ c _. cbn. lia.
  - cbn [eventLoop].
    destruct (length (List.filter pending calls)) as [|k] eqn:Hlen.
    + apply length_zero_iff_nil in Hlen.
      exists (omap returned calls), [], w.
      split_and!; auto using all_returned. intros _ c _. cbn. lia.
    + destruct (resumeNth_spec maxRetries calls (turn env (trace w) (S k) mod S k) w)
        as (pre & c & post & -> & Hc & Hrun).
      { rewrite Hlen. apply Nat.mod_upper_bound. lia. }
      rewrite Hrun.
      destruct (resume_spec maxRetries c w Hc)
        as (ev & Htr & Hfl & Hpage & Hturns & Htries & Hother & Hquiet).
      set (c' := fst (resume env maxRetries c w)) in *.
      set (w1 := snd (resume env maxRetries c w)) in *.
      assert (map callPage (pre ++ c' :: post) = map callPage (pre ++ c :: post)) as Hpages.
      { rewrite !map_app. cbn. now rewrite Hpage. }
      destruct (IH (pre ++ c' :: post) w1)
        as (results & new & w' & Hloop & Htr' & Hfl' & Hres & Hq' & Hout & Hin).
      { rewrite turnsOf_app in *. cbn in *. lia. }
      rewrite Hpages in Hres, Hout, Hin.
      exists results, (new ++ ev), w'. split_and!; auto.
      * rewrite Htr', Htr. now rewrite app_assoc.
      * congruence.
      * rewrite recordsWritten_app. lia.
      * intros u Hu. rewrite requestsFor_app, (Hout u Hu), Hother; auto.
        intros ->. apply Hu. rewrite !map_app. apply elem_of_app. right. left.
      * intros Hnd c0 Hc0. rewrite requestsFor_app.
        specialize (Hin Hnd).
        rewrite !map_app in Hnd. cbn in Hnd.
        apply NoDup_app in Hnd as (Hnd1 & Hcross & Hnd2).
        apply NoDup_cons in Hnd2 as [Hcpost Hnd2].
        apply elem_of_app in Hc0 as [Hc0|Hc0]; [|apply elem_of_cons in Hc0 as [->|Hc0]].
        -- rewrite Hother.
           ++ specialize (Hin c0). rewrite Nat.add_0_r. apply Hin.
              apply elem_of_app. now left.
           ++ intros E. apply (Hcross (pageUrl (callPage c0))).
              ** apply list_elem_of_fmap. exists (callPage c0). split; auto.
                 apply list_elem_of_fmap. eauto.
              ** rewrite E. left.
        -- specialize (Hin c'). rewrite Hpage in Hin.
           assert (c' ∈ pre ++ c' :: post) as Hmem by (apply elem_of_app; right; left).
           specialize (Hin Hmem). lia.
        -- rewrite Hother.
           ++ specialize (Hin c0). rewrite Nat.add_0_r. apply Hin.
              apply elem_of_app. right. now right.
           ++ intros E. apply Hcpost. rewrite <- E.
              apply list_elem_of_fmap. exists (callPage c0). split; auto.
              apply list_elem_of_fmap. eauto.
Qed.

(** The calls as they are made. *)
Lemma startAll_spec maxRetries pages :
  forall w,
    exists ev,
      trace (snd (startAll maxRetries pages w)) = ev ++ trace w
      /\ files (snd (startAll maxRetries pages w)) = files w
      /\ map callPage (fst (startAll maxRetries pages w)) = pages
      /\ (turnsOf maxRetries (fst (startAll maxRetries pages w))
          <= length pages * (2 * Z.to_nat maxRetries))%nat
      /\ recordsWritten ev = 0
      /\ (forall u, u ∉ map pageUrl pages -> requestsFor u ev = 0%nat)
      /\ (NoDup (map pageUrl pages) ->
          forall c, c ∈ fst (startAll maxRetries pages w) ->
                    (requestsFor (pageUrl (callPage c)) ev + triesLeft maxRetries c
                     <= Z.to_nat maxRetries)%nat).
Proof.
  induction pages as [|p pages IH]; intros w; cbn [startAll].
  - exists []. cbn. split_and!; auto. intros _ c Hc. now apply elem_of_nil in Hc.
  - destruct (enter_spec p maxRetries 0 None w)
      as (ev1 & Htr1 & Hfl1 & Hpage & Hturns & Htries & Hother & Hquiet).
    destruct (enter p maxRetries 0 None w) as [c w1] eqn:Henter. cbn [fst snd] in *.
    destruct (IH w1) as (ev2 & Htr2 & Hfl2 & Hpages & Hturns2 & Hquiet2 & Hout & Hin).
    destruct (startAll maxRetries pages w1) as [cs w2] eqn:Hrest. cbn [fst snd] in *.
    rewrite Z.sub_0_r in *.
    exists (ev2 ++ ev1). split_and!.
    + rewrite Htr2, Htr1. now rewrite app_assoc.
    + congruence.
    + cbn. congruence.
    + cbn [turnsOf fold_right length]. fold (turnsOf maxRetries cs). lia.
    + rewrite recordsWritten_app. lia.
    + intros u Hu. rewrite requestsFor_app.
      rewrite Hout, Hother; auto.
      * intros ->. apply Hu. left.
      * intros H. apply Hu. now right.
    + intros Hnd c0 Hc0. cbn in Hnd. apply NoDup_cons in Hnd as [Hp Hnd].
      rewrite requestsFor_app.
      apply elem_of_cons in Hc0 as [->|Hc0].
      * rewrite Hpage. rewrite (Hout (pageUrl p) Hp). lia.
      * specialize (Hin Hnd c0 Hc0). rewrite Hother; [lia|].
        intros E. apply Hp. rewrite <- E.
        apply list_elem_of_fmap. exists (callPage c0). split; auto.
        rewrite <- Hpages. apply list_elem_of_fmap. eauto.
Qed.

(** The batch of calls returns one result per page, in the order of the
    pages, and writes nothing; when the pages have different addresses,
    none is asked more often than the budget allows. *)
Lemma fetchAll_runs maxRetries pages w :
  exists results new w',
    fetchAll env maxRetries pages w = Some (Return results, w')
    /\ trace w' = new ++ trace w
    /\ files w' = files w
    /\ map resultPage results = pages
    /\ recordsWritten new = 0
    /\ (NoDup (map pageUrl pages) -> Polite (Z.to_nat maxRetries) pages new).
Proof.
  unfold fetchAll.
  destruct (startAll_spec maxRetries pages w)
    as (ev & Htr & Hfl & Hpages & Hturns & Hquiet & Hout & Hin).
  destruct (startAll maxRetries pages w) as [calls w0]. cbn [fst snd] in *.
  destruct (eventLoop_spec maxRetries _ calls w0 Hturns)
    as (results & new & w' & Hloop & Htr' & Hfl' & Hres & Hq' & Hout' & Hin').
  rewrite Hloop. rewrite Hpages in *.
  exists results, (new ++ ev), w'. split_and!; auto.
  - rewrite Htr', Htr. now rewrite app_assoc.
  - congruence.
  - rewrite recordsWritten_app. lia.
  - intros Hnd u. rewrite requestsFor_app.
    destruct (decide (u ∈ map pageUrl pages)) as [Hu|Hu].
    + apply list_elem_of_fmap in Hu as (p & -> & Hp).
      rewrite <- Hpages in Hp. apply list_elem_of_fmap in Hp as (c & -> & Hc).
      specialize (Hin Hnd c Hc). specialize (Hin' Hnd c Hc).
      split; [lia|]. intros _. exists (callPage c). split; auto.
      rewrite <- Hpages. apply list_elem_of_fmap. eauto.
    + rewrite (Hout u Hu), (Hout' u Hu). split; [lia|]. intros H. now contradict H.
Qed.

(** Every page of the batch is asked for before any answer is read: the
    oldest events of the batch are its requests, in the order of the
    pages. *)
Lemma startAll_requests maxRetries pages :
  0 < maxRetries ->
  forall w,
    trace (snd (startAll maxRetries pages w))
    = rev (map (fun p => EvGet (pageUrl p)) pages) ++ trace w.
Proof.
  intros Hmax. induction pages as [|p pages IH]; intros w; cbn [startAll]; [reflexivity|].
  unfold enter. rewrite (proj2 (Z.ltb_lt 0 maxRetries) Hmax).
  specialize (IH (log (EvGet (pageUrl p)) w)).
  destruct (startAll maxRetries pages (log (EvGet (pageUrl p)) w)) as [cs w2].
  cbn [snd] in *. rewrite IH. cbn [map rev log trace]. now rewrite <- app_assoc.
Qed.

Lemma fetchAll_requests_first maxRetries pages w results w' :
  0 < maxRetries ->
  fetchAll env maxRetries pages w = Some (Return results, w') ->
  exists later,
    trace w' = later ++ rev (map (fun p => EvGet (pageUrl p)) pages) ++ trace w.
Proof.
  intros Hmax. unfold fetchAll.
  pose proof (startAll_requests maxRetries pages Hmax w) as Hstart.
  destruct (startAll_spec maxRetries pages w) as (_ & _ & _ & _ & Hturns & _).
  destruct (startAll maxRetries pages w) as [calls w0]. cbn [fst snd] in *.
  destruct (eventLoop_spec maxRetries _ calls w0 Hturns)
    as (results0 & new & w1 & Hloop & Htr & _).
  rewrite Hloop. intros [= <- <-]. exists new. now rewrite Htr, Hstart.
Qed.

Lemma fetchAll_spec maxRetries pages :
  forall w,
    NoDup (map pageUrl pages) ->
    exists results new w',
      fetchAll env maxRetries pages w = Some (Return results, w')
      /\ trace w' = new ++ trace w
      /\ files w' = files w
      /\ map resultPage results = pages
      /\ Polite (Z.to_nat maxRetries) pages new.
Proof.
  intros w Hnd.
  destruct (fetchAll_runs maxRetries pages w)
    as (results & new & w' & Hrun & Htr & Hfl & Hres & _ & Hpol).
  exists results, new, w'. split_and!; auto.
Qed.

Lemma append_inj_r (s a b : string) : s +:+ a = s +:+ b -> a = b.
Proof. induction s as [|c s IH]; cbn; [auto|]. intros H. inversion H. auto. Qed.

Lemma pageUrl_inj p q : 1 <= p -> 1 <= q -> pageUrl p = pageUrl q -> p = q.
Proof.
  intros Hp Hq. unfold pageUrl.
  destruct (1 <? p) eqn:Ep; destruct (1 <? q) eqn:Eq;
    try apply Z.ltb_lt in Ep; try apply Z.ltb_lt in Eq;
    try apply Z.ltb_ge in Ep; try apply Z.ltb_ge in Eq.
  - intros H. apply append_inj_r in H. apply append_inj_r in H.
    now apply (inj pretty) in H.
  - intros H. apply (append_inj_r BASE _ "") in H. cbn in H. discriminate.
  - intros H. symmetry in H. apply (append_inj_r BASE _ "") in H. cbn in H. discriminate.
  - lia.
Qed.

Lemma NoDup_pageUrl pages :
  NoDup pages -> Forall (fun p => 1 <= p) pages -> NoDup (map pageUrl pages).
Proof.
  induction pages as [|p pages IH]; intros Hnd Hall; cbn; [constructor|].
  apply NoDup_cons in Hnd as [Hp Hnd]. apply Forall_cons in Hall as [H1 Hall].
  apply NoDup_cons. split; auto.
  intros Hin. apply list_elem_of_fmap in Hin as (q & Hq & Hin).
  apply Hp. rewrite Forall_forall in Hall.
  rewrite (pageUrl_inj p q H1 (Hall q Hin) Hq). exact Hin.
Qed.

(** A batch, from the state before it to the state after its sleep. *)
Lemma processBatch_spec maxRetries startPage endPage st :
  1 <= startPage ->
  exists results new w1 st',
    fetchAll env maxRetries (seqZ startPage (endPage - startPage + 1)) (world st)
    = Some (Return results, w1)
    /\ trace w1 = new ++ trace (world st)
    /\ Polite (Z.to_nat maxRetries) (seqZ startPage (endPage - startPage + 1)) new
    /\ map resultPage results = seqZ startPage (endPage - startPage + 1)
    /\ processBatch parse env maxRetries startPage endPage st = Some (Return st')
    /\ trace (world st')
       = EvSleep BATCH_DELAY_MS
           :: EvWrite startPage endPage (recordsOf parse results) :: trace w1
    /\ (disk env (trace w1) startPage endPage = None ->
        files (world st') !! (startPage, endPage) = Some (Json (recordsOf parse results))
        /\ failedPages st' = failedPages st ++ failedOf parse results
        /\ totalSaved st' = totalSaved st + Z.of_nat (length (recordsOf parse results)))
    /\ (exists more, failedPages st' = failedPages st ++ failedOf parse results ++ more
                     /\ forall p, p ∈ more ->
                                  p ∈ seqZ startPage (endPage - startPage + 1)).
Proof.
  intros Hstart.
  set (pages := seqZ startPage (endPage - startPage + 1)).
  assert (NoDup (map pageUrl pages)) as Hnd.
  { apply NoDup_pageUrl; [apply NoDup_seqZ|].
    apply Forall_forall. intros p Hp. apply elem_of_seqZ in Hp. lia. }
  destruct (fetchAll_spec maxRetries pages (world st) Hnd)
    as (results & new & w1 & Hall & Htr & Hfl & Hpages & Hpol).
  destruct (collect_spec results [] []) as (failed & Hc & Hf).
  cbn [app] in Hc.
  unfold processBatch. fold pages. rewrite Hall, Hc.
  destruct (disk env (trace w1) startPage endPage) as [err|] eqn:Hdisk.
  - destruct (markWriteFailed_spec err pages failed) as (extra & Hm & Hin & _).
    eexists results, new, w1, _.
    split; [reflexivity|]. split; [exact Htr|]. split; [exact Hpol|].
    split; [exact Hpages|]. split; [reflexivity|]. split; [reflexivity|].
    split; [intros Hd; congruence|].
    exists (map page extra). cbn. rewrite Hm, map_app, Hf. split; auto.
  - eexists results, new, w1, _.
    split; [reflexivity|]. split; [exact Htr|]. split; [exact Hpol|].
    split; [exact Hpages|]. split; [reflexivity|]. split; [reflexivity|].
    split.
    + intros _. cbn. split_and!; auto.
      * apply lookup_insert_eq.
      * now rewrite Hf.
    + exists []. cbn. rewrite Hf, app_nil_r. split; auto.
      intros p Hp. inversion Hp.
Qed.

Lemma Polite_batch n startPage endPage maxPages batchSize new1 new2 ms items :
  1 <= startPage -> 1 <= batchSize -> startPage <= maxPages ->
  endPage = Z.min (startPage + batchSize - 1) maxPages ->
  Polite n (seqZ startPage (endPage - startPage + 1)) new1 ->
  Polite n (seqZ (startPage + batchSize) (maxPages - (startPage + batchSize) + 1)) new2 ->
  Polite n (seqZ startPage (maxPages - startPage + 1))
         (new2 ++ EvSleep ms :: EvWrite startPage endPage items :: new1).
Proof.
  intros Hs Hb Hm He H1 H2 u.
  rewrite requestsFor_app.
  change (requestsFor u (EvSleep ms :: EvWrite startPage endPage items :: new1))
    with (requestsFor u new1).
  destruct (H1 u) as [Hle1 Hwho1]. destruct (H2 u) as [Hle2 Hwho2].
  destruct (requestsFor u new1) eqn:E1.
  - split; [lia|]. intros Hnz. destruct Hwho2 as (q & Hq & Hu); [lia|].
    exists q. split; auto. apply elem_of_seqZ in Hq. apply elem_of_seqZ. lia.
  - destruct Hwho1 as (p & Hp & Hu); [lia|].
    apply elem_of_seqZ in Hp.
    destruct (requestsFor u new2) eqn:E2.
    + split; [lia|]. intros _. exists p. split; auto. apply elem_of_seqZ. lia.
    + destruct Hwho2 as (q & Hq & Hu'); [lia|].
      apply elem_of_seqZ in Hq. exfalso.
      assert (p = q) by (apply pageUrl_inj; [lia | lia | congruence]). lia.
Qed.

Lemma batches_spec maxPages batchSize maxRetries :
  1 <= batchSize ->
  forall fuel start st,
    1 <= start ->
    (Z.to_nat (maxPages - start + 1) < fuel)%nat ->
    exists st' new more,
      batches parse fuel env maxPages batchSize maxRetries start st = Some (Return st')
      /\ trace (world st') = new ++ trace (world st)
      /\ Polite (Z.to_nat maxRetries) (seqZ start (maxPages - start + 1)) new
      /\ failedPages st' = failedPages st ++ more.
Proof.
  intros Hb. induction fuel as [|fuel IH]; intros start st Hs Hfuel; [lia|].
  cbn [batches].
  destruct (start <=? maxPages) eqn:Hle.
  - apply Z.leb_le in Hle.
    set (endPage := Z.min (start + batchSize - 1) maxPages).
    destruct (fileExistsNonEmpty start endPage (world st)).
    + destruct (IH (start + batchSize) st) as (st' & new & more & Hrun & Htr & Hpol & Hfp);
        [lia | lia |].
      exists st', new, more. split_and!; auto.
      intros u. destruct (Hpol u) as [H1 H2]. split; auto.
      intros Hnz. destruct (H2 Hnz) as (q & Hq & Hu). exists q. split; auto.
      apply elem_of_seqZ in Hq. apply elem_of_seqZ. lia.
    + destruct (processBatch_spec maxRetries start endPage st Hs)
        as (results & new1 & w1 & st1 & _ & Htr1 & Hpol1 & _ & Hrun1 & Htr1' & _ & Hmore).
      rewrite Hrun1.
      destruct (IH (start + batchSize) st1) as (st' & new & more & Hrun & Htr & Hpol & Hfp);
        [lia | lia |].
      destruct Hmore as (more1 & Hfp1 & _).
      exists st', (new ++ EvSleep BATCH_DELAY_MS
                       :: EvWrite start endPage (recordsOf parse results) :: new1),
             (failedOf parse results ++ more1 ++ more).
      split_and!; auto.
      * rewrite Htr, Htr1', Htr1. now rewrite <- app_assoc.
      * apply (Polite_batch _ start endPage maxPages batchSize); auto.
      * rewrite Hfp, Hfp1. now rewrite <- !app_assoc.
  - apply Z.leb_gt in Hle.
    exists st, [], []. split_and!; auto.
    + intros u. cbn. split; [lia | congruence].
    + now rewrite app_nil_r.
Qed.

End Batch.

(** *** What the results of a batch mean *)

Section BatchResults.
Import Js Split.
Variable env : Env.

Lemma Answered_later w new ev url reply :
  Answered env w new url reply -> Answered env w (ev ++ new) url reply.
Proof.
  intros (later & earlier & -> & H). exists (ev ++ later), earlier.
  split; [now rewrite app_assoc | exact H].
Qed.

(** Events that are no request for the page of a call leave the call as
    it is. *)
Lemma CallOk_later maxRetries w new ev c :
  requestsFor (pageUrl (callPage c)) ev = 0%nat ->
  CallOk env maxRetries w new c -> CallOk env maxRetries w (ev ++ new) c.
Proof.
  intros Hev. destruct c as [p a|p a e|[p html f|p err]];
    cbn [CallOk Fetched callPage resultPage] in *;
    rewrite requestsFor_app, Hev, Nat.add_0_l.
  - exact id.
  - intros (Ha & Hn & Hans). split; [exact Ha|]. split; [exact Hn|].
    now apply Answered_later.
  - intros (Hn & responseUrl & Hans & Hf). split; [exact Hn|].
    exists responseUrl. split; [now apply Answered_later | exact Hf].
  - intros (Hn & [Hno|(e & Hans & He)]); split; auto.
    right. exists e. split; [now apply Answered_later | exact He].
Qed.

Lemma requestsFor_get u : requestsFor u [EvGet u] = 1%nat.
Proof. unfold requestsFor. cbn. now rewrite String.eqb_refl. Qed.

(** The turn of a call. *)
Lemma resume_ok maxRetries w new c wc :
  pending c = true ->
  trace wc = new ++ trace w ->
  CallOk env maxRetries w new c ->
  exists ev,
    trace (snd (resume env maxRetries c wc)) = ev ++ trace wc
    /\ (forall u, u <> pageUrl (callPage c) -> requestsFor u ev = 0%nat)
    /\ CallOk env maxRetries w (ev ++ new) (fst (resume env maxRetries c wc)).
Proof.
  intros Hc Htr Hok.
  destruct c as [p a|p a e|r]; cbn [pending] in Hc; [| |discriminate]; cbn [resume callPage].
  - destruct Hok as [Ha Hn].
    destruct (http env (trace wc) (pageUrl p)) as [data responseUrl|e] eqn:Hreply.
    + exists []. cbn [fst snd app CallOk Fetched]. split_and!; auto; try lia.
      exists responseUrl. split; [|reflexivity].
      exists [], new. split; [reflexivity|]. now rewrite <- Htr.
    + exists [EvSleep RETRY_DELAY_MS]. cbn [fst snd CallOk].
      split; [reflexivity|]. split; [reflexivity|].
      split; [exact Ha|]. split; [exact Hn|].
      exists [EvSleep RETRY_DELAY_MS], new. split; [reflexivity|]. now rewrite <- Htr.
  - destruct Hok as (Ha & Hn & Hans). unfold enter.
    destruct (a <? maxRetries) eqn:E.
    + apply Z.ltb_lt in E. exists [EvGet (pageUrl p)]. cbn [fst snd CallOk].
      split_and!; auto; try lia.
      * intros u Hu. unfold requestsFor. cbn.
        destruct (String.eqb (pageUrl p) u) eqn:Eu; auto.
        apply String.eqb_eq in Eu. congruence.
      * rewrite requestsFor_app, requestsFor_get, Hn. lia.
    + apply Z.ltb_ge in E. exists []. cbn [fst snd app CallOk Fetched].
      split_and!; auto.
      * rewrite Hn. f_equal. lia.
      * right. exists e. auto.
Qed.

Lemma eventLoop_ok maxRetries w :
  forall fuel calls wc new results w',
    eventLoop fuel env maxRetries calls wc = Some (results, w') ->
    NoDup (map pageUrl (map callPage calls)) ->
    trace wc = new ++ trace w ->
    Forall (CallOk env maxRetries w new) calls ->
    exists new',
      trace w' = new' ++ trace w /\ Forall (Fetched env maxRetries w new') results.
Proof.
  assert (Hend : forall calls new,
             List.filter pending calls = [] ->
             Forall (CallOk env maxRetries w new) calls ->
             Forall (Fetched env maxRetries w new) (omap returned calls)).
  { intros calls new Hnone Hall. induction Hall as [|c calls Hc _ IH]; [constructor|].
    destruct c; cbn in Hnone; try discriminate. cbn. constructor; auto. }
  induction fuel as [|fuel IH]; intros calls wc new results w' Hrun Hnd Htr Hall;
    cbn [eventLoop] in Hrun.
  - destruct (length (List.filter pending calls)) eqn:Hlen; [|discriminate].
    apply length_zero_iff_nil in Hlen. injection Hrun as <- <-.
    exists new. split; [exact Htr | exact (Hend _ _ Hlen Hall)].
  - destruct (length (List.filter pending calls)) as [|k] eqn:Hlen.
    + apply length_zero_iff_nil in Hlen. injection Hrun as <- <-.
      exists new. split; [exact Htr | exact (Hend _ _ Hlen Hall)].
    + destruct (resumeNth_spec env maxRetries calls
                               (turn env (trace wc) (S k) mod S k) wc)
        as (pre & c & post & -> & Hc & Hstep).
      { rewrite Hlen. apply Nat.mod_upper_bound. lia. }
      rewrite Hstep in Hrun.
      apply Forall_app in Hall as [Hpre Hall]. apply Forall_cons in Hall as [Hok Hpost].
      destruct (resume_ok maxRetries w new c wc Hc Htr Hok) as (ev & Htr1 & Hother & Hok1).
      destruct (resume_spec env maxRetries c wc Hc) as (_ & _ & _ & Hpage & _).
      rewrite !map_app in Hnd. cbn [map] in Hnd.
      pose proof Hnd as Hnd0.
      apply NoDup_app in Hnd as (Hnd1 & Hcross & Hnd2).
      apply NoDup_cons in Hnd2 as [Hcpost Hnd2].
      apply (IH _ _ (ev ++ new) _ _ Hrun).
      * rewrite !map_app. cbn [map]. now rewrite Hpage.
      * rewrite Htr1, Htr. now rewrite app_assoc.
      * rewrite Forall_forall in Hpre, Hpost.
        apply Forall_app. split; [|apply Forall_cons; split; [exact Hok1|]];
          apply Forall_forall; intros c0 Hc0.
        -- apply CallOk_later; [|now apply Hpre].
           apply Hother. intros E. apply (Hcross (pageUrl (callPage c0))).
           ++ apply list_elem_of_fmap. exists (callPage c0). split; auto.
              apply list_elem_of_fmap. eauto.
           ++ rewrite E. left.
        -- apply CallOk_later; [|now apply Hpost].
           apply Hother. intros E. apply Hcpost. rewrite <- E.
           apply list_elem_of_fmap. exists (callPage c0). split; auto.
           apply list_elem_of_fmap. eauto.
Qed.

Lemma startAll_ok maxRetries w0 pages :
  forall w sofar,
    NoDup (map pageUrl pages) ->
    trace w = sofar ++ trace w0 ->
    (forall p, p ∈ pages -> requestsFor (pageUrl p) sofar = 0%nat) ->
    exists ev,
      trace (snd (startAll maxRetries pages w)) = ev ++ trace w
      /\ (forall u, u ∉ map pageUrl pages -> requestsFor u ev = 0%nat)
      /\ Forall (CallOk env maxRetries w0 (ev ++ sofar)) (fst (startAll maxRetries pages w)).
Proof.
  induction pages as [|p pages IH]; intros w sofar Hnd Htr Hfresh; cbn [startAll].
  - exists []. cbn. split_and!; auto.
  - cbn [map] in Hnd. apply NoDup_cons in Hnd as [Hp Hnd].
    assert (exists ev1 c w1,
               enter p maxRetries 0 None w = (c, w1)
               /\ trace w1 = ev1 ++ trace w
               /\ callPage c = p
               /\ (forall u, u <> pageUrl p -> requestsFor u ev1 = 0%nat)
               /\ CallOk env maxRetries w0 (ev1 ++ sofar) c) as Hfirst.
    { unfold enter. destruct (0 <? maxRetries) eqn:E.
      - apply Z.ltb_lt in E. eexists [EvGet (pageUrl p)], _, _.
        split; [reflexivity|]. cbn [CallOk callPage]. split_and!; auto; try lia.
        + intros u Hu. unfold requestsFor. cbn.
          destruct (String.eqb (pageUrl p) u) eqn:Eu; auto.
          apply String.eqb_eq in Eu. congruence.
        + rewrite requestsFor_app, requestsFor_get, Hfresh by left. reflexivity.
      - apply Z.ltb_ge in E. eexists [], _, _.
        split; [reflexivity|]. cbn [CallOk Fetched callPage resultPage app].
        split_and!; auto.
        rewrite Hfresh by left. symmetry. apply Z2Nat.nonpos. lia. }
    destruct Hfirst as (ev1 & c & w1 & Henter & Htr1 & Hpage & Hother1 & Hok1).
    rewrite Henter.
    destruct (IH w1 (ev1 ++ sofar)) as (ev2 & Htr2 & Hother2 & Hok2); auto.
    { rewrite Htr1, Htr. now rewrite app_assoc. }
    { intros q Hq. rewrite requestsFor_app, Hfresh by now right.
      rewrite Hother1; [reflexivity|].
      intros E. apply Hp. rewrite <- E. apply list_elem_of_fmap. eauto. }
    destruct (startAll maxRetries pages w1) as [cs w2]. cbn [fst snd] in *.
    exists (ev2 ++ ev1). split_and!.
    + rewrite Htr2, Htr1. now rewrite app_assoc.
    + intros u Hu. rewrite requestsFor_app, Hother2, Hother1; auto.
      * intros ->. apply Hu. left.
      * intros H. apply Hu. now right.
    + rewrite <- app_assoc. apply Forall_cons. split; [|exact Hok2].
      apply CallOk_later; [|exact Hok1].
      rewrite Hpage. now apply Hother2.
Qed.

(** Every result of a batch is what its call fetched. *)
Lemma fetchAll_results maxRetries pages w results w' :
  NoDup (map pageUrl pages) ->
  fetchAll env maxRetries pages w = Some (Return results, w') ->
  exists new,
    trace w' = new ++ trace w /\ Forall (Fetched env maxRetries w new) results.
Proof.
  intros Hnd. unfold fetchAll.
  destruct (startAll_ok maxRetries w pages w [] Hnd eq_refl (fun _ _ => eq_refl))
    as (ev & Htr & _ & Hok).
  destruct (startAll_spec maxRetries pages w) as (_ & _ & _ & Hpages & _).
  destruct (startAll maxRetries pages w) as [calls w0]. cbn [fst snd] in *.
  destruct (eventLoop _ env maxRetries calls w0) as [[results0 w1]|] eqn:Hloop;
    [|discriminate].
  intros [= <- <-]. rewrite app_nil_r in Hok.
  apply (eventLoop_ok maxRetries w _ _ _ ev _ _ Hloop); auto.
  now rewrite Hpages.
Qed.

End BatchResults.

(** *** A batch of one page *)

Section SingleCall.
Import Js Split.
Variable env : Env.

(** A call alone on the event loop is the loop of [fetchWithRetries]. *)
Lemma eventLoop_alone page maxRetries :
  forall n attempt lastErr w fuelL fuelE,
    Z.to_nat (maxRetries - attempt) = n ->
    (n < fuelL)%nat -> (2 * n <= fuelE)%nat ->
    eventLoop fuelE env maxRetries
              [fst (enter page maxRetries attempt lastErr w)]
              (snd (enter page maxRetries attempt lastErr w))
    = match retryLoop fuelL (asked env) page maxRetries attempt lastErr w with
      | Some (Return r, w') => Some ([r], w')
      | _ => None
      end.
Proof.
  induction n as [|n IH]; intros attempt lastErr w fuelL fuelE Hn HL HE;
    (destruct fuelL as [|fuelL]; [lia|]); cbn [retryLoop]; unfold enter;
    destruct (attempt <? maxRetries) eqn:Hlt;
    try (apply Z.ltb_lt in Hlt; lia); try (apply Z.ltb_ge in Hlt; lia).
  - cbn [fst snd]. destruct fuelE; reflexivity.
  - apply Z.ltb_lt in Hlt. cbn [fst snd].
    destruct fuelE as [|fuelE]; [lia|]. cbn [eventLoop List.filter pending length].
    rewrite Nat.mod_1_r. cbn [resumeNth pending resume].
    unfold fetchPageRaw. cbn [asked http log trace].
    destruct (http env (EvGet (pageUrl page) :: trace w) (pageUrl page))
      as [data responseUrl|e].
    + destruct fuelE; reflexivity.
    + destruct fuelE as [|fuelE]; [lia|]. cbn [eventLoop List.filter pending length].
      rewrite Nat.mod_1_r. cbn [resumeNth pending resume].
      specialize (IH (attempt + 1) (Some e)
                     (sleep RETRY_DELAY_MS (log (EvGet (pageUrl page)) w)) fuelL fuelE).
      destruct (enter page maxRetries (attempt + 1) (Some e)
                      (sleep RETRY_DELAY_MS (log (EvGet (pageUrl page)) w))) as [c w1].
      apply IH; lia.
Qed.

Lemma fetchAll_single maxRetries page w :
  fetchAll env maxRetries [page] w
  = match fetchWithRetries (asked env) page maxRetries w with
    | Some (Return r, w') => Some (Return [r], w')
    | _ => None
    end.
Proof.
  unfold fetchAll, fetchWithRetries. cbn [startAll length].
  pose proof (eventLoop_alone page maxRetries (Z.to_nat (maxRetries - 0)) 0 None w
                              (S (Z.to_nat maxRetries)) (1 * (2 * Z.to_nat maxRetries))
                              eq_refl) as H.
  destruct (enter page maxRetries 0 None w) as [c w1]. cbn [fst snd] in H.
  rewrite H by (rewrite ?Z.sub_0_r; lia).
  destruct (retryLoop _ _ _ _ _ _ _) as [[[r|e] w']|]; reflexivity.
Qed.

End SingleCall.

(** *** The batches of a run, one by one *)

Section BatchByBatch.
Import Js Split.
Variable parse : Dom.Page -> string -> Completion (list Brand).
Variable env : Env.

Lemma pages_NoDup startPage endPage :
  1 <= startPage -> NoDup (map pageUrl (seqZ startPage (endPage - startPage + 1))).
Proof.
  intros Hs. apply NoDup_pageUrl; [apply NoDup_seqZ|].
  apply Forall_forall. intros p Hp. apply elem_of_seqZ in Hp. lia.
Qed.

Lemma failedOf_pages results p :
  p ∈ failedOf parse results -> p ∈ map resultPage results.
Proof.
  unfold failedOf. intros Hp. apply list_elem_of_fmap in Hp as (r & -> & Hr).
  apply list_elem_of_In, filter_In in Hr as [Hr _].
  apply list_elem_of_fmap. exists r. split; [reflexivity | now apply list_elem_of_In].
Qed.

(** One batch, with what it does to the other files and what it records. *)
Lemma processBatch_full maxRetries startPage endPage st :
  1 <= startPage ->
  exists results new w1 st' more,
    fetchAll env maxRetries (seqZ startPage (endPage - startPage + 1)) (world st)
    = Some (Return results, w1)
    /\ trace w1 = new ++ trace (world st)
    /\ map resultPage results = seqZ startPage (endPage - startPage + 1)
    /\ processBatch parse env maxRetries startPage endPage st = Some (Return st')
    /\ trace (world st')
       = EvSleep BATCH_DELAY_MS
           :: EvWrite startPage endPage (recordsOf parse results) :: trace w1
    /\ (forall key, key <> (startPage, endPage) ->
                    files (world st') !! key = files (world st) !! key)
    /\ failedPages st' = failedPages st ++ more
    /\ (forall p, p ∈ more ->
                  p ∈ failedOf parse results
                  \/ (disk env (trace w1) startPage endPage <> None
                      /\ p ∈ seqZ startPage (endPage - startPage + 1)))
    /\ BatchKept parse env startPage endPage (files (world st)) (files (world st'))
                 more results w1.
Proof.
  intros Hstart.
  set (pages := seqZ startPage (endPage - startPage + 1)).
  destruct (fetchAll_runs env maxRetries pages (world st))
    as (results & new & w1 & Hall & Htr & Hfl & Hpages & _ & _).
  destruct (collect_spec parse results [] []) as (failed & Hc & Hf).
  cbn [app] in Hc.
  unfold processBatch, BatchKept. fold pages. rewrite Hall, Hc.
  destruct (disk env (trace w1) startPage endPage) as [err|] eqn:Hdisk.
  - destruct (markWriteFailed_spec err pages failed) as (extra & Hm & Hin & Hcover).
    eexists results, new, w1, _, (map page (failed ++ extra)).
    split; [reflexivity|]. split; [exact Htr|]. split; [exact Hpages|].
    split; [reflexivity|]. split; [reflexivity|].
    cbn [world failedPages sleep log files trace]. rewrite Hm, Hdisk.
    split_and!; auto.
    + intros key _. now rewrite Hfl.
    + intros p. rewrite map_app, elem_of_app, Hf. intros [Hp|Hp]; [now left|].
      right. split; [discriminate | auto].
    + intros p Hp. rewrite map_app, elem_of_app, Hf. now left.
    + congruence.
    + intros p Hp. apply Hcover. apply elem_of_seqZ. lia.
  - eexists results, new, w1, _, (failedOf parse results).
    split; [reflexivity|]. split; [exact Htr|]. split; [exact Hpages|].
    split; [reflexivity|]. split; [reflexivity|].
    cbn [world failedPages sleep log files trace]. rewrite Hdisk.
    split_and!; auto.
    + intros key Hkey. rewrite lookup_insert_ne by congruence. now rewrite Hfl.
    + now rewrite Hf.
    + apply lookup_insert_eq.
Qed.

Lemma fileExistsNonEmpty_files a b w w' :
  files w' !! (a, b) = files w !! (a, b) ->
  fileExistsNonEmpty a b w' = fileExistsNonEmpty a b w.
Proof. unfold fileExistsNonEmpty. now intros ->. Qed.

Lemma BatchKept_mono startPage endPage before after failed failed' results w1 :
  (forall p, p ∈ failed -> p ∈ failed') ->
  BatchKept parse env startPage endPage before after failed results w1 ->
  BatchKept parse env startPage endPage before after failed' results w1.
Proof.
  intros Hsub [Hfailed Hfile]. split; [auto|].
  destruct (disk env (trace w1) startPage endPage); [|exact Hfile].
  destruct Hfile as [Hsame Hevery]. split; auto.
Qed.

Lemma BatchFrom_next start maxPages batchSize s e :
  BatchFrom (start + batchSize) maxPages batchSize s e ->
  BatchFrom start maxPages batchSize s e.
Proof.
  intros ((k & Hk & ->) & Hle & He). split_and!; auto.
  exists (k + 1). split; lia.
Qed.

Lemma BatchFrom_cases start maxPages batchSize s e :
  BatchFrom start maxPages batchSize s e ->
  (s = start /\ e = Z.min (start + batchSize - 1) maxPages)
  \/ BatchFrom (start + batchSize) maxPages batchSize s e.
Proof.
  intros ((k & Hk & ->) & Hle & He).
  destruct (decide (k = 0)) as [->|Hne].
  - left. split; [lia|]. rewrite He. f_equal. lia.
  - right. split_and!; auto. exists (k - 1). split; lia.
Qed.

Lemma BatchFrom_later start maxPages batchSize s e :
  1 <= batchSize ->
  BatchFrom (start + batchSize) maxPages batchSize s e -> start < s.
Proof. intros Hb ((k & Hk & ->) & _). nia. Qed.

(** The loop from [start] on: it goes through every batch whose file it
    does not find, keeps its outcome, leaves the files of the batches
    before [start] alone, and records only pages of such batches. *)
Lemma batches_persist maxPages batchSize maxRetries :
  1 <= batchSize ->
  forall fuel start st,
    1 <= start ->
    (Z.to_nat (maxPages - start + 1) < fuel)%nat ->
    exists st' new more,
      batches parse fuel env maxPages batchSize maxRetries start st = Some (Return st')
      /\ trace (world st') = new ++ trace (world st)
      /\ failedPages st' = failedPages st ++ more
      /\ (forall a b, a < start -> files (world st') !! (a, b) = files (world st) !! (a, b))
      /\ (forall s e,
             BatchFrom start maxPages batchSize s e ->
             fileExistsNonEmpty s e (world st) = false ->
             exists results w1,
               Processed parse env maxRetries s e (world st) (trace (world st')) results w1
               /\ BatchKept parse env s e (files (world st)) (files (world st'))
                            more results w1)
      /\ (forall p,
             p ∈ more ->
             exists s e results w1,
               BatchFrom start maxPages batchSize s e
               /\ s <= p <= e
               /\ fileExistsNonEmpty s e (world st) = false
               /\ Processed parse env maxRetries s e (world st) (trace (world st')) results w1
               /\ (p ∈ failedOf parse results \/ disk env (trace w1) s e <> None)).
Proof.
  intros Hb. induction fuel as [|fuel IH]; intros start st Hs Hfuel; [lia|].
  cbn [batches].
  destruct (start <=? maxPages) eqn:Hle.
  - apply Z.leb_le in Hle.
    set (endPage := Z.min (start + batchSize - 1) maxPages).
    destruct (fileExistsNonEmpty start endPage (world st)) eqn:Hfile.
    + destruct (IH (start + batchSize) st)
        as (st' & new & more & Hrun & Htr & Hfp & Hframe & Hall & Hback); [lia | lia |].
      exists st', new, more. split_and!; auto.
      * intros a b Ha. apply Hframe. lia.
      * intros s e Hse Hno.
        apply BatchFrom_cases in Hse as [[-> ->]|Hse]; [fold endPage in Hno; congruence|].
        now apply Hall.
      * intros p Hp.
        destruct (Hback p Hp) as (s & e & results & w1 & Hse & Hin & Hno & Hproc & Hwhy).
        exists s, e, results, w1. split_and!; auto; try lia.
        now apply BatchFrom_next.
    + destruct (processBatch_full maxRetries start endPage st Hs)
        as (results & new1 & w1 & st1 & more1 & Hfetch & Htr1 & Hpages & Hrun1 & Htr1'
            & Hframe1 & Hfp1 & Hwhy1 & Hkept1).
      rewrite Hrun1.
      destruct (IH (start + batchSize) st1)
        as (st' & new & more & Hrun & Htr & Hfp & Hframe & Hall & Hback); [lia | lia |].
      assert (forall s e, BatchFrom (start + batchSize) maxPages batchSize s e ->
                          files (world st1) !! (s, e) = files (world st) !! (s, e)) as Hother.
      { intros s e Hse. apply Hframe1.
        apply (BatchFrom_later _ _ _ _ _ Hb) in Hse. intros E. inversion E. lia. }
      assert (Processed parse env maxRetries start endPage (world st) (trace (world st'))
                        results w1) as Hproc1.
      { exists (world st), [], new. split_and!; auto; [|now rewrite Htr, Htr1'].
        apply (fetchAll_results env maxRetries _ _ _ _ (pages_NoDup start endPage Hs) Hfetch). }
      exists st', (new ++ EvSleep BATCH_DELAY_MS
                       :: EvWrite start endPage (recordsOf parse results) :: new1),
             (more1 ++ more).
      split_and!; auto.
      * rewrite Htr, Htr1', Htr1. now rewrite <- app_assoc.
      * rewrite Hfp, Hfp1. now rewrite <- app_assoc.
      * intros a b Ha. rewrite Hframe by lia. apply Hframe1. intros E. inversion E. lia.
      * intros s e Hse Hno.
        apply BatchFrom_cases in Hse as [[-> ->]|Hse].
        -- exists results, w1. split; [exact Hproc1|].
           destruct Hkept1 as [Hfailed Hfile1]. split.
           ++ intros p Hp. apply elem_of_app. left. auto.
           ++ fold endPage. fold endPage in Hfile1.
              destruct (disk env (trace w1) start endPage).
              ** destruct Hfile1 as [Hsame Hevery]. split.
                 --- rewrite Hframe by lia. exact Hsame.
                 --- intros p Hp. apply elem_of_app. left. auto.
              ** rewrite Hframe by lia. exact Hfile1.
        -- destruct (Hall s e Hse) as (results' & w1' & Hproc & Hkept).
           { rewrite (fileExistsNonEmpty_files s e (world st) (world st1)); auto. }
           exists results', w1'. split.
           ++ destruct Hproc as (w0 & before & after & Hw0 & Hf0 & Hp0 & Hres0 & Htr0).
              exists w0, (before ++ EvSleep BATCH_DELAY_MS
                                 :: EvWrite start endPage (recordsOf parse results) :: new1),
                     after.
              split_and!; auto.
              rewrite Hw0, Htr1', Htr1. now rewrite <- app_assoc.
           ++ destruct Hkept as [Hfailed Hkeep]. split.
              ** intros p Hp. apply elem_of_app. right. auto.
              ** destruct (disk env (trace w1') s e).
                 --- destruct Hkeep as [Hsame Hevery]. split.
                     +++ rewrite Hsame. now apply Hother.
                     +++ intros p Hp. apply elem_of_app. right. auto.
                 --- exact Hkeep.
      * intros p Hp. apply elem_of_app in Hp as [Hp|Hp].
        -- exists start, endPage, results, w1.
           assert (p ∈ seqZ start (endPage - start + 1)) as Hrange.
           { destruct (Hwhy1 p Hp) as [Hf|[_ Hin]]; auto.
             rewrite <- Hpages. now apply failedOf_pages. }
           apply elem_of_seqZ in Hrange.
           split_and!; auto; try lia.
           ++ split_and!; auto. exists 0. split; lia.
           ++ destruct (Hwhy1 p Hp) as [Hf|[Hd _]]; auto.
        -- destruct (Hback p Hp) as (s & e & results' & w1' & Hse & Hin & Hno & Hproc & Hwhy).
           exists s, e, results', w1'. split_and!; auto; try lia.
           ++ now apply BatchFrom_next.
           ++ rewrite <- (fileExistsNonEmpty_files s e (world st) (world st1)); auto.
           ++ destruct Hproc as (w0 & before & after & Hw0 & Hf0 & Hp0 & Hres0 & Htr0).
              exists w0, (before ++ EvSleep BATCH_DELAY_MS
                                 :: EvWrite start endPage (recordsOf parse results) :: new1),
                     after.
              split_and!; auto.
              rewrite Hw0, Htr1', Htr1. now rewrite <- app_assoc.
  - apply Z.leb_gt in Hle.
    exists st, [], []. split_and!; auto.
    + now rewrite app_nil_r.
    + intros s e ((k & Hk & ->) & Hse & _). nia.
    + intros p Hp. now apply elem_of_nil in Hp.
Qed.

End BatchByBatch.


Lemma setOf_fold (xs : list Z) :
  forall seen,
    NoDup seen ->
    let r := fold_left (fun seen x => if bool_decide (x ∈ seen) then seen else seen ++ [x])
                       xs seen in
    NoDup r /\ forall x, x ∈ r <-> x ∈ seen \/ x ∈ xs.
Proof.
  induction xs as [|y xs IH]; intros seen Hnd; cbn.
  - split; auto. intros x. split; [auto | intros [H|H]; auto; inversion H].
  - destruct (bool_decide (y ∈ seen)) eqn:Hy.
    + apply bool_decide_eq_true in Hy.
      destruct (IH seen Hnd) as [H1 H2]. split; auto.
      intros x. rewrite H2, elem_of_cons. split; [tauto|].
      intros [H|[->|H]]; auto.
    + apply bool_decide_eq_false in Hy.
      assert (NoDup (seen ++ [y])) as Hnd'.
      { apply NoDup_app. split_and!; auto.
        - intros x Hx Hx'. apply list_elem_of_singleton in Hx'. now subst.
        - apply NoDup_singleton. }
      destruct (IH (seen ++ [y]) Hnd') as [H1 H2]. split; auto.
      intros x. rewrite H2, elem_of_app, list_elem_of_singleton, elem_of_cons. tauto.
Qed.

Lemma setOf_spec (xs : list Z) :
  NoDup (Split.setOf xs) /\ forall x, x ∈ Split.setOf xs <-> x ∈ xs.
Proof.
  destruct (setOf_fold xs [] (NoDup_nil_2)) as [H1 H2]. split; auto.
  intros x. unfold Split.setOf. rewrite H2. split; [|auto].
  intros [H|H]; auto. inversion H.
Qed.

Lemma StronglySorted_le_lt (l : list Z) :
  StronglySorted Z.le l -> NoDup l -> StronglySorted Z.lt l.
Proof.
  induction 1 as [|x l Hs IH Hall]; intros Hnd; constructor.
  - apply IH. now apply NoDup_cons in Hnd as [_ ?].
  - apply NoDup_cons in Hnd as [Hx _].
    rewrite Forall_forall in *. intros y Hy.
    specialize (Hall y Hy).
    assert (x <> y) by (intros ->; auto). lia.
Qed.

(** The report of failed pages: ascending, without repetition, and with
    the same members as the pages recorded during the run. *)
Lemma failedUnique_spec (failedPages : list Z) :
  StronglySorted Z.lt (Split.sortNumeric (Split.setOf failedPages))
  /\ forall p, p ∈ Split.sortNumeric (Split.setOf failedPages) <-> p ∈ failedPages.
Proof.
  destruct (setOf_spec failedPages) as [Hnd Hin].
  unfold Split.sortNumeric. split.
  - apply StronglySorted_le_lt.
    + apply StronglySorted_merge_sort; apply _.
    + now rewrite merge_sort_Permutation.
  - intros p. rewrite merge_sort_Permutation. apply Hin.
Qed.


(** C3.  Partial-success persistence.  Every batch that is not skipped
    issues one write whose content is exactly the records extracted from
    the pages that were fetched and parsed, whatever the other pages did;
    the file holds them when the disk takes the write; the pages that
    failed are recorded.  Over a whole run no address is requested more
    often than the retry budget allows, so a failed page is not tried
    again, and the final report lists the recorded failed pages in
    ascending order, each once.  The run goes through every batch whose
    file it did not find and keeps its outcome: the file of the batch
    holds the records of its pages fetched and parsed when the disk took
    the write, and its failed pages are in the final report; and every
    page of the report failed in such a batch, or belongs to one whose
    write was rejected. *)
Theorem partial_success_persistence
        (parse : Dom.Page -> string -> Js.Completion (list Split.Brand))
        (env : Split.Env) (maxRetries : Z) :
  (forall startPage endPage st,
      1 <= startPage ->
      Split.BatchPersisted parse env maxRetries startPage endPage st)
  /\ (forall maxPages batchSize w,
         1 <= batchSize ->
         Split.RunReported parse env maxPages batchSize maxRetries w).
Proof.
  split.
  - intros startPage endPage st Hs.
    destruct (processBatch_spec parse env maxRetries startPage endPage st Hs)
      as (results & new & w1 & st' & Hall & _ & _ & Hpages & Hrun & Htr & Hok & Hmore).
    exists results, w1, st'. split_and!; auto.
    + intros Hd. destruct (Hok Hd) as (? & ? & ?). auto.
    + destruct Hmore as (more & Hfp & _). intros p Hp.
      rewrite Hfp, !elem_of_app. auto.
    + apply (fetchAll_results env maxRetries _ _ _ _
                              (pages_NoDup startPage endPage Hs) Hall).
  - intros maxPages batchSize w Hb.
    destruct (batches_spec parse env maxPages batchSize maxRetries Hb
                           (S (Z.to_nat maxPages)) 1 (Split.mkRun [] 0 w))
      as (st & new & more & Hrun & Htr & Hpol & _); [lia | lia |].
    destruct (batches_persist parse env maxPages batchSize maxRetries Hb
                              (S (Z.to_nat maxPages)) 1 (Split.mkRun [] 0 w))
      as (st2 & new2 & more2 & Hrun2 & _ & Hfp & _ & Hall & Hback); [lia | lia |].
    rewrite Hrun in Hrun2. inversion Hrun2. subst st2. clear Hrun2.
    cbn [Split.failedPages Split.world app] in Hfp, Hall, Hback.
    destruct (failedUnique_spec (Split.failedPages st)) as [Hsorted Hmem].
    eexists _, st, new. unfold Split.mainWith. rewrite Hrun.
    cbn [Split.final Split.failedUnique].
    split_and!; auto.
    + intros u. apply Hpol.
    + intros s e Hse Hno.
      destruct (Hall s e Hse Hno) as (results & w1 & Hproc & Hkept).
      exists results, w1. split; [exact Hproc|].
      apply (BatchKept_mono parse env s e _ _ more2); [|exact Hkept].
      intros p Hp. apply Hmem. now rewrite Hfp.
    + intros p Hp. apply Hback. rewrite <- Hfp. now apply Hmem.
Qed.

(** The scenario of the specification: a batch of five pages of which two
    are rejected on every attempt.  The file of the batch holds the three
    records of the other pages, and the report lists the two pages. *)
Example batch_of_five_with_two_failures :
  exists rep r1 r3 r5,
    Split.mainWith (fun html pageUrl => Js.Return (Split.parsePageByStructure html pageUrl))
                   6 flakyEnv 5 5 3 (Split.mkWorld [] ∅)
    = Some (Js.Return rep)
    /\ Split.failedUnique rep = [2; 4]
    /\ Split.saved rep = 3
    /\ Split.files (Split.final rep) !! (1, 5) = Some (Split.Json [r1; r3; r5])
    /\ map Split._source_page [r1; r3; r5] = [Some 1; Some 3; Some 5]
    /\ Split.requestsFor (Split.pageUrl 2) (Split.trace (Split.final rep)) = 3%nat.
Proof.
  eexists _, _, _, _. split; [vm_compute; reflexivity|].
  split; [reflexivity|]. split; [reflexivity|].
  split; [vm_compute; reflexivity|]. split; reflexivity.
Qed.


Lemma partial_success_persistence_witness :
  (1 <= 1 /\
   Split.BatchPersisted (fun html pageUrl => Js.Return (Split.parsePageByStructure html pageUrl))
                        flakyEnv Split.MAX_RETRIES 1 5
                        (Split.mkRun [] 0 (Split.mkWorld [] ∅)))
  /\ (1 <= Split.BATCH_SIZE /\
      Split.RunReported (fun html pageUrl => Js.Return (Split.parsePageByStructure html pageUrl))
                        flakyEnv 5 Split.BATCH_SIZE Split.MAX_RETRIES
                        (Split.mkWorld [] ∅))
  /\ (exists rep r1 r3 r5,
         Split.mainWith (fun html pageUrl => Js.Return (Split.parsePageByStructure html pageUrl))
                        (S (Z.to_nat 5)) flakyEnv 5 Split.BATCH_SIZE Split.MAX_RETRIES
                        (Split.mkWorld [] ∅)
         = Some (Js.Return rep)
         /\ Split.failedUnique rep = [2; 4]
         /\ Split.files (Split.final rep) !! (1, 5) = Some (Split.Json [r1; r3; r5])
         /\ map Split._source_page [r1; r3; r5] = [Some 1; Some 3; Some 5]).
Proof.
  destruct (partial_success_persistence
              (fun html pageUrl => Js.Return (Split.parsePageByStructure html pageUrl))
              flakyEnv Split.MAX_RETRIES) as [Hbatch Hrun].
  split; [|split]; [split; [lia|] | split; [unfold Split.BATCH_SIZE; lia|] |].
  - apply Hbatch. lia.
  - apply Hrun. unfold Split.BATCH_SIZE. lia.
  - destruct batch_of_five_with_two_failures
      as (rep & r1 & r3 & r5 & Hrep & Hfailed & _ & Hfile & Htags & _).
    exists rep, r1, r3, r5. split; [exact Hrep|]. auto.
Defined.


(** In that run the five pages are asked for before any answer is read:
    the oldest events of the run are the five requests, in page order. *)
Example requests_go_out_together :
  exists rep rest,
    Split.mainWith (fun html pageUrl => Js.Return (Split.parsePageByStructure html pageUrl))
                   6 flakyEnv 5 5 3 (Split.mkWorld [] ∅)
    = Some (Js.Return rep)
    /\ Split.trace (Split.final rep)
       = rest ++ rev (map (fun p => Split.EvGet (Split.pageUrl p)) [1; 2; 3; 4; 5]).
Proof.
  assert (exists rep,
             Split.mainWith
               (fun html pageUrl => Js.Return (Split.parsePageByStructure html pageUrl))
               6 flakyEnv 5 5 3 (Split.mkWorld [] ∅)
             = Some (Js.Return rep)) as [rep Hrep] by (eexists; vm_compute; reflexivity).
  exists rep, (take (length (Split.trace (Split.final rep)) - 5)
                    (Split.trace (Split.final rep))).
  split; [exact Hrep|].
  assert (Some (Js.Return rep)
          = Split.mainWith
              (fun html pageUrl => Js.Return (Split.parsePageByStructure html pageUrl))
              6 flakyEnv 5 5 3 (Split.mkWorld [] ∅)) as E by (symmetry; exact Hrep).
  vm_compute in E. injection E as ->. vm_compute. reflexivity.
Qed.


(** ** The resumable detail loop *)

Section ResumeFacts.
Import Js Details.
Variable parseBrandDetail : Dom.Page -> Completion Fields.

Lemma normalizeUrl_truthy s : truthy s = true -> truthy (normalizeUrl s) = true.
Proof.
  intros Ht. unfold normalizeUrl. rewrite Ht. cbn [negb].
  destruct (startsWith "http" s); [exact Ht|].
  destruct (startsWith "/" s); reflexivity.
Qed.

Lemma sourceUrlOf_normal item su :
  sourceUrlOf item = Some su -> truthy su = true /\ normalizeUrl su = su.
Proof.
  unfold sourceUrlOf.
  destruct (orElse (source_url item) (orElse (source item) (orElse (href item) (link item))))
    as [s|]; [|discriminate].
  destruct (truthy s) eqn:Ht; [|discriminate].
  intros H. inversion H. split.
  - now apply normalizeUrl_truthy.
  - apply normalizeUrl_twice.
Qed.

Lemma alreadyProcessed_iff outputArr su :
  truthy su = true -> normalizeUrl su = su -> trim su = su ->
  alreadyProcessed outputArr (Some su) = true <-> Some su ∈ map entryUrl outputArr.
Proof.
  intros Ht Hn Htrim. unfold alreadyProcessed. rewrite Ht. cbn [negb].
  rewrite Htrim, Hn. rewrite existsb_exists. split.
  - intros (e & He & Hu). apply list_elem_of_fmap. exists e.
    split; [|now apply list_elem_of_In].
    apply orb_true_iff in Hu as [Hu|Hu]; apply bool_decide_eq_true in Hu; congruence.
  - intros Hin. apply list_elem_of_fmap in Hin as (e & Hu & He).
    exists e. split; [now apply list_elem_of_In|].
    apply orb_true_iff. left. apply bool_decide_eq_true. congruence.
Qed.

(** An item already in the mirror of the store costs nothing: no request,
    no write, no sleep. *)
Lemma step_skip env i item outputArr w :
  alreadyProcessed outputArr (sourceUrlOf item) = true ->
  step parseBrandDetail env i item (outputArr, w) = (outputArr, w).
Proof. intros H. unfold step. now rewrite H. Qed.

Lemma appendToOutput_file env e outputArr w :
  file w = Array outputArr ->
  match appendToOutput env e w with
  | (Return _, w') => file w' = Array (outputArr ++ [e])
  | (Throw _, w') => file w' = Array outputArr
  end.
Proof.
  intros Hf. unfold appendToOutput, writeFile. rewrite Hf.
  destruct (disk env (trace w)); cbn; auto.
Qed.

Lemma appendToOutput_ok env e w :
  (forall h, disk env h = None) ->
  exists w', appendToOutput env e w = (Return tt, w').
Proof.
  intros Hd. unfold appendToOutput, writeFile. rewrite Hd. eauto.
Qed.

(** One turn of the loop on a clean item, when the server does not
    redirect: the mirror and the file stay equal, and the turn adds at most
    one record, whose address is the item's and is new. *)
Lemma step_spec env i item outputArr w su :
  NoRedirect env ->
  sourceUrlOf item = Some su -> trim su = su ->
  file w = Array outputArr ->
  exists outputArr' w',
    step parseBrandDetail env i item (outputArr, w) = (outputArr', w')
    /\ file w' = Array outputArr'
    /\ (outputArr' = outputArr
        \/ exists e, outputArr' = outputArr ++ [e]
                     /\ entryUrl e = Some su
                     /\ Some su ∉ map entryUrl outputArr)
    /\ ((forall h, disk env h = None) -> Some su ∈ map entryUrl outputArr').
Proof.
  intros Hnr Hsu Htrim Hfile.
  destruct (sourceUrlOf_normal item su Hsu) as [Ht Hn].
  pose proof (alreadyProcessed_iff outputArr su Ht Hn Htrim) as Hiff.
  unfold step. rewrite Hsu.
  destruct (alreadyProcessed outputArr (Some su)) eqn:Hap.
  - exists outputArr, w. split_and!; auto. intros _. now apply Hiff.
  - assert (Some su ∉ map entryUrl outputArr) as Hnew.
    { intros Hin. apply Hiff in Hin. congruence. }
    unfold fetchHtml.
    destruct (http env (trace w) (Some su)) as [data responseUrl|err] eqn:Hhttp.
    + rewrite (Hnr _ _ _ _ Hhttp).
      set (w1 := log (EvGet (Some su)) w).
      assert (file w1 = Array outputArr) as Hf1 by exact Hfile.
      destruct (parseBrandDetail data) as [fields|perr].
      * cbn [orElse]. rewrite Ht.
        set (parsed := Parsed (Some su) fields (clock env (trace w1)) i item).
        pose proof (appendToOutput_file env parsed outputArr w1 Hf1) as Hap1.
        destruct (appendToOutput env parsed w1) as [[[]|werr] w2] eqn:Happ.
        -- eexists _, _. split; [reflexivity|]. split_and!; auto.
           ++ right. exists parsed. auto.
           ++ intros _. rewrite map_app, elem_of_app. right. cbn. left.
        -- set (errObj := ErrorRecord (Some su) (errorText werr) (clock env (trace w2)) item).
           pose proof (appendToOutput_file env errObj outputArr w2 Hap1) as Hap2.
           destruct (appendToOutput env errObj w2) as [[[]|werr2] w3] eqn:Happ2.
           ++ eexists _, _. split; [reflexivity|]. split_and!; auto.
              ** right. exists errObj. auto.
              ** intros _. rewrite map_app, elem_of_app. right. cbn. left.
           ++ eexists _, _. split; [reflexivity|]. split_and!; auto.
              intros Hd. destruct (appendToOutput_ok env parsed w1 Hd) as [w' Hw'].
              congruence.
      * set (errObj := ErrorRecord (Some su) (errorText perr) (clock env (trace w1)) item).
        pose proof (appendToOutput_file env errObj outputArr w1 Hf1) as Hap2.
        destruct (appendToOutput env errObj w1) as [[[]|werr2] w3] eqn:Happ2.
        -- eexists _, _. split; [reflexivity|]. split_and!; auto.
           ++ right. exists errObj. auto.
           ++ intros _. rewrite map_app, elem_of_app. right. cbn. left.
        -- eexists _, _. split; [reflexivity|]. split_and!; auto.
           intros Hd. destruct (appendToOutput_ok env errObj w1 Hd) as [w' Hw'].
           congruence.
    + set (w1 := log (EvGet (Some su)) w).
      assert (file w1 = Array outputArr) as Hf1 by exact Hfile.
      set (errObj := ErrorRecord (Some su) (errorText (fetchFailed err))
                                 (clock env (trace w1)) item).
      pose proof (appendToOutput_file env errObj outputArr w1 Hf1) as Hap2.
      destruct (appendToOutput env errObj w1) as [[[]|werr2] w3] eqn:Happ2.
      * eexists _, _. split; [reflexivity|]. split_and!; auto.
        -- right. exists errObj. auto.
        -- intros _. rewrite map_app, elem_of_app. right. cbn. left.
      * eexists _, _. split; [reflexivity|]. split_and!; auto.
        intros Hd. destruct (appendToOutput_ok env errObj w1 Hd) as [w' Hw'].
        congruence.
Qed.

Lemma loop_spec env input :
  NoRedirect env ->
  Forall Clean input ->
  forall i outputArr w,
    file w = Array outputArr ->
    exists added w',
      loop parseBrandDetail env i input (outputArr, w) = (outputArr ++ added, w')
      /\ file w' = Array (outputArr ++ added)
      /\ NoDup (map entryUrl added)
      /\ (forall e, e ∈ added -> entryUrl e ∉ map entryUrl outputArr)
      /\ ((forall h, disk env h = None) ->
          forall item, item ∈ input ->
                       alreadyProcessed (outputArr ++ added) (sourceUrlOf item) = true).
Proof.
  intros Hnr. induction 1 as [|item input [su [Hsu Htrim]] Hclean IH];
    intros i outputArr w Hfile; cbn [loop].
  - exists [], w. rewrite app_nil_r. split_and!; auto.
    + constructor.
    + intros e He. inversion He.
    + intros _ item Hin. inversion Hin.
  - destruct (step_spec env i item outputArr w su Hnr Hsu Htrim Hfile)
      as (outputArr1 & w1 & Hstep & Hfile1 & Hadd & Hdone).
    rewrite Hstep.
    destruct (IH (i + 1) outputArr1 w1 Hfile1) as (added & w' & Hloop & Hfile' & Hnd & Hnew & Hall).
    destruct (sourceUrlOf_normal item su Hsu) as [Ht Hn].
    assert (forall arr, Some su ∈ map entryUrl arr ->
                        alreadyProcessed arr (sourceUrlOf item) = true) as Hseen.
    { intros arr Hin. rewrite Hsu. now apply alreadyProcessed_iff. }
    destruct Hadd as [->|(e & -> & Hu & Hfresh)].
    + exists added, w'. split_and!; auto.
      intros Hd item' Hin. apply elem_of_cons in Hin as [->|Hin]; [|now apply Hall].
      apply Hseen. rewrite map_app, elem_of_app. left. now apply Hdone.
    + exists (e :: added), w'.
      rewrite <- app_assoc in Hloop, Hfile'. cbn [app] in Hloop, Hfile'.
      split_and!; auto.
      * cbn. apply NoDup_cons. split; auto.
        intros Hin. apply list_elem_of_fmap in Hin as (e' & He' & Hin).
        apply (Hnew e' Hin). rewrite <- He', map_app, elem_of_app. right. left.
      * intros e' He'. apply elem_of_cons in He' as [->|He'].
        -- now rewrite Hu.
        -- intros Hin. apply (Hnew e' He'). rewrite map_app, elem_of_app. now left.
      * intros Hd item' Hin.
        replace (outputArr ++ e :: added) with ((outputArr ++ [e]) ++ added)
          by now rewrite <- app_assoc.
        apply elem_of_cons in Hin as [->|Hin]; [|now apply Hall].
        apply Hseen. rewrite map_app, elem_of_app. left. now apply Hdone.
Qed.

Lemma loop_skip_all env input :
  forall i outputArr w,
    (forall item, item ∈ input -> alreadyProcessed outputArr (sourceUrlOf item) = true) ->
    loop parseBrandDetail env i input (outputArr, w) = (outputArr, w).
Proof.
  induction input as [|item input IH]; intros i outputArr w Hall; cbn [loop]; auto.
  rewrite step_skip by (apply Hall; left).
  apply IH. intros item' Hin. apply Hall. now right.
Qed.

Lemma ensureOutputFile_spec env w :
  match ensureOutputFile env w with
  | (Return outputArr, w') => file w' = Array outputArr /\ outputArr = stored (file w)
  | (Throw _, w') => file w' = file w
  end.
Proof.
  unfold ensureOutputFile, writeFile.
  destruct (file w) eqn:Hf; cbn; auto;
    destruct (disk env (trace w)); cbn; auto.
  destruct (disk env _); cbn; auto.
Qed.

Lemma ensureOutputFile_ok env w :
  (forall h, disk env h = None) ->
  exists outputArr w', ensureOutputFile env w = (Return outputArr, w').
Proof.
  intros Hd. unfold ensureOutputFile, writeFile.
  destruct (file w); rewrite ?Hd; eauto.
Qed.

End ResumeFacts.


(** C1 (as amended).  Before any request, the loop looks for the item's
    normalized address among the [source_url]s of the output array and
    leaves the item alone when it is there.  When every item has an
    address without surrounding white space and the server reports no
    other final address than the one asked, a run only appends records
    whose [source_url] is new to the store and pairwise distinct; and if
    the disk took every write of that run, a second run over the same
    input, in any environment, changes nothing: no request, no write. *)
Theorem resume_idempotent
        (parse : Dom.Page -> Js.Completion Details.Fields)
        (env env2 : Details.Env) (input : list Details.Item) (w : Details.World) :
  Details.NoRedirect env ->
  Forall Details.Clean input ->
  (forall i item outputArr w0,
      Details.alreadyProcessed outputArr (Details.sourceUrlOf item) = true ->
      Details.step parse env i item (outputArr, w0) = (outputArr, w0))
  /\ (exists added,
         Details.stored (Details.file (snd (Details.main parse env input w)))
         = Details.stored (Details.file w) ++ added
         /\ NoDup (map Details.entryUrl added)
         /\ forall e, e ∈ added ->
                      Details.entryUrl e ∉ map Details.entryUrl (Details.stored (Details.file w)))
  /\ ((forall h, Details.disk env h = None) ->
      Details.main parse env2 input (snd (Details.main parse env input w))
      = (Js.Return tt, snd (Details.main parse env input w))).
Proof.
  intros Hnr Hclean. split; [intros; now apply step_skip|].
  unfold Details.main at 1 3 4.
  pose proof (ensureOutputFile_spec env w) as Hens.
  destruct (Details.ensureOutputFile env w) as [[outputArr|err] w0] eqn:He.
  - destruct Hens as [Hfile ->].
    destruct (loop_spec parse env input Hnr Hclean 0 _ w0 Hfile)
      as (added & w1 & Hloop & Hfile1 & Hnd & Hnew & Hall).
    rewrite Hloop. cbn [snd]. split.
    + exists added. rewrite Hfile1. cbn. auto.
    + intros Hd. unfold Details.main.
      pose proof (ensureOutputFile_spec env2 w1) as Hens2.
      unfold Details.ensureOutputFile in *. rewrite Hfile1 in *.
      rewrite loop_skip_all; auto.
  - cbn [snd]. split.
    + exists []. rewrite Hens, app_nil_r. split_and!; auto.
      * constructor.
      * intros e Hin. inversion Hin.
    + intros Hd. destruct (ensureOutputFile_ok env w Hd) as (arr & w' & Hok).
      congruence.
Qed.

Lemma resume_idempotent_witness :
  Details.NoRedirect plainEnv /\ Forall Details.Clean [brandItem] /\
  (forall i item outputArr w0,
      Details.alreadyProcessed outputArr (Details.sourceUrlOf item) = true ->
      Details.step rawParse plainEnv i item (outputArr, w0) = (outputArr, w0))
  /\ (exists added,
         Details.stored (Details.file (snd (Details.main rawParse plainEnv [brandItem]
                                                          (Details.mkWorld [] Details.Missing))))
         = Details.stored Details.Missing ++ added
         /\ NoDup (map Details.entryUrl added)
         /\ forall e, e ∈ added ->
                      Details.entryUrl e ∉ map Details.entryUrl (Details.stored Details.Missing))
  /\ (forall h, Details.disk plainEnv h = None)
  /\ Details.main rawParse redirectEnv [brandItem]
                  (snd (Details.main rawParse plainEnv [brandItem]
                                     (Details.mkWorld [] Details.Missing)))
     = (Js.Return tt, snd (Details.main rawParse plainEnv [brandItem]
                                        (Details.mkWorld [] Details.Missing))).
Proof.
  assert (Details.NoRedirect plainEnv) as Hnr.
  { intros h url data responseUrl H. inversion H. reflexivity. }
  assert (Forall Details.Clean [brandItem]) as Hclean.
  { constructor; [|constructor].
    exists "https://medex.com.bd/brands/1". split; reflexivity. }
  assert (forall h, Details.disk plainEnv h = None) as Hdisk by reflexivity.
  destruct (resume_idempotent rawParse plainEnv redirectEnv [brandItem]
                              (Details.mkWorld [] Details.Missing) Hnr Hclean)
    as (Hskip & Hadded & Hsecond).
  split; [exact Hnr|]. split; [exact Hclean|]. split; [exact Hskip|].
  split; [exact Hadded|]. split; [exact Hdisk|]. exact (Hsecond Hdisk).
Defined.

(** C1 as first stated fails in two ways.  When the server
    redirects, the record is stored under the final address; the next run
    does not find the item's own address in the store, fetches it again and
    appends a second record with the [source_url] that the store already
    holds.  An item without any address is never found in the store: each
    run appends one more error record whose [source_url] is [null].  And
    an address that ends in a space is stored with the space and looked up
    without it, so that every run appends its record again. *)
Lemma resume_appends_duplicates :
  (let w0 := Details.mkWorld [] Details.Missing in
   let w1 := snd (Details.main rawParse redirectEnv [brandItem] w0) in
   let w2 := snd (Details.main rawParse redirectEnv [brandItem] w1) in
   exists e1 e2,
     Details.stored (Details.file w1) = [e1]
     /\ Details.stored (Details.file w2) = [e1; e2]
     /\ Details.entryUrl e2 = Details.entryUrl e1
     /\ Details.entryUrl e2 = Some "https://medex.com.bd/brands/1/napa-500-mg-tablet"
     /\ Details.file w2 <> Details.file w1)
  /\ (let w0 := Details.mkWorld [] Details.Missing in
      let w1 := snd (Details.main rawParse downEnv [itemWithoutUrl] w0) in
      let w2 := snd (Details.main rawParse downEnv [itemWithoutUrl] w1) in
      exists e1 e2,
        Details.stored (Details.file w1) = [e1]
        /\ Details.stored (Details.file w2) = [e1; e2]
        /\ Details.entryUrl e1 = None /\ Details.entryUrl e2 = None
        /\ Details.file w2 <> Details.file w1)
  /\ (let w0 := Details.mkWorld [] Details.Missing in
      let w1 := snd (Details.main rawParse plainEnv [paddedItem] w0) in
      let w2 := snd (Details.main rawParse plainEnv [paddedItem] w1) in
      exists e1 e2,
        Details.stored (Details.file w1) = [e1]
        /\ Details.stored (Details.file w2) = [e1; e2]
        /\ Details.entryUrl e2 = Details.entryUrl e1
        /\ Details.entryUrl e2 = Some "https://medex.com.bd/brands/1 "
        /\ Details.file w2 <> Details.file w1).
Proof.
  cbv zeta. split; [|split].
  - eexists _, _.
    split; [vm_compute; reflexivity|].
    split; [vm_compute; reflexivity|].
    split; [reflexivity|]. split; [reflexivity|].
    intros H. vm_compute in H. discriminate H.
  - eexists _, _.
    split; [vm_compute; reflexivity|].
    split; [vm_compute; reflexivity|].
    split; [reflexivity|]. split; [reflexivity|].
    intros H. vm_compute in H. discriminate H.
  - eexists _, _.
    split; [vm_compute; reflexivity|].
    split; [vm_compute; reflexivity|].
    split; [reflexivity|]. split; [reflexivity|].
    intros H. vm_compute in H. discriminate H.
Qed.


(** ** The section parser *)

Section SectionParser.
Import Js Dom Structured.







End SectionParser.




(** ** White-space normalisation is idempotent *)

Section NormWs.
Import Js.

Lemma tidy_collapse l : forall b, tidy b (collapse b l) = true.
Proof.
  induction l as [|c l IH]; intros b; cbn; auto.
  destruct (isSpace c) eqn:Hc.
  - destruct b; [apply IH|]. cbn. apply IH.
  - cbn. rewrite Hc. apply IH.
Qed.

Lemma collapse_tidy l : forall b, tidy b l = true -> collapse b l = l.
Proof.
  induction l as [|c l IH]; intros b; cbn; auto.
  destruct (isSpace c) eqn:Hc.
  - intros H. apply andb_true_iff in H as [H Ht]. apply andb_true_iff in H as [He Hb].
    apply Ascii.eqb_eq in He. destruct b; [discriminate|]. subst c.
    now rewrite (IH true Ht).
  - intros H. now rewrite (IH false H).
Qed.

Lemma tidy_weaken l : forall b, tidy b l = true -> tidy false l = true.
Proof.
  destruct l as [|c l]; intros b; cbn; auto.
  destruct (isSpace c); auto.
  intros H. apply andb_true_iff in H as [H Ht]. apply andb_true_iff in H as [He _].
  now rewrite He, Ht.
Qed.

Lemma tidy_dropSpaces l : forall b, tidy b l = true -> tidy false (dropSpaces l) = true.
Proof.
  induction l as [|c l IH]; intros b; cbn; auto.
  destruct (isSpace c) eqn:Hc.
  - intros H. apply andb_true_iff in H as [_ Ht]. now apply (IH true).
  - intros H. cbn. now rewrite Hc.
Qed.

Lemma tidy_prefix x y : forall b, tidy b (x ++ y) = true -> tidy b x = true.
Proof.
  induction x as [|c x IH]; intros b; cbn; auto.
  destruct (isSpace c).
  - intros H. apply andb_true_iff in H as [H Ht]. rewrite H. now apply IH.
  - apply IH.
Qed.

Lemma dropSpaces_noLead l : noLead (dropSpaces l).
Proof.
  induction l as [|c l IH]; cbn; auto.
  destruct (isSpace c) eqn:Hc; cbn; auto.
Qed.

Lemma dropSpaces_id l : noLead l -> dropSpaces l = l.
Proof. destruct l as [|c l]; cbn; auto. now intros ->. Qed.

Lemma dropSpaces_suffix l : exists pre, l = pre ++ dropSpaces l.
Proof.
  induction l as [|c l [pre IH]]; cbn.
  - now exists [].
  - destruct (isSpace c).
    + exists (c :: pre). cbn. now f_equal.
    + now exists [].
Qed.

Lemma dropSpaces_snoc x c :
  isSpace c = false -> exists y, dropSpaces (x ++ [c]) = y ++ [c].
Proof.
  intros Hc. induction x as [|d x [y IH]]; cbn.
  - rewrite Hc. now exists [].
  - destruct (isSpace d).
    + now exists y.
    + now exists (d :: x).
Qed.

Lemma trimList_noLead l : noLead (trimList l) /\ noLead (rev (trimList l)).
Proof.
  unfold trimList. rewrite rev_involutive. split; [|apply dropSpaces_noLead].
  pose proof (dropSpaces_noLead l) as Ha.
  destruct (dropSpaces l) as [|c a]; cbn; auto.
  cbn in Ha. destruct (dropSpaces_snoc (rev a) c Ha) as [y Hy].
  rewrite Hy, rev_app_distr. cbn. exact Ha.
Qed.

Lemma trimList_id l : noLead l -> noLead (rev l) -> trimList l = l.
Proof.
  intros H1 H2. unfold trimList.
  rewrite (dropSpaces_id l H1), (dropSpaces_id (rev l) H2). apply rev_involutive.
Qed.

Lemma trimList_tidy l : tidy false l = true -> tidy false (trimList l) = true.
Proof.
  intros Ht. unfold trimList.
  pose proof (tidy_dropSpaces l false Ht) as Ha.
  destruct (dropSpaces_suffix (rev (dropSpaces l))) as [pre Hpre].
  apply (f_equal (@rev ascii)) in Hpre.
  rewrite rev_involutive, rev_app_distr in Hpre.
  rewrite Hpre in Ha. now apply tidy_prefix in Ha.
Qed.

Lemma normWs_idempotent s : normWs (normWs s) = normWs s.
Proof.
  unfold normWs. rewrite list_ascii_of_string_of_list_ascii.
  set (l := collapse false (list_ascii_of_string s)).
  assert (tidy false (trimList l) = true) as Ht
      by (apply trimList_tidy, tidy_collapse).
  rewrite (collapse_tidy _ _ Ht).
  destruct (trimList_noLead l) as [H1 H2].
  now rewrite (trimList_id _ H1 H2).
Qed.

End NormWs.


(** ** The dosage parser *)

Section DosageParser.
Import Js Dom Structured Structured.Dosage.

Lemma filter_normalized (l : list string) :
  Forall (fun t => truthy t = true /\ normWs t = t) l ->
  filter (fun t => truthy t) (map normWs l) = l.
Proof.
  induction 1 as [|t l [Ht Hn] _ IH]; cbn [map]; auto.
  rewrite filter_cons, Hn. rewrite decide_True by now apply Is_true_true.
  now rewrite IH.
Qed.

Lemma liTexts_normalized lst :
  Forall (fun t => truthy t = true /\ normWs t = t) (liTexts lst).
Proof.
  unfold liTexts. apply Forall_forall. intros t Ht.
  apply list_elem_of_filter in Ht as [Ht Hin]. apply Is_true_true in Ht.
  split; auto.
  apply list_elem_of_fmap in Hin as (x & -> & _). apply normWs_idempotent.
Qed.

Lemma dosageItem_bold groups li :
  strongChildren li <> [] ->
  dosageItem groups li = Return (groups ++ [itemGroup li]).
Proof.
  intros Hs. unfold dosageItem, itemGroup.
  destruct (strongChildren li) as [|s rest]; [congruence|]. cbn [head option_list].
  set (childInstr := match head (map self (filter (fun x => hasTag "ul" (self x)) (below li))) with
                     | Some sub => liTexts sub
                     | None => []
                     end).
  assert (filter (fun t => truthy t) (map normWs childInstr) = childInstr) as Hinstr.
  { subst childInstr. destruct (head _) as [sub|]; [|reflexivity].
    apply filter_normalized, liTexts_normalized. }
  unfold pushGroup. rewrite Hinstr.
  destruct (truthy (normWs (textWithoutChildren (hasTag "strong") li))) eqn:Ht.
  - rewrite bool_decide_eq_false_2 by discriminate.
    cbn [String.concat]. now rewrite normWs_idempotent.
  - now rewrite bool_decide_eq_true_2.
Qed.

Lemma forEach_bold lis :
  Forall (fun li => strongChildren li <> []) lis ->
  forall groups,
    forEach dosageItem lis groups = Return (groups ++ map itemGroup lis).
Proof.
  induction 1 as [|li lis Hli _ IH]; intros groups; cbn [forEach map].
  - now rewrite app_nil_r.
  - rewrite (dosageItem_bold groups li Hli). cbn [andThen].
    rewrite IH. now rewrite <- app_assoc.
Qed.

(** The flush before a list never throws: the prose it passes is a list. *)
Lemma flush_returns w :
  exists w', flush w = Return w'
             /\ (w' = w \/ exists g, w' = mkWalk (dosageArray w ++ [g]) None [] []).
Proof.
  unfold flush. destruct (_ || _ || _).
  - cbn. eexists. split; [reflexivity|]. right. eauto.
  - eauto.
Qed.

Lemma liHasStrong_all ul :
  liChildren ul <> [] ->
  Forall (fun li => strongChildren li <> []) (liChildren ul) ->
  liHasStrong ul = true.
Proof.
  unfold liHasStrong. destruct (liChildren ul) as [|li lis]; [congruence|].
  intros _ H. apply Forall_cons in H as [H _]. cbn.
  now rewrite bool_decide_eq_false_2.
Qed.

Lemma liHasStrong_none ul :
  Forall (fun li => strongChildren li = []) (liChildren ul) ->
  liHasStrong ul = false.
Proof.
  unfold liHasStrong. induction 1 as [|li lis Hli _ IH]; cbn; auto.
  now rewrite bool_decide_eq_true_2.
Qed.

End DosageParser.

(** In a list where some items have a bold child and others do not, the
    item without one makes [pushGroup] read the length of [null]: the
    whole extraction throws. *)
Remark dosage_mixed_list_throws :
  Structured.Dosage.dosageStep dosageStart mixedList = Js.Throw Js.nullLength.
Proof. vm_compute. reflexivity. Qed.


(** ** The listing extractors *)

(** A selector given to [$dataRow.find] may be matched, in its outermost
    compound, by the row itself: the strength is found in a row that
    carries the class of the strength cell. *)
Example strength_on_the_row_itself :
  map Split.strength (Split.parsePageByStructure rowWithStrength "https://medex.com.bd/brands")
  = [Some "5 mg"].
Proof. vm_compute. reflexivity. Qed.

Lemma Split_parseEntry_name a r :
  Split.parseEntry a = Some r -> Js.truthy (Split.name r) = true.
Proof.
  unfold Split.parseEntry. cbv zeta.
  destruct (bool_decide _); [discriminate|].
  match goal with
  | |- (if negb (Js.truthy ?n) then _ else _) = _ -> _ => destruct (Js.truthy n) eqn:E
  end; cbn [negb]; [|discriminate].
  intros H. inversion H. exact E.
Qed.

Lemma Split_parseEntry_url a r :
  Split.parseEntry a = Some r ->
  Split.source_url r
  = (if Js.startsWith "http" (default "" (Dom.attr "href" a))
     then default "" (Dom.attr "href" a)
     else ORIGIN +:+ default "" (Dom.attr "href" a)).
Proof.
  unfold Split.parseEntry. cbv zeta.
  destruct (bool_decide _); [discriminate|].
  match goal with
  | |- (if negb (Js.truthy ?n) then _ else _) = _ -> _ => destruct (Js.truthy n) eqn:E
  end; cbn [negb]; [|discriminate].
  intros H. inversion H. reflexivity.
Qed.

Lemma startsWith_slash_not_http h :
  Js.startsWith "/medicine/" h = true -> Js.startsWith "http" h = false.
Proof.
  destruct h as [|c h]; [discriminate|]. unfold Js.startsWith.
  change (String.prefix "/medicine/" (String c h))
    with (if Ascii.ascii_dec "/" c then String.prefix "medicine/" h else false).
  destruct (Ascii.ascii_dec "/" c) as [<-|]; [intros _; reflexivity | discriminate].
Qed.

Lemma Bissoy_parseEntry_spec li r :
  Bissoy.parseEntry li = Some r ->
  Js.truthy (Bissoy.name_en r) = true
  /\ exists a href,
      head (map Dom.self (filter (fun x => Bissoy.medicineLink (Dom.self x)) (Dom.below li)))
      = Some a
      /\ Dom.attr "href" a = Some href
      /\ Js.startsWith "/medicine/" href = true
      /\ Bissoy.source_url r = Bissoy.ORIGIN +:+ href.
Proof.
  unfold Bissoy.parseEntry. cbv zeta.
  destruct (head (map Dom.self _)) as [a|] eqn:Ha; cbn [mbind option_bind default].
  2:{ cbn. discriminate. }
  assert (Bissoy.medicineLink a = true) as Hlink.
  { apply head_Some_elem_of in Ha. apply list_elem_of_fmap in Ha as (x & -> & Hx).
    apply list_elem_of_filter in Hx as [Hx _]. now apply Is_true_true. }
  unfold Bissoy.medicineLink in Hlink. apply andb_true_iff in Hlink as [_ Hlink].
  destruct (Dom.attr "href" a) as [href|] eqn:Hhref; [|discriminate].
  change (default "" (Some href)) with href.
  rewrite (startsWith_slash_not_http href Hlink).
  destruct (negb _ || _); [discriminate|].
  destruct (_ !! 0%nat) as [name_en|]; [|discriminate].
  destruct (Js.truthy name_en) eqn:Hn; cbn [negb]; [|discriminate].
  intros H. inversion H. cbn. split; auto.
  exists a, href. auto.
Qed.

Lemma Bissoy_parseEntry_discards li :
  filter (fun x => Bissoy.medicineLink (Dom.self x)) (Dom.below li) = [] ->
  Bissoy.parseEntry li = None.
Proof.
  intros H. unfold Bissoy.parseEntry. rewrite H. reflexivity.
Qed.


(** C7 (as amended).  Every record of either listing extractor has a
    non-empty name.  The Bissoy extractor keeps an entry only when it has
    a link whose [href] starts with [/medicine/], and the record's address
    is the origin followed by that [href]; an entry without such a link is
    discarded.  The MedEx extractor checks no prefix: the address of a
    record is the [href] of its entry, or the origin followed by it. *)
Theorem listing_discard_rules :
  (forall html pageUrl r,
      r ∈ Split.parsePageByStructure html pageUrl -> Js.truthy (Split.name r) = true)
  /\ (forall html pageUrl r,
         r ∈ Bissoy.parsePageByStructure html pageUrl ->
         Js.truthy (Bissoy.name_en r) = true
         /\ exists href, Js.startsWith "/medicine/" href = true
                         /\ Bissoy.source_url r = Bissoy.ORIGIN +:+ href)
  /\ (forall li,
         filter (fun x => Bissoy.medicineLink (Dom.self x)) (Dom.below li) = [] ->
         Bissoy.parseEntry li = None)
  /\ (forall a r,
         Split.parseEntry a = Some r ->
         Split.source_url r
         = (if Js.startsWith "http" (default "" (Dom.attr "href" a))
            then default "" (Dom.attr "href" a)
            else ORIGIN +:+ default "" (Dom.attr "href" a))).
Proof.
  split_and!.
  - intros html pageUrl r Hr. unfold Split.parsePageByStructure in Hr.
    apply list_elem_of_omap in Hr as (a & _ & Ha).
    now apply (Split_parseEntry_name a).
  - intros html pageUrl r Hr. unfold Bissoy.parsePageByStructure in Hr.
    apply list_elem_of_omap in Hr as (li & _ & Hli).
    destruct (Bissoy_parseEntry_spec li r Hli) as (Hn & a & href & _ & _ & Hp & Hu).
    split; auto. exists href. auto.
  - apply Bissoy_parseEntry_discards.
  - apply Split_parseEntry_url.
Qed.

Lemma listing_discard_rules_witness :
  (exists r,
      r ∈ Split.parsePageByStructure listingWithoutHref "https://medex.com.bd/brands"
      /\ Js.truthy (Split.name r) = true)
  /\ (exists r,
         r ∈ Bissoy.parsePageByStructure bissoyListing "https://www.bissoy.com/medicines"
         /\ Js.truthy (Bissoy.name_en r) = true
         /\ exists href, Js.startsWith "/medicine/" href = true
                         /\ Bissoy.source_url r = Bissoy.ORIGIN +:+ href)
  /\ (filter (fun x => Bissoy.medicineLink (Dom.self x))
             (Dom.below (Dom.Elem "li" [] [Dom.Elem "a" [("href", "/other/2")] []])) = []
      /\ Bissoy.parseEntry (Dom.Elem "li" [] [Dom.Elem "a" [("href", "/other/2")] []]) = None)
  /\ (exists a r,
         Split.parseEntry a = Some r
         /\ Split.source_url r
            = (if Js.startsWith "http" (default "" (Dom.attr "href" a))
               then default "" (Dom.attr "href" a)
               else ORIGIN +:+ default "" (Dom.attr "href" a))).
Proof.
  destruct listing_discard_rules as (Hname & Hbissoy & Hdrop & Hurl).
  assert (exists r, Split.parsePageByStructure listingWithoutHref
                                               "https://medex.com.bd/brands" = [r])
    as [r Hr] by (eexists; vm_compute; reflexivity).
  assert (exists m, Bissoy.parsePageByStructure bissoyListing
                                                "https://www.bissoy.com/medicines" = [m])
    as [m Hm] by (eexists; vm_compute; reflexivity).
  assert (exists a, head listingWithoutHref = Some a /\ Split.parseEntry a = Some r)
    as (a & _ & Ha).
  { eexists. split; [reflexivity|]. vm_compute in Hr. vm_compute.
    now inversion Hr. }
  assert (r ∈ Split.parsePageByStructure listingWithoutHref "https://medex.com.bd/brands")
    as Hin by (rewrite Hr; left).
  assert (m ∈ Bissoy.parsePageByStructure bissoyListing "https://www.bissoy.com/medicines")
    as Him by (rewrite Hm; left).
  split; [|split; [|split]].
  - exists r. split; [exact Hin|]. exact (Hname _ _ _ Hin).
  - exists m. split; [exact Him|]. exact (Hbissoy _ _ _ Him).
  - split; [reflexivity|]. apply Hdrop. reflexivity.
  - exists a, r. split; [exact Ha|]. exact (Hurl _ _ Ha).
Defined.

(** C7 as first stated fails on the MedEx extractor: an entry whose
    link has no [href] at all is emitted, with the bare origin as its
    address. *)
Lemma medex_listing_keeps_entry_without_link :
  exists r,
    Split.parsePageByStructure listingWithoutHref "https://medex.com.bd/brands" = [r]
    /\ Split.source_url r = "https://medex.com.bd"
    /\ Js.startsWith "https://medex.com.bd/brands/" (Split.source_url r) = false.
Proof.
  eexists. split; [vm_compute; reflexivity|]. split; reflexivity.
Qed.


(** ** Pricing *)

Section Pricing.
Import Js Structured.

Lemma dedupe_spec entries :
  forall seenPK : gset string,
    let packages := dedupe seenPK entries in
    NoDup (map pkKey packages)
    /\ sublist packages entries
    /\ (forall p, p ∈ packages ->
                  (pkKey p ∉ seenPK)
                  /\ exists l1 l2, entries = l1 ++ p :: l2 /\ pkKey p ∉ map pkKey l1)
    /\ (forall e, e ∈ entries -> pkKey e ∈ seenPK \/ pkKey e ∈ map pkKey packages).
Proof.
  induction entries as [|e entries IH]; intros seenPK; cbn [dedupe].
  - cbn. split_and!.
    + constructor.
    + constructor.
    + intros p Hp. inversion Hp.
    + intros x Hx. inversion Hx.
  - destruct (bool_decide (pkKey e ∈ seenPK)) eqn:Hseen.
    + apply bool_decide_eq_true in Hseen.
      destruct (IH seenPK) as (Hnd & Hsub & Hfirst & Hcover). cbv zeta. split_and!; auto.
      * now apply sublist_cons.
      * intros p Hp. destruct (Hfirst p Hp) as (Hnew & l1 & l2 & -> & Hl1).
        split; auto. exists (e :: l1), l2. split; auto.
        cbn. rewrite not_elem_of_cons. split; auto. intros Heq. congruence.
      * intros x Hx. apply elem_of_cons in Hx as [->|Hx]; auto.
    + apply bool_decide_eq_false in Hseen.
      destruct (IH ({[pkKey e]} ∪ seenPK)) as (Hnd & Hsub & Hfirst & Hcover).
      cbv zeta. split_and!.
      * cbn. apply NoDup_cons. split; auto.
        intros Hin. apply list_elem_of_fmap in Hin as (p & Hk & Hp).
        destruct (Hfirst p Hp) as (Hnew & _). apply Hnew. rewrite Hk.
        apply elem_of_union. left. now apply elem_of_singleton.
      * now apply sublist_skip.
      * intros p Hp. apply elem_of_cons in Hp as [->|Hp].
        -- split; auto. exists [], entries. split; auto. cbn. apply not_elem_of_nil.
        -- destruct (Hfirst p Hp) as (Hnew & l1 & l2 & -> & Hl1).
           split; [intros Hin; apply Hnew, elem_of_union; now right|].
           exists (e :: l1), l2. split; auto.
           cbn. rewrite not_elem_of_cons. split; auto. intros Heq. apply Hnew.
           rewrite Heq. apply elem_of_union. left. now apply elem_of_singleton.
      * intros x Hx. apply elem_of_cons in Hx as [->|Hx].
        -- right. cbn. left.
        -- destruct (Hcover x Hx) as [H|H].
           ++ apply elem_of_union in H as [H|H]; auto.
              apply elem_of_singleton in H. right. cbn. rewrite H. left.
           ++ right. cbn. now right.
Qed.

Lemma split_at_bar (a b x y : string) :
  ~ In "|"%char (list_ascii_of_string a) ->
  ~ In "|"%char (list_ascii_of_string b) ->
  a +:+ String "|" x = b +:+ String "|" y -> a = b /\ x = y.
Proof.
  revert b. induction a as [|c a IH]; intros [|d b] Ha Hb; cbn.
  - intros H. now inversion H.
  - intros H. inversion H. subst d. exfalso. apply Hb. now left.
  - intros H. inversion H. subst c. exfalso. apply Ha. now left.
  - intros H. inversion H. subst d.
    destruct (IH b) as [-> ->]; auto.
    + intros Hin. apply Ha. now right.
    + intros Hin. apply Hb. now right.
Qed.

Lemma plainText_noBar v : plainText v -> ~ In "|"%char (list_ascii_of_string (orEmpty v)).
Proof. destruct v as [s|]; cbn; [now intros [_ H] | auto]. Qed.

Lemma orEmpty_inj v1 v2 : plainText v1 -> plainText v2 -> orEmpty v1 = orEmpty v2 -> v1 = v2.
Proof.
  destruct v1 as [s1|], v2 as [s2|]; cbn; auto.
  - now intros _ _ ->.
  - intros [H _] _ ->. congruence.
  - intros _ [H _] <-. congruence.
Qed.

Lemma pkKey_exact p q :
  PlainTexts p -> PlainTexts q ->
  pkKey p = pkKey q <-> label p = label q /\ price p = price q.
Proof.
  intros [Hlp Hpp] [Hlq Hpq]. unfold pkKey. split.
  - intros H.
    apply split_at_bar in H as [Hl Hr]; auto using plainText_noBar.
    inversion Hr as [Hr']. split; now apply orEmpty_inj.
  - now intros [-> ->].
Qed.

Lemma nullIfFalsy_None v : nullIfFalsy v = None <-> falsy v = true.
Proof.
  unfold nullIfFalsy. destruct (falsy v) eqn:E; split; auto; try discriminate.
  intros ->. discriminate.
Qed.

Lemma nullIfFalsy_truthy v : falsy v = false -> nullIfFalsy v = v.
Proof. unfold nullIfFalsy. now intros ->. Qed.

Lemma nullIfFalsy_twice v : nullIfFalsy (nullIfFalsy v) = nullIfFalsy v.
Proof. unfold nullIfFalsy. destruct (falsy v) eqn:E; cbn; auto. now rewrite E. Qed.

Lemma firstPriced_priced word packages p :
  firstPriced word packages = Some p -> falsy (price p) = false.
Proof.
  unfold firstPriced. induction packages as [|q packages IH]; cbn; [discriminate|].
  destruct (Str.containsCI word (orEmpty (label q)) && negb (falsy (price q))) eqn:E; auto.
  cbn. intros H. inversion H. subst q.
  apply andb_true_iff in E as [_ E]. now apply negb_true_iff in E.
Qed.

Lemma firstSized_sized packages p :
  firstSized packages = Some p -> falsy (pack_size_info p) = false.
Proof.
  unfold firstSized. induction packages as [|q packages IH]; cbn; [discriminate|].
  destruct (negb (falsy (pack_size_info q))) eqn:E; auto.
  cbn. intros H. inversion H. subst q. now apply negb_true_iff in E.
Qed.

(** The loop over the packages, read backwards from its result. *)
Lemma resolve_fold packages :
  forall acc,
    let r := fold_left resolveStep packages acc in
    nullIfFalsy (unit_price r)
    = (if falsy (unit_price acc)
       then match firstPriced "unit price" packages with
            | Some p => price p
            | None => None
            end
       else unit_price acc)
    /\ nullIfFalsy (strip_price r)
       = (if falsy (strip_price acc)
          then match firstPriced "strip price" packages with
               | Some p => price p
               | None => None
               end
          else strip_price acc)
    /\ nullIfFalsy (size_info r)
       = (if falsy (size_info acc)
          then match firstSized packages with
               | Some p => pack_size_info p
               | None => None
               end
          else size_info acc).
Proof.
  induction packages as [|p packages IH]; intros acc; cbn [fold_left].
  - cbv zeta. unfold firstPriced, firstSized. cbn.
    split_and!;
      match goal with
      | |- nullIfFalsy ?v = _ =>
          destruct (falsy v) eqn:E;
            [now apply nullIfFalsy_None | now apply nullIfFalsy_truthy]
      end.
  - destruct (IH (resolveStep acc p)) as (Hu & Hs & Hz).
    cbv zeta. rewrite Hu, Hs, Hz. clear Hu Hs Hz IH.
    unfold resolveStep, firstPriced, firstSized. cbn [unit_price strip_price size_info List.filter].
    split_and!.
    + destruct (falsy (unit_price acc)) eqn:Ea; cbn [andb]; [|now rewrite Ea].
      destruct (Str.containsCI "unit price" (orEmpty (label p))); cbn [andb]; [|now rewrite Ea].
      destruct (falsy (price p)) eqn:Ep; cbn [negb head]; rewrite ?Ep; auto.
    + destruct (falsy (strip_price acc)) eqn:Ea; cbn [andb]; [|now rewrite Ea].
      destruct (Str.containsCI "strip price" (orEmpty (label p))); cbn [andb]; [|now rewrite Ea].
      destruct (falsy (price p)) eqn:Ep; cbn [negb head]; rewrite ?Ep; auto.
    + destruct (falsy (size_info acc)) eqn:Ea; cbn [andb]; [|now rewrite Ea].
      destruct (falsy (pack_size_info p)) eqn:Ep; cbn [negb head]; rewrite ?Ep, ?Ea; auto.
Qed.

Lemma firstPriced_none word packages :
  Forall (fun p => falsy (price p) = true) packages ->
  firstPriced word packages = None.
Proof.
  unfold firstPriced. induction 1 as [|p packages Hp _ IH]; cbn; [reflexivity|].
  rewrite Hp, andb_false_r. exact IH.
Qed.

Lemma firstSized_none packages :
  Forall (fun p => falsy (pack_size_info p) = true) packages ->
  firstSized packages = None.
Proof.
  unfold firstSized. induction 1 as [|p packages Hp _ IH]; cbn; [reflexivity|].
  rewrite Hp. exact IH.
Qed.

End Pricing.


(** C6 (as amended).  The packages are the discovered entries without
    those whose key [label||price] was seen before, in first-seen order;
    for texts without a vertical bar, two keys are equal exactly when
    label and price are.  [unit_price] is the price of the first package
    whose label contains "unit price" (in any case) and that has a price;
    without such a package it is the price of the first package.
    [strip_price] is resolved in the same way with "strip price" and has
    no default.  [pack_size_info] is the first pack size carried by any
    package.  So [unit_price] is not [null] as soon as the first package
    has a price.  When no package has a price, [unit_price] and
    [strip_price] are [null]; when no package carries a pack size,
    [pack_size_info] is [null]. *)
Theorem pricing_resolution (entries : list Structured.Package) :
  let pr := Structured.pricingOf entries in
  let packages := Structured.pr_packages pr in
  NoDup (map Structured.pkKey packages)
  /\ sublist packages entries
  /\ (forall p, p ∈ packages ->
                exists l1 l2, entries = l1 ++ p :: l2
                              /\ Structured.pkKey p ∉ map Structured.pkKey l1)
  /\ (forall e, e ∈ entries -> Structured.pkKey e ∈ map Structured.pkKey packages)
  /\ (forall p q,
         Structured.PlainTexts p -> Structured.PlainTexts q ->
         Structured.pkKey p = Structured.pkKey q
         <-> Structured.label p = Structured.label q
             /\ Structured.price p = Structured.price q)
  /\ Structured.pr_unit_price pr
     = match Structured.firstPriced "unit price" packages with
       | Some p => Structured.price p
       | None =>
           match packages with
           | p0 :: _ => Structured.nullIfFalsy (Structured.price p0)
           | [] => None
           end
       end
  /\ Structured.pr_strip_price pr
     = match Structured.firstPriced "strip price" packages with
       | Some p => Structured.price p
       | None => None
       end
  /\ Structured.pr_pack_size_info pr
     = match Structured.firstSized packages with
       | Some p => Structured.pack_size_info p
       | None => None
       end
  /\ (forall p0 rest,
         packages = p0 :: rest ->
         Structured.falsy (Structured.price p0) = false ->
         Structured.pr_unit_price pr <> None)
  /\ (Forall (fun p => Structured.falsy (Structured.price p) = true) packages ->
      Structured.pr_unit_price pr = None /\ Structured.pr_strip_price pr = None)
  /\ (Forall (fun p => Structured.falsy (Structured.pack_size_info p) = true) packages ->
      Structured.pr_pack_size_info pr = None).
Proof.
  cbv zeta.
  change (Structured.pr_packages (Structured.pricingOf entries))
    with (Structured.dedupe ∅ entries).
  destruct (dedupe_spec entries ∅) as (Hnd & Hsub & Hfirst & Hcover).
  remember (Structured.dedupe ∅ entries) as packages eqn:Hdef.
  destruct (resolve_fold packages (Structured.mkPrices None None None)) as (Hu & Hs & Hz).
  cbn [Structured.unit_price Structured.strip_price Structured.size_info Structured.falsy] in Hu, Hs, Hz.
  assert (Structured.pr_unit_price (Structured.pricingOf entries)
          = match Structured.firstPriced "unit price" packages with
            | Some p => Structured.price p
            | None =>
                match packages with
                | p0 :: _ => Structured.nullIfFalsy (Structured.price p0)
                | [] => None
                end
            end) as Hunit.
  { unfold Structured.pricingOf. rewrite <- Hdef. cbn [Structured.pr_unit_price].
    destruct (Structured.firstPriced "unit price" packages) as [p|] eqn:Hp.
    - pose proof (firstPriced_priced _ _ _ Hp) as Hpriced.
      assert (Structured.falsy (Structured.unit_price
                (fold_left Structured.resolveStep packages (Structured.mkPrices None None None)))
              = false) as Hf.
      { match goal with |- ?f = false => destruct f eqn:E end; auto.
        apply (proj2 (nullIfFalsy_None _)) in E. rewrite E in Hu.
        rewrite <- Hu in Hpriced. discriminate. }
      clear Hdef. destruct packages; rewrite ?Hf; exact Hu.
    - apply (proj1 (nullIfFalsy_None _)) in Hu.
      clear Hdef. destruct packages; rewrite ?Hu.
      + now apply nullIfFalsy_None.
      + apply nullIfFalsy_twice. }
  assert (Structured.pr_strip_price (Structured.pricingOf entries)
          = match Structured.firstPriced "strip price" packages with
            | Some p => Structured.price p
            | None => None
            end) as Hstrip.
  { unfold Structured.pricingOf. rewrite <- Hdef. cbn [Structured.pr_strip_price].
    exact Hs. }
  assert (Structured.pr_pack_size_info (Structured.pricingOf entries)
          = match Structured.firstSized packages with
            | Some p => Structured.pack_size_info p
            | None => None
            end) as Hsize.
  { unfold Structured.pricingOf. rewrite <- Hdef. cbn [Structured.pr_pack_size_info].
    destruct (Structured.firstSized packages) as [p|] eqn:Hp.
    - pose proof (firstSized_sized _ _ Hp) as Hsized.
      assert (Structured.falsy (Structured.size_info
                (fold_left Structured.resolveStep packages (Structured.mkPrices None None None)))
              = false) as Hf.
      { match goal with |- ?f = false => destruct f eqn:E end; auto.
        apply (proj2 (nullIfFalsy_None _)) in E. rewrite E in Hz.
        rewrite <- Hz in Hsized. discriminate. }
      clear Hdef. destruct packages; rewrite ?Hf; exact Hz.
    - apply (proj1 (nullIfFalsy_None _)) in Hz.
      clear Hdef. destruct packages as [|p0 rest]; rewrite ?Hz.
      + now apply nullIfFalsy_None.
      + rewrite nullIfFalsy_twice. apply nullIfFalsy_None.
        unfold Structured.firstSized in Hp. cbn in Hp.
        destruct (Structured.falsy (Structured.pack_size_info p0)); auto. discriminate. }
  clear Hu Hs Hz.
  split_and!; auto.
  - intros p Hp. destruct (Hfirst p Hp) as (_ & H). exact H.
  - intros e He. destruct (Hcover e He) as [H|H]; auto.
    now apply not_elem_of_empty in H.
  - apply pkKey_exact.
  - intros p0 rest Hpk Hp0. rewrite Hunit, Hpk.
    destruct (Structured.firstPriced "unit price" (p0 :: rest)) as [p|] eqn:Hp.
    + apply firstPriced_priced in Hp. intros E. rewrite E in Hp. discriminate.
    + rewrite nullIfFalsy_truthy by exact Hp0. intros E. rewrite E in Hp0. discriminate.
  - intros Hall. rewrite Hunit, Hstrip, !firstPriced_none by exact Hall.
    split; [|reflexivity].
    clear Hdef. destruct Hall as [|p0 rest Hp0 _]; [reflexivity|].
    now apply nullIfFalsy_None.
  - intros Hall. rewrite Hsize, firstSized_none by exact Hall. reflexivity.
Qed.

Lemma pricing_resolution_witness :
  let pr := Structured.pricing priced in
  let bare := Structured.pricing priceless in
  Structured.PlainTexts (Structured.mkPackage (Some "Unit Price") (Some "1.20") None)
  /\ Structured.pr_packages pr
     = [Structured.mkPackage (Some "Unit Price") (Some "1.20") (Some "(10 x 10: 120.00)");
        Structured.mkPackage (Some "Strip Price") (Some "12.00") None]
  /\ Structured.falsy (Some "1.20") = false
  /\ Structured.pr_unit_price pr <> None
  /\ (Structured.pkKey (Structured.mkPackage (Some "Unit Price") (Some "1.20") None)
      = Structured.pkKey (Structured.mkPackage (Some "Unit Price") (Some "1.20") None)
      <-> Some "Unit Price" = Some "Unit Price" /\ Some "1.20" = Some "1.20")
  /\ Structured.pr_packages bare = [Structured.mkPackage (Some "Unit Price") None None]
  /\ (Structured.pr_unit_price bare = None /\ Structured.pr_strip_price bare = None)
  /\ Structured.pr_pack_size_info bare = None.
Proof.
  cbv zeta.
  assert (Structured.PlainTexts (Structured.mkPackage (Some "Unit Price") (Some "1.20") None))
    as Hplain.
  { split; (split; [discriminate|]); cbn; intuition discriminate. }
  assert (Structured.pr_packages (Structured.pricing priced)
          = [Structured.mkPackage (Some "Unit Price") (Some "1.20") (Some "(10 x 10: 120.00)");
             Structured.mkPackage (Some "Strip Price") (Some "12.00") None]) as Hpk
      by (vm_compute; reflexivity).
  assert (Structured.pr_packages (Structured.pricing priceless)
          = [Structured.mkPackage (Some "Unit Price") None None]) as Hbare
      by (vm_compute; reflexivity).
  destruct (pricing_resolution (Structured.packageEntries priced))
    as (_ & _ & _ & _ & Hexact & _ & _ & _ & Hdefault & _).
  destruct (pricing_resolution (Structured.packageEntries priceless))
    as (_ & _ & _ & _ & _ & _ & _ & _ & _ & Hnoprice & Hnosize).
  change (Structured.pricingOf (Structured.packageEntries priceless))
    with (Structured.pricing priceless) in Hnoprice, Hnosize.
  rewrite Hbare in Hnoprice, Hnosize.
  split; [exact Hplain|]. split; [exact Hpk|]. split; [reflexivity|].
  split; [exact (Hdefault _ _ Hpk eq_refl)|].
  split; [exact (Hexact _ _ Hplain Hplain)|].
  split; [exact Hbare|].
  split; [apply Hnoprice | apply Hnosize]; repeat constructor.
Defined.

(** C6 as first stated fails on a page whose only package has a label
    and an empty price: the package list is not empty, and the three
    resolved fields are all [null].  It also fails on two packages that
    differ in label and in price and have the same key: the second one is
    dropped. *)
Lemma pricing_all_null_with_a_package :
  Structured.pricing priceless
  = Structured.mkPricing None None None
                         [Structured.mkPackage (Some "Unit Price") None None]
  /\ Structured.packageEntries barred
     = [Structured.mkPackage (Some "Pack||") (Some "10") None;
        Structured.mkPackage (Some "Pack") (Some "||10") None]
  /\ Structured.pr_packages (Structured.pricing barred)
     = [Structured.mkPackage (Some "Pack||") (Some "10") None].
Proof. split; [|split]; vm_compute; reflexivity. Qed.

(** A container that is a [div] with one span: [find("div span")] finds
    that span again, and the label is taken for the price. *)
Example label_taken_for_price :
  Structured.pricing labelOnly
  = Structured.mkPricing (Some "Unit Price:") None None
                         [Structured.mkPackage (Some "Unit Price") (Some "Unit Price:") None].
Proof. vm_compute. reflexivity. Qed.


(** ** The shape of the records *)

Section Shape.
Import Json.










End Shape.


(** ** Missing markup *)

Section Missing.
Import Js Dom.

Lemma node_induction (P : node -> Prop) :
  (forall d, P (Text d)) ->
  (forall d, P (Comment d)) ->
  (forall t attrs cs, Forall P cs -> P (Elem t attrs cs)) ->
  forall n, P n.
Proof.
  intros HT HC HE. fix IH 1. intros [d|d|t attrs cs]; [apply HT | apply HC |].
  apply HE. induction cs as [|c cs IHcs]; constructor; [apply IH | exact IHcs].
Qed.

Lemma locs_elem here up t attrs cs sibs :
  locs here up (Elem t attrs cs) sibs
  = mkLoc here up sibs (Elem t attrs cs)
      :: locsForest here (Elem t attrs cs :: up) 0 cs.
Proof.
  cbn [locs]. f_equal. generalize 0%nat. generalize (Elem t attrs cs) as n.
  induction cs as [|c cs IH]; intros n i; cbn [locsForest]; [reflexivity|].
  now rewrite IH.
Qed.

Lemma forest_anc cs :
  Forall (fun c => forall here up sibs, AncLocated up (locs here up c sibs)) cs ->
  forall here up i, AncLocated up (locsForest here up i cs).
Proof.
  induction 1 as [|c cs Hc _ IHcs]; intros here up i; cbn [locsForest].
  - intros x a [].
  - intros x a Hx Ha. apply in_app_or in Hx as [Hx|Hx].
    + destruct (Hc _ _ _ x a Hx Ha) as [Hup|(y & Hy & Hself)]; [now left|].
      right. exists y. split; [apply in_or_app; now left | exact Hself].
    + destruct (IHcs here up (S i) x a Hx Ha) as [Hup|(y & Hy & Hself)]; [now left|].
      right. exists y. split; [apply in_or_app; now right | exact Hself].
Qed.

Lemma locs_anc n :
  forall here up sibs, AncLocated up (locs here up n sibs).
Proof.
  induction n as [d|d|t attrs cs IH] using node_induction; intros here up sibs.
  - intros x a [<-|[]] Ha. now left.
  - intros x a [<-|[]] Ha. now left.
  - rewrite locs_elem.
    pose proof (forest_anc cs IH here (Elem t attrs cs :: up) 0%nat) as Hforest.
    intros x a [<-|Hx] Ha; [now left|].
    destruct (Hforest x a Hx Ha) as [[<-|Hup]|(y & Hy & Hself)].
    + right. exists (mkLoc here up sibs (Elem t attrs cs)).
      split; [now left | split; reflexivity].
    + now left.
    + right. exists y. split; [now right | exact Hself].
Qed.

Lemma locsForest_anc l :
  forall here up i, AncLocated up (locsForest here up i l).
Proof.
  apply forest_anc. apply Forall_forall. intros c _. apply locs_anc.
Qed.

Lemma allOf_anc doc x a :
  x ∈ allOf doc -> In a (anc x) -> exists y, y ∈ allOf doc /\ self y = a.
Proof.
  unfold allOf. intros Hx Ha. apply list_elem_of_filter in Hx as [_ Hx].
  apply list_elem_of_In in Hx.
  destruct (locsForest_anc doc [] [] 0%nat x a Hx Ha) as [[]|(y & Hy & Hself & Helem)].
  exists y. split; [|exact Hself].
  apply list_elem_of_filter. split; [|now apply list_elem_of_In].
  rewrite Hself. now apply Is_true_true.
Qed.


Lemma underChain_some p ps up :
  underChain (p :: ps) up = true -> exists a, In a up /\ p a = true.
Proof.
  cbn [underChain]. induction up as [|a up IH]; [discriminate|].
  destruct (p a) eqn:E; [exists a; split; [now left | exact E]|].
  intros H. destruct (IH H) as (b & Hb & Hp). exists b. split; [now right | exact Hp].
Qed.


Lemma Lacks_chain doc p ps x :
  Lacks doc p -> x ∈ allOf doc -> underChain (p :: ps) (anc x) = false.
Proof.
  intros Hl Hx. destruct (underChain (p :: ps) (anc x)) eqn:E; [|reflexivity].
  apply underChain_some in E as (a & Ha & Hp).
  destruct (allOf_anc doc x a Hx Ha) as (y & Hy & <-).
  unfold Lacks in Hl. rewrite Forall_forall in Hl. rewrite (Hl y Hy) in Hp. discriminate.
Qed.

Lemma LacksBelow_chain n p ps x :
  LacksBelow n p -> x ∈ below n -> underChain (p :: ps) (anc x) = false.
Proof. apply (Lacks_chain (children n)). Qed.






End Missing.

Section DetailMissing.
Import Js Dom Structured Json.




















End DetailMissing.

Section ListingMissing.
Import Js Dom Json.










End ListingMissing.





(** * Further properties *)

(** ** More on the fetch-retry unit *)

Section RetryTrace.
Import Js Split.
Variable env : Env.

Lemma rejectedAttempts_snoc url k :
  rejectedAttempts url k ++ [EvSleep RETRY_DELAY_MS; EvGet url]
  = rejectedAttempts url (S k).
Proof.
  unfold rejectedAttempts. induction k as [|k IH]; [reflexivity|].
  change (replicate (S (S k)) ?x) with (x :: replicate (S k) x).
  change (replicate (S k) ?x) with (x :: replicate k x) at 1.
  rewrite !concat_cons, <- IH. cbn. reflexivity.
Qed.

Lemma retryLoop_trace page maxRetries :
  forall fuel attempt lastErr w,
    (Z.to_nat (maxRetries - attempt) < fuel)%nat ->
    exists r w' k,
      retryLoop fuel env page maxRetries attempt lastErr w = Some (Return r, w')
      /\ files w' = files w
      /\ match r with
         | Success _ _ _ =>
             attempt + Z.of_nat k < maxRetries
             /\ trace w' = EvGet (pageUrl page)
                             :: rejectedAttempts (pageUrl page) k ++ trace w
         | Failure _ _ =>
             Z.of_nat k = Z.max 0 (maxRetries - attempt)
             /\ trace w' = rejectedAttempts (pageUrl page) k ++ trace w
         end.
Proof.
  induction fuel as [|fuel IH]; intros attempt lastErr w Hfuel; [lia|].
  cbn [retryLoop]. destruct (attempt <? maxRetries) eqn:Hlt.
  - apply Z.ltb_lt in Hlt. unfold fetchPageRaw.
    destruct (http env (trace w) (pageUrl page)) as [data responseUrl|e].
    + eexists _, _, 0%nat. split; [reflexivity|]. split; [reflexivity|].
      split; [lia|reflexivity].
    + destruct (IH (attempt + 1) (Some e)
                   (sleep RETRY_DELAY_MS (log (EvGet (pageUrl page)) w)))
        as (r & w' & k & Hrun & Hfiles & Hshape); [lia|].
      exists r, w', (S k). split; [exact Hrun|]. split; [exact Hfiles|].
      rewrite <- rejectedAttempts_snoc, <- app_assoc.
      destruct r; destruct Hshape as [Hk Htr]; (split; [lia|exact Htr]).
  - apply Z.ltb_ge in Hlt.
    eexists _, _, 0%nat. split; [reflexivity|]. split; [reflexivity|].
    split; [lia|reflexivity].
Qed.

Lemma fetchWithRetries_events page maxRetries w :
  exists r w' k,
    fetchWithRetries env page maxRetries w = Some (Return r, w')
    /\ files w' = files w
    /\ match r with
       | Success _ _ _ =>
           Z.of_nat k < maxRetries
           /\ trace w' = EvGet (pageUrl page) :: rejectedAttempts (pageUrl page) k ++ trace w
       | Failure _ _ =>
           Z.of_nat k = Z.max 0 maxRetries
           /\ trace w' = rejectedAttempts (pageUrl page) k ++ trace w
       end.
Proof.
  destruct (retryLoop_trace page maxRetries (S (Z.to_nat maxRetries)) 0 None w)
    as (r & w' & k & Hrun & Hfiles & Hshape); [lia|].
  exists r, w', k. split; [exact Hrun|]. split; [exact Hfiles|].
  destruct r; destruct Hshape as [Hk Htr]; (split; [lia|exact Htr]).
Qed.

End RetryTrace.

(** X1.  The events of one call of [fetchWithRetries], newest first: [k]
    rejected requests for the address of the page, each followed by a wait
    of [RETRY_DELAY_MS], and then, on success, the request that was
    answered.  A success comes with fewer rejections than the budget and
    is followed by no wait; a failure comes with exactly as many
    rejections as the budget, the last one followed by a wait as well.  No
    file is touched. *)
Theorem fetchWithRetries_trace (env : Split.Env) (page maxRetries : Z) (w : Split.World) :
  exists r w' k,
    Split.fetchWithRetries env page maxRetries w = Some (Js.Return r, w')
    /\ Split.files w' = Split.files w
    /\ match r with
       | Split.Success _ _ _ =>
           Z.of_nat k < maxRetries
           /\ Split.trace w'
              = Split.EvGet (Split.pageUrl page)
                  :: rejectedAttempts (Split.pageUrl page) k ++ Split.trace w
       | Split.Failure _ _ =>
           Z.of_nat k = Z.max 0 maxRetries
           /\ Split.trace w' = rejectedAttempts (Split.pageUrl page) k ++ Split.trace w
       end.
Proof. apply fetchWithRetries_events. Qed.

(** ** Resuming the batch scheduler *)

Section BatchResume.
Import Js Split.
Variable parse : Dom.Page -> string -> Completion (list Brand).

Lemma batches_all_skipped env maxPages batchSize maxRetries :
  1 <= batchSize ->
  forall fuel k st,
    0 <= k ->
    (Z.to_nat (maxPages - (1 + k * batchSize) + 1) < fuel)%nat ->
    AllBatchesSaved maxPages batchSize (world st) ->
    batches parse fuel env maxPages batchSize maxRetries (1 + k * batchSize) st
    = Some (Return st).
Proof.
  intros Hb. induction fuel as [|fuel IH]; intros k st Hk Hfuel Hall; [lia|].
  cbn [batches]. destruct (1 + k * batchSize <=? maxPages) eqn:Hle; [|reflexivity].
  apply Z.leb_le in Hle. rewrite (Hall k Hk Hle).
  replace (1 + k * batchSize + batchSize) with (1 + (k + 1) * batchSize) by lia.
  apply IH; [lia | nia | exact Hall].
Qed.

Lemma fileExistsNonEmpty_insert a b s e items tr m :
  fileExistsNonEmpty a b (mkWorld tr m) = true \/ (a, b) = (s, e) ->
  fileExistsNonEmpty a b (mkWorld tr (<[(s, e) := Json items]> m)) = true.
Proof.
  unfold fileExistsNonEmpty. cbn [files].
  destruct (decide ((s, e) = (a, b))) as [->|Hne].
  - now rewrite lookup_insert_eq.
  - rewrite lookup_insert_ne by exact Hne. intros [H|H]; [exact H|congruence].
Qed.

Lemma processBatch_saves env maxRetries startPage endPage st :
  1 <= startPage ->
  (forall h s e, disk env h s e = None) ->
  exists st',
    processBatch parse env maxRetries startPage endPage st = Some (Return st')
    /\ fileExistsNonEmpty startPage endPage (world st') = true
    /\ (forall a b, fileExistsNonEmpty a b (world st) = true ->
                    fileExistsNonEmpty a b (world st') = true).
Proof.
  intros Hs Hdisk. unfold processBatch.
  destruct (fetchAll_spec env maxRetries (seqZ startPage (endPage - startPage + 1))
                          (world st))
    as (results & new & w1 & Hrun & _ & Hfiles & _).
  { apply NoDup_pageUrl; [apply NoDup_seqZ|].
    apply Forall_forall. intros p Hp. apply elem_of_seqZ in Hp. lia. }
  rewrite Hrun. destruct (collect parse results [] []) as [batchItems batchFailed].
  rewrite Hdisk. eexists. split; [reflexivity|].
  cbn [world sleep log files trace]. rewrite Hfiles. split.
  - apply fileExistsNonEmpty_insert. now right.
  - intros a b Hab. apply fileExistsNonEmpty_insert. left.
    destruct st as [fp ts [tr m]]. exact Hab.
Qed.

Lemma batches_save_all env maxPages batchSize maxRetries :
  1 <= batchSize ->
  (forall h s e, disk env h s e = None) ->
  forall fuel k st,
    0 <= k ->
    (Z.to_nat (maxPages - (1 + k * batchSize) + 1) < fuel)%nat ->
    exists st',
      batches parse fuel env maxPages batchSize maxRetries (1 + k * batchSize) st
      = Some (Return st')
      /\ (forall a b, fileExistsNonEmpty a b (world st) = true ->
                      fileExistsNonEmpty a b (world st') = true)
      /\ (forall j, k <= j -> 1 + j * batchSize <= maxPages ->
                    fileExistsNonEmpty (1 + j * batchSize)
                                       (Z.min (1 + j * batchSize + batchSize - 1) maxPages)
                                       (world st') = true).
Proof.
  intros Hb Hdisk. induction fuel as [|fuel IH]; intros k st Hk Hfuel; [lia|].
  cbn [batches]. destruct (1 + k * batchSize <=? maxPages) eqn:Hle.
  - apply Z.leb_le in Hle.
    replace (1 + k * batchSize + batchSize) with (1 + (k + 1) * batchSize) by lia.
    set (endPage := Z.min (1 + (k + 1) * batchSize - 1) maxPages).
    assert (exists st1,
               (if fileExistsNonEmpty (1 + k * batchSize) endPage (world st)
                then batches parse fuel env maxPages batchSize maxRetries
                             (1 + (k + 1) * batchSize) st
                else match processBatch parse env maxRetries (1 + k * batchSize) endPage st with
                     | Some (Return st') =>
                         batches parse fuel env maxPages batchSize maxRetries
                                 (1 + (k + 1) * batchSize) st'
                     | r => r
                     end)
               = batches parse fuel env maxPages batchSize maxRetries
                         (1 + (k + 1) * batchSize) st1
               /\ fileExistsNonEmpty (1 + k * batchSize) endPage (world st1) = true
               /\ (forall a b, fileExistsNonEmpty a b (world st) = true ->
                               fileExistsNonEmpty a b (world st1) = true))
      as (st1 & -> & Hhere & Hmono1).
    { destruct (fileExistsNonEmpty (1 + k * batchSize) endPage (world st)) eqn:Hex.
      - exists st. auto.
      - destruct (processBatch_saves env maxRetries (1 + k * batchSize) endPage st)
          as (st1 & Hrun & Hsaved & Hmono); [nia | exact Hdisk |].
        exists st1. rewrite Hrun. auto. }
    destruct (IH (k + 1) st1) as (st' & Hrun & Hmono & Hall); [lia | nia |].
    exists st'. split; [exact Hrun|]. split; [auto|].
    intros j Hj Hjle. destruct (decide (j = k)) as [->|Hne].
    + apply Hmono. unfold endPage in Hhere.
      replace (1 + k * batchSize + batchSize - 1) with (1 + (k + 1) * batchSize - 1) by lia.
      exact Hhere.
    + apply Hall; [lia | exact Hjle].
  - apply Z.leb_gt in Hle. exists st. split; [reflexivity|]. split; [auto|].
    intros j Hj Hjle. nia.
Qed.

End BatchResume.

(** X2.  Resume-safety of the batch scheduler: when the file of every
    batch of the index space is there and not empty, a run skips every
    batch.  It sends no request, writes nothing and does not wait, and it
    reports no failed page and no saved item. *)
Theorem saved_batches_are_skipped
        (parse : Dom.Page -> string -> Js.Completion (list Split.Brand))
        (env : Split.Env) (maxPages batchSize maxRetries : Z) (w : Split.World) :
  1 <= batchSize ->
  AllBatchesSaved maxPages batchSize w ->
  Split.mainWith parse (S (Z.to_nat maxPages)) env maxPages batchSize maxRetries w
  = Some (Js.Return (Split.mkReport [] 0 w)).
Proof.
  intros Hb Hall. unfold Split.mainWith.
  pose proof (batches_all_skipped parse env maxPages batchSize maxRetries Hb
                                  (S (Z.to_nat maxPages)) 0 (Split.mkRun [] 0 w)) as H.
  rewrite Z.mul_0_l, Z.add_0_r in H. rewrite H; [reflexivity | lia | lia | exact Hall].
Qed.

Lemma saved_batches_are_skipped_witness :
  1 <= 5
  /\ AllBatchesSaved 10 5 (Split.mkWorld [] {[ (1, 5) := Split.Json []; (6, 10) := Split.Bytes 2 ]})
  /\ Split.mainWith (fun html pageUrl => Js.Return (Split.parsePageByStructure html pageUrl))
                    (S (Z.to_nat 10)) failingEnv 10 5 3
                    (Split.mkWorld [] {[ (1, 5) := Split.Json []; (6, 10) := Split.Bytes 2 ]})
     = Some (Js.Return (Split.mkReport [] 0
               (Split.mkWorld [] {[ (1, 5) := Split.Json []; (6, 10) := Split.Bytes 2 ]}))).
Proof.
  assert (AllBatchesSaved 10 5
            (Split.mkWorld [] {[ (1, 5) := Split.Json []; (6, 10) := Split.Bytes 2 ]}))
    as Hall.
  { intros k Hk Hle. assert (k = 0 \/ k = 1) as [->| ->] by lia; reflexivity. }
  split; [lia|]. split; [exact Hall|].
  apply saved_batches_are_skipped; [lia | exact Hall].
Defined.

(** X3.  A run of the batch scheduler during which the disk takes every
    write leaves the file of every batch behind, whatever the server did;
    so a second run over the same index space, in any environment, skips
    every batch: no request, no write, nothing reported. *)
Theorem batch_run_is_resumable
        (parse parse2 : Dom.Page -> string -> Js.Completion (list Split.Brand))
        (env env2 : Split.Env) (maxPages batchSize maxRetries : Z) (w : Split.World) :
  1 <= batchSize ->
  (forall h s e, Split.disk env h s e = None) ->
  exists rep,
    Split.mainWith parse (S (Z.to_nat maxPages)) env maxPages batchSize maxRetries w
    = Some (Js.Return rep)
    /\ AllBatchesSaved maxPages batchSize (Split.final rep)
    /\ Split.mainWith parse2 (S (Z.to_nat maxPages)) env2 maxPages batchSize maxRetries
                      (Split.final rep)
       = Some (Js.Return (Split.mkReport [] 0 (Split.final rep))).
Proof.
  intros Hb Hdisk.
  destruct (batches_save_all parse env maxPages batchSize maxRetries Hb Hdisk
                             (S (Z.to_nat maxPages)) 0 (Split.mkRun [] 0 w))
    as (st & Hrun & _ & Hall); [lia | lia |].
  rewrite Z.mul_0_l, Z.add_0_r in Hrun.
  assert (AllBatchesSaved maxPages batchSize (Split.world st)) as Hsaved.
  { intros k Hk Hle. apply Hall; [lia | exact Hle]. }
  eexists. unfold Split.mainWith at 1. rewrite Hrun. split; [reflexivity|].
  cbn [Split.final]. split; [exact Hsaved|].
  unfold Split.mainWith.
  pose proof (batches_all_skipped parse2 env2 maxPages batchSize maxRetries Hb
                                  (S (Z.to_nat maxPages)) 0
                                  (Split.mkRun [] 0 (Split.world st))) as H.
  rewrite Z.mul_0_l, Z.add_0_r in H. rewrite H; [reflexivity | lia | lia | exact Hsaved].
Qed.

Lemma batch_run_is_resumable_witness :
  1 <= 5
  /\ (forall h s e, Split.disk flakyEnv h s e = None)
  /\ exists rep,
      Split.mainWith (fun html pageUrl => Js.Return (Split.parsePageByStructure html pageUrl))
                     (S (Z.to_nat 5)) flakyEnv 5 5 3 (Split.mkWorld [] ∅)
      = Some (Js.Return rep)
      /\ AllBatchesSaved 5 5 (Split.final rep)
      /\ Split.mainWith (fun html pageUrl => Js.Return (Split.parsePageByStructure html pageUrl))
                        (S (Z.to_nat 5)) failingEnv 5 5 3 (Split.final rep)
         = Some (Js.Return (Split.mkReport [] 0 (Split.final rep))).
Proof.
  split; [lia|]. split; [reflexivity|].
  apply batch_run_is_resumable; [lia | reflexivity].
Defined.

(** ** A batch whose write is rejected; the tags of the records *)

Section BatchWrite.
Import Js Split.
Variable parse : Dom.Page -> string -> Completion (list Brand).

Lemma markWriteFailed_NoDup err pages :
  forall batchFailed,
    NoDup (map page batchFailed) ->
    NoDup (map page (markWriteFailed err pages batchFailed)).
Proof.
  unfold markWriteFailed.
  induction pages as [|p pages IH]; intros bf Hnd; [exact Hnd|].
  cbn [fold_left]. destruct (existsb (fun b => page b =? p) bf) eqn:Hex.
  - now apply IH.
  - apply IH. rewrite map_app. cbn [map page]. apply NoDup_app. split; [exact Hnd|].
    split; [|apply NoDup_singleton].
    intros q Hq Hq'. apply list_elem_of_singleton in Hq'. subst q.
    apply list_elem_of_fmap in Hq as (b & Hb & Hin).
    assert (existsb (fun b => page b =? p) bf = true) as Habs; [|congruence].
    apply existsb_exists. exists b. split; [now apply list_elem_of_In|].
    apply Z.eqb_eq. now symmetry.
Qed.

Lemma failedOf_sublist results :
  NoDup (map resultPage results) -> NoDup (failedOf parse results).
Proof.
  unfold failedOf. induction results as [|r results IH]; cbn [map List.filter]; intros Hnd.
  - constructor.
  - apply NoDup_cons in Hnd as [Hr Hnd]. destruct (pageFailed parse r); [|auto].
    cbn [map]. apply NoDup_cons. split; [|auto].
    intros Hin. apply Hr. apply list_elem_of_fmap in Hin as (r' & -> & Hin).
    apply list_elem_of_fmap. exists r'. split; [reflexivity|].
    apply list_elem_of_In, filter_In in Hin as [Hin _]. now apply list_elem_of_In.
Qed.

Lemma processBatch_rejected env maxRetries startPage endPage st err w1 results :
  1 <= startPage ->
  fetchAll env maxRetries (seqZ startPage (endPage - startPage + 1)) (world st)
  = Some (Return results, w1) ->
  disk env (trace w1) startPage endPage = Some err ->
  exists st' failed,
    processBatch parse env maxRetries startPage endPage st = Some (Return st')
    /\ files (world st') = files (world st)
    /\ totalSaved st' = totalSaved st
    /\ failedPages st' = failedPages st ++ failed
    /\ failed ≡ₚ seqZ startPage (endPage - startPage + 1).
Proof.
  intros Hs Hrun Hdisk. unfold processBatch. rewrite Hrun.
  destruct (fetchAll_spec env maxRetries (seqZ startPage (endPage - startPage + 1))
                          (world st))
    as (results' & new & w1' & Hrun' & _ & Hfiles & Hpages & _).
  { apply NoDup_pageUrl; [apply NoDup_seqZ|].
    apply Forall_forall. intros p Hp. apply elem_of_seqZ in Hp. lia. }
  rewrite Hrun in Hrun'. inversion Hrun'. subst results' w1'. clear Hrun'.
  destruct (collect_spec parse results [] []) as (failed0 & Hcollect & Hfailed0).
  rewrite Hcollect, Hdisk. cbn [app].
  destruct (markWriteFailed_spec err (seqZ startPage (endPage - startPage + 1)) failed0)
    as (extra & Hmark & Hin & Hcover).
  eexists _, _. split; [reflexivity|]. cbn [world failedPages totalSaved sleep log files].
  split; [exact Hfiles|]. split; [reflexivity|]. split; [reflexivity|].
  apply NoDup_Permutation.
  - apply markWriteFailed_NoDup. rewrite Hfailed0. apply failedOf_sublist.
    rewrite Hpages. apply NoDup_seqZ.
  - apply NoDup_seqZ.
  - intros p. split.
    + rewrite Hmark, map_app, elem_of_app. intros [Hp|Hp]; [|auto].
      rewrite Hfailed0 in Hp. unfold failedOf in Hp.
      apply list_elem_of_fmap in Hp as (r & -> & Hr).
      apply list_elem_of_In, filter_In in Hr as [Hr _].
      rewrite <- Hpages. apply list_elem_of_fmap. exists r. split; [reflexivity|].
      now apply list_elem_of_In.
    + intros Hp. rewrite Hmark. auto.
Qed.

End BatchWrite.

(** X4.  A batch whose write is rejected: the files stay as they were, the
    count of saved items does not move, and every page of the batch, whether
    it was fetched or not, is recorded as failed exactly once. *)
Theorem rejected_write_fails_the_batch
        (parse : Dom.Page -> string -> Js.Completion (list Split.Brand))
        (env : Split.Env) (maxRetries startPage endPage : Z) (st : Split.Run)
        (err : Js.Error) :
  1 <= startPage ->
  (forall h, Split.disk env h startPage endPage = Some err) ->
  exists st' failed,
    Split.processBatch parse env maxRetries startPage endPage st = Some (Js.Return st')
    /\ Split.files (Split.world st') = Split.files (Split.world st)
    /\ Split.totalSaved st' = Split.totalSaved st
    /\ Split.failedPages st' = Split.failedPages st ++ failed
    /\ failed ≡ₚ seqZ startPage (endPage - startPage + 1).
Proof.
  intros Hs Hdisk.
  destruct (fetchAll_spec env maxRetries (seqZ startPage (endPage - startPage + 1))
                          (Split.world st))
    as (results & new & w1 & Hrun & _).
  { apply NoDup_pageUrl; [apply NoDup_seqZ|].
    apply Forall_forall. intros p Hp. apply elem_of_seqZ in Hp. lia. }
  exact (processBatch_rejected parse env maxRetries startPage endPage st err w1 results
                               Hs Hrun (Hdisk _)).
Qed.

Lemma rejected_write_fails_the_batch_witness :
  1 <= 1
  /\ (forall h, Split.disk fullDiskEnv h 1 5 = Some diskFull)
  /\ exists st' failed,
      Split.processBatch (fun html pageUrl => Js.Return (Split.parsePageByStructure html pageUrl))
                         fullDiskEnv 3 1 5 (Split.mkRun [] 0 (Split.mkWorld [] ∅))
      = Some (Js.Return st')
      /\ Split.files (Split.world st') = ∅
      /\ Split.totalSaved st' = 0
      /\ Split.failedPages st' = [] ++ failed
      /\ failed ≡ₚ seqZ 1 (5 - 1 + 1).
Proof.
  split; [lia|]. split; [reflexivity|].
  apply (rejected_write_fails_the_batch
           (fun html pageUrl => Js.Return (Split.parsePageByStructure html pageUrl))
           fullDiskEnv 3 1 5 (Split.mkRun [] 0 (Split.mkWorld [] ∅)) diskFull);
    [lia | reflexivity].
Defined.

(** X5.  The records that a batch writes carry their page: every record of
    the write of a batch has a [_source_page], and it is a page of the
    batch, between [startPage] and [endPage]. *)
Theorem written_records_are_tagged
        (parse : Dom.Page -> string -> Js.Completion (list Split.Brand))
        (env : Split.Env) (maxRetries startPage endPage : Z) (st : Split.Run) :
  1 <= startPage ->
  exists st' items rest,
    Split.processBatch parse env maxRetries startPage endPage st = Some (Js.Return st')
    /\ Split.trace (Split.world st')
       = Split.EvSleep Split.BATCH_DELAY_MS :: Split.EvWrite startPage endPage items :: rest
    /\ forall r, r ∈ items ->
                 exists p, Split._source_page r = Some p /\ startPage <= p <= endPage.
Proof.
  intros Hs.
  destruct (processBatch_spec parse env maxRetries startPage endPage st Hs)
    as (results & new & w1 & st' & _ & _ & _ & Hpages & Hrun & Htr & _).
  exists st', (Split.recordsOf parse results), (Split.trace w1).
  split; [exact Hrun|]. split; [exact Htr|].
  intros r Hr. unfold Split.recordsOf in Hr.
  apply list_elem_of_In, in_flat_map in Hr as (res & Hres & Hin).
  assert (Split.resultPage res ∈ seqZ startPage (endPage - startPage + 1)) as Hp.
  { rewrite <- Hpages. apply list_elem_of_fmap. exists res.
    split; [reflexivity | now apply list_elem_of_In]. }
  apply elem_of_seqZ in Hp.
  destruct res as [p html finalUrl|p msg]; [|destruct Hin].
  destruct (parse html finalUrl) as [parsed|e]; [|destruct Hin].
  apply in_map_iff in Hin as (r0 & <- & _).
  exists p. cbn in *. split; [reflexivity | lia].
Qed.

Lemma written_records_are_tagged_witness :
  1 <= 1
  /\ exists st' items rest,
      Split.processBatch (fun html pageUrl => Js.Return (Split.parsePageByStructure html pageUrl))
                         flakyEnv 3 1 5 (Split.mkRun [] 0 (Split.mkWorld [] ∅))
      = Some (Js.Return st')
      /\ Split.trace (Split.world st')
         = Split.EvSleep Split.BATCH_DELAY_MS :: Split.EvWrite 1 5 items :: rest
      /\ forall r, r ∈ items ->
                   exists p, Split._source_page r = Some p /\ 1 <= p <= 5.
Proof.
  split; [lia|].
  apply (written_records_are_tagged
           (fun html pageUrl => Js.Return (Split.parsePageByStructure html pageUrl))
           flakyEnv 3 1 5 (Split.mkRun [] 0 (Split.mkWorld [] ∅))).
  lia.
Defined.

(** X6.  The address of a page: every page up to 1 (0 and the negative
    ones included) is the first listing page, and two different pages from
    1 on never have the same address. *)
Theorem pageUrl_distinct :
  (forall p, p <= 1 -> Split.pageUrl p = Split.BASE)
  /\ (forall p q, 1 <= p -> 1 <= q -> Split.pageUrl p = Split.pageUrl q -> p = q).
Proof.
  split.
  - intros p Hp. unfold Split.pageUrl.
    destruct (1 <? p) eqn:E; [apply Z.ltb_lt in E; lia | reflexivity].
  - apply pageUrl_inj.
Qed.

Lemma pageUrl_distinct_witness :
  (0 <= 1 /\ Split.pageUrl 0 = Split.BASE)
  /\ (1 <= 2 /\ 1 <= 2 /\ Split.pageUrl 2 = Split.pageUrl 2 /\ 2 = 2).
Proof.
  destruct pageUrl_distinct as [Hfirst Hinj].
  split.
  - split; [lia|]. apply Hfirst. lia.
  - split; [lia|]. split; [lia|]. split; [reflexivity|].
    apply Hinj; [lia | lia | reflexivity].
Defined.

(** ** The fields of the listing records *)

Section ListingFields.
Import Js.

Lemma trim_idempotent s : trim (trim s) = trim s.
Proof.
  unfold trim. rewrite list_ascii_of_string_of_list_ascii. f_equal.
  destruct (trimList_noLead (list_ascii_of_string s)). now apply trimList_id.
Qed.

Lemma Trimmed_trim s : truthy (trim s) = true -> Trimmed (trim s).
Proof. intros H. split; [exact H | apply trim_idempotent]. Qed.

Lemma orNull_trim s : NullOrTrimmed (orNull (trim s)).
Proof.
  unfold orNull. destruct (truthy (trim s)) eqn:E; cbn; [now apply Trimmed_trim | exact I].
Qed.

Lemma scanGeneric_trimmed name strength cols :
  NullOrTrimmed (Split.scanGeneric name strength cols).
Proof.
  induction cols as [|col cols IH]; cbn [Split.scanGeneric]; [exact I|].
  destruct (truthy (trim (Dom.textContent col))) eqn:E; cbn [negb]; [|exact IH].
  repeat (match goal with |- NullOrTrimmed (if ?c then _ else _) => destruct c end;
          [exact IH|]).
  cbn. now apply Trimmed_trim.
Qed.

Lemma Split_parseEntry_fields a r :
  Split.parseEntry a = Some r ->
  Trimmed (Split.name r)
  /\ NullOrTrimmed (Split.strength r) /\ NullOrTrimmed (Split.generic r)
  /\ NullOrTrimmed (Split.company r) /\ NullOrTrimmed (Split.medicine_type r)
  /\ Split._source_page r = None.
Proof.
  unfold Split.parseEntry. cbv zeta.
  destruct (bool_decide _); [discriminate|].
  match goal with
  | |- (if negb (truthy ?n) then _ else _) = _ -> _ => destruct (truthy n) eqn:En
  end; cbn [negb]; [|discriminate].
  intros H. inversion H. clear H. cbn.
  split; [|split; [|split; [|split; [|split]]]].
  - split; [exact En|].
    match goal with |- trim (if ?c then _ else _) = _ => destruct c end;
      apply trim_idempotent.
  - match goal with |- NullOrTrimmed (orNull (if ?c then _ else _)) => destruct c end;
      apply orNull_trim.
  - match goal with
    | |- NullOrTrimmed (if bool_decide (?g = _) then _ else _) =>
        assert (NullOrTrimmed g) as Hg; [|destruct (bool_decide (g = Some "")); [exact I|exact Hg]]
    end.
    destruct (_ !! 2%nat) as [c|]; [|apply scanGeneric_trimmed].
    destruct (truthy (trim (Dom.textContent c))) eqn:Ec; cbn [andb];
      [|apply scanGeneric_trimmed].
    destruct (negb _); [|apply scanGeneric_trimmed].
    cbn. now apply Trimmed_trim.
  - match goal with |- NullOrTrimmed (orNull (if ?c then _ else _)) => destruct c eqn:Ec end;
      [apply orNull_trim|].
    destruct (last _) as [c|]; [|apply orNull_trim].
    match goal with |- NullOrTrimmed (orNull (if ?c then _ else _)) => destruct c end;
      apply orNull_trim.
  - destruct (head _) as [img|]; [apply orNull_trim|].
    destruct (head _) as [img2|]; [apply orNull_trim | exact I].
  - reflexivity.
Qed.

Lemma cell_trimmed pArray i :
  Forall (fun s => trim s = s) pArray -> NullOrTrimmed (Bissoy.cell pArray i).
Proof.
  intros Hall. unfold Bissoy.cell. destruct (pArray !! i) as [s|] eqn:E; [|exact I].
  unfold orNull. destruct (truthy s) eqn:Es; [|exact I].
  split; [exact Es|]. eapply Forall_lookup_1 in Hall; eauto.
Qed.

Lemma Forall_trim_map {A} (f : A -> string) (l : list A) :
  Forall (fun s => trim s = s) (map (fun x => trim (f x)) l).
Proof.
  apply Forall_forall. intros s Hs. apply list_elem_of_fmap in Hs as (x & -> & _).
  apply trim_idempotent.
Qed.

Lemma Bissoy_parseEntry_fields li r :
  Bissoy.parseEntry li = Some r ->
  Trimmed (Bissoy.name_en r)
  /\ NullOrTrimmed (Bissoy.name_bn r) /\ NullOrTrimmed (Bissoy.strength r)
  /\ NullOrTrimmed (Bissoy.generic r) /\ NullOrTrimmed (Bissoy.company r)
  /\ NullOrTrimmed (Bissoy.price r).
Proof.
  unfold Bissoy.parseEntry. cbv zeta.
  destruct (negb _ || _); [discriminate|].
  match goal with
  | |- match map trim ?l !! 0%nat with _ => _ end = _ -> _ =>
      pose proof (Forall_trim_map (fun x => x) l) as Hpieces; cbn beta in Hpieces;
      change (map (fun x => trim x) l) with (map trim l) in Hpieces;
      generalize dependent (map trim l)
  end.
  intros pieces Hpieces.
  destruct (pieces !! 0%nat) as [name_en|] eqn:E0; [|discriminate].
  destruct (truthy name_en) eqn:En; cbn [negb]; [|discriminate].
  intros H. inversion H. clear H. cbn.
  split; [|split; [|split; [|split; [|split]]]];
    try (apply cell_trimmed; apply (Forall_trim_map (fun x => Dom.textContent (Dom.self x)))).
  - split; [exact En|]. eapply Forall_lookup_1 in Hpieces; eauto.
  - destruct (pieces !! 1%nat) as [name_bn|] eqn:E1; [|exact I].
    cbn. destruct (truthy name_bn) eqn:Eb; [|exact I].
    split; [exact Eb|]. eapply Forall_lookup_1 in Hpieces; eauto.
Qed.

End ListingFields.

(** X7.  No record of either listing extractor has an empty or padded
    field: the name is a text that is not empty and has no white space
    around it, and every optional field is [null] or such a text, never the
    empty string.  A record leaves the MedEx extractor without a page
    tag. *)
Theorem listing_fields_are_trimmed :
  (forall html pageUrl r,
      r ∈ Split.parsePageByStructure html pageUrl ->
      Trimmed (Split.name r)
      /\ NullOrTrimmed (Split.strength r) /\ NullOrTrimmed (Split.generic r)
      /\ NullOrTrimmed (Split.company r) /\ NullOrTrimmed (Split.medicine_type r)
      /\ Split._source_page r = None)
  /\ (forall html pageUrl m,
         m ∈ Bissoy.parsePageByStructure html pageUrl ->
         Trimmed (Bissoy.name_en m)
         /\ NullOrTrimmed (Bissoy.name_bn m) /\ NullOrTrimmed (Bissoy.strength m)
         /\ NullOrTrimmed (Bissoy.generic m) /\ NullOrTrimmed (Bissoy.company m)
         /\ NullOrTrimmed (Bissoy.price m)).
Proof.
  split.
  - intros html pageUrl r Hr. unfold Split.parsePageByStructure in Hr.
    apply list_elem_of_omap in Hr as (a & _ & Ha).
    now apply (Split_parseEntry_fields a).
  - intros html pageUrl m Hm. unfold Bissoy.parsePageByStructure in Hm.
    apply list_elem_of_omap in Hm as (li & _ & Hli).
    now apply (Bissoy_parseEntry_fields li).
Qed.

(** X8.  From the listing to the detail fetcher: the address of every
    record of either listing extractor starts with [http]; so
    [normalizeUrl] leaves the address of a MedEx record as it is, and the
    detail fetcher asks for exactly this address when the record is its
    input item. *)
Theorem listing_urls_are_absolute :
  (forall html pageUrl r,
      r ∈ Split.parsePageByStructure html pageUrl ->
      Js.startsWith "http" (Split.source_url r) = true
      /\ normalizeUrl (Split.source_url r) = Split.source_url r
      /\ forall source href link,
          Details.sourceUrlOf (Details.mkItem (Some (Split.source_url r)) source href link)
          = Some (Split.source_url r))
  /\ (forall html pageUrl m,
         m ∈ Bissoy.parsePageByStructure html pageUrl ->
         Js.startsWith "http" (Bissoy.source_url m) = true).
Proof.
  assert (forall s, Js.startsWith "http" s = true ->
                    Js.truthy s = true /\ normalizeUrl s = s) as Hhttp.
  { intros s Hs. assert (Js.truthy s = true) as Ht by (destruct s; [discriminate|reflexivity]).
    split; [exact Ht|]. unfold normalizeUrl. now rewrite Ht, Hs. }
  split.
  - intros html pageUrl r Hr. unfold Split.parsePageByStructure in Hr.
    apply list_elem_of_omap in Hr as (a & _ & Ha).
    assert (Js.startsWith "http" (Split.source_url r) = true) as Hs.
    { rewrite (Split_parseEntry_url a r Ha).
      destruct (Js.startsWith "http" (default "" (Dom.attr "href" a))) eqn:E;
        [exact E | reflexivity]. }
    destruct (Hhttp _ Hs) as [Ht Hn]. split; [exact Hs|]. split; [exact Hn|].
    intros source href link. unfold Details.sourceUrlOf, Js.orElse. cbn.
    rewrite !Ht. now rewrite Hn.
  - intros html pageUrl m Hm. unfold Bissoy.parsePageByStructure in Hm.
    apply list_elem_of_omap in Hm as (li & _ & Hli).
    destruct (Bissoy_parseEntry_spec li m Hli) as (_ & a & href & _ & _ & _ & ->).
    reflexivity.
Qed.

Lemma listing_fields_are_trimmed_witness :
  (exists r,
      r ∈ Split.parsePageByStructure (listingPage "Napa") "https://medex.com.bd/brands"
      /\ Trimmed (Split.name r)
      /\ NullOrTrimmed (Split.strength r) /\ NullOrTrimmed (Split.generic r)
      /\ NullOrTrimmed (Split.company r) /\ NullOrTrimmed (Split.medicine_type r)
      /\ Split._source_page r = None)
  /\ (exists m,
         m ∈ Bissoy.parsePageByStructure bissoyListing "https://www.bissoy.com/medicines"
         /\ Trimmed (Bissoy.name_en m)
         /\ NullOrTrimmed (Bissoy.name_bn m) /\ NullOrTrimmed (Bissoy.strength m)
         /\ NullOrTrimmed (Bissoy.generic m) /\ NullOrTrimmed (Bissoy.company m)
         /\ NullOrTrimmed (Bissoy.price m)).
Proof.
  destruct listing_fields_are_trimmed as [Hmedex Hbissoy].
  assert (exists r, Split.parsePageByStructure (listingPage "Napa")
                                               "https://medex.com.bd/brands" = [r])
    as [r Hr] by (eexists; vm_compute; reflexivity).
  assert (exists m, Bissoy.parsePageByStructure bissoyListing
                                                "https://www.bissoy.com/medicines" = [m])
    as [m Hm] by (eexists; vm_compute; reflexivity).
  assert (r ∈ Split.parsePageByStructure (listingPage "Napa") "https://medex.com.bd/brands")
    as Hin by (rewrite Hr; left).
  assert (m ∈ Bissoy.parsePageByStructure bissoyListing "https://www.bissoy.com/medicines")
    as Him by (rewrite Hm; left).
  split.
  - exists r. split; [exact Hin|]. exact (Hmedex _ _ _ Hin).
  - exists m. split; [exact Him|]. exact (Hbissoy _ _ _ Him).
Defined.

Lemma listing_urls_are_absolute_witness :
  (exists r,
      r ∈ Split.parsePageByStructure (listingPage "Napa") "https://medex.com.bd/brands"
      /\ Js.startsWith "http" (Split.source_url r) = true
      /\ normalizeUrl (Split.source_url r) = Split.source_url r
      /\ forall source href link,
          Details.sourceUrlOf (Details.mkItem (Some (Split.source_url r)) source href link)
          = Some (Split.source_url r))
  /\ (exists m,
         m ∈ Bissoy.parsePageByStructure bissoyListing "https://www.bissoy.com/medicines"
         /\ Js.startsWith "http" (Bissoy.source_url m) = true).
Proof.
  destruct listing_urls_are_absolute as [Hmedex Hbissoy].
  assert (exists r, Split.parsePageByStructure (listingPage "Napa")
                                               "https://medex.com.bd/brands" = [r])
    as [r Hr] by (eexists; vm_compute; reflexivity).
  assert (exists m, Bissoy.parsePageByStructure bissoyListing
                                                "https://www.bissoy.com/medicines" = [m])
    as [m Hm] by (eexists; vm_compute; reflexivity).
  assert (r ∈ Split.parsePageByStructure (listingPage "Napa") "https://medex.com.bd/brands")
    as Hin by (rewrite Hr; left).
  assert (m ∈ Bissoy.parsePageByStructure bissoyListing "https://www.bissoy.com/medicines")
    as Him by (rewrite Hm; left).
  split.
  - exists r. split; [exact Hin|]. exact (Hmedex _ _ _ Hin).
  - exists m. split; [exact Him|]. exact (Hbissoy _ _ _ Him).
Defined.

(** ** A run stays inside its index space *)

Section IndexSpace.
Import Js Split.
Variable parse : Dom.Page -> string -> Completion (list Brand).
Variable env : Env.

Lemma batches_failed_range maxPages batchSize maxRetries :
  1 <= batchSize ->
  forall fuel start st,
    1 <= start ->
    (Z.to_nat (maxPages - start + 1) < fuel)%nat ->
    exists st' more,
      batches parse fuel env maxPages batchSize maxRetries start st = Some (Return st')
      /\ failedPages st' = failedPages st ++ more
      /\ forall p, p ∈ more -> start <= p <= maxPages.
Proof.
  intros Hb. induction fuel as [|fuel IH]; intros start st Hs Hfuel; [lia|].
  cbn [batches]. destruct (start <=? maxPages) eqn:Hle.
  - apply Z.leb_le in Hle.
    destruct (fileExistsNonEmpty start (Z.min (start + batchSize - 1) maxPages) (world st)).
    + destruct (IH (start + batchSize) st) as (st' & more & Hrun & Hfp & Hrange);
        [lia | lia |].
      exists st', more. split; [exact Hrun|]. split; [exact Hfp|].
      intros p Hp. specialize (Hrange p Hp). lia.
    + destruct (processBatch_spec parse env maxRetries start
                                  (Z.min (start + batchSize - 1) maxPages) st Hs)
        as (results & new & w1 & st1 & _ & _ & _ & Hpages & Hrun1 & _ & _
            & more1 & Hfp1 & Hmore1).
      rewrite Hrun1.
      destruct (IH (start + batchSize) st1) as (st' & more & Hrun & Hfp & Hrange);
        [lia | lia |].
      exists st', ((failedOf parse results ++ more1) ++ more).
      split; [exact Hrun|]. split; [now rewrite Hfp, Hfp1, !app_assoc|].
      intros p Hp. apply elem_of_app in Hp as [Hp|Hp].
      * assert (p ∈ seqZ start (Z.min (start + batchSize - 1) maxPages - start + 1)) as Hin.
        { apply elem_of_app in Hp as [Hp|Hp]; [|auto].
          rewrite <- Hpages. now apply (failedOf_pages parse). }
        apply elem_of_seqZ in Hin. lia.
      * specialize (Hrange p Hp). lia.
  - exists st, []. rewrite app_nil_r. split; [reflexivity|]. split; [reflexivity|].
    intros p Hp. inversion Hp.
Qed.

Lemma requested_counts u new : EvGet u ∈ new -> requestsFor u new <> 0%nat.
Proof.
  unfold requestsFor. intros Hin.
  assert (In (EvGet u) (List.filter (isGetOf u) new)) as H.
  { apply filter_In. split; [now apply list_elem_of_In|]. cbn. apply String.eqb_refl. }
  destruct (List.filter (isGetOf u) new); [destruct H | discriminate].
Qed.

End IndexSpace.

(** X9.  A run of the batch scheduler stays inside its index space:
    every request of the run is for the address of a page between 1 and
    [maxPages], and every page of the final report lies between 1 and
    [maxPages]. *)
Theorem run_stays_in_index_space
        (parse : Dom.Page -> string -> Js.Completion (list Split.Brand))
        (env : Split.Env) (maxPages batchSize maxRetries : Z) (w : Split.World) :
  1 <= batchSize ->
  exists rep new,
    Split.mainWith parse (S (Z.to_nat maxPages)) env maxPages batchSize maxRetries w
    = Some (Js.Return rep)
    /\ Split.trace (Split.final rep) = new ++ Split.trace w
    /\ (forall u, Split.EvGet u ∈ new ->
                  exists p, 1 <= p <= maxPages /\ u = Split.pageUrl p)
    /\ (forall p, p ∈ Split.failedUnique rep -> 1 <= p <= maxPages).
Proof.
  intros Hb.
  destruct (batches_spec parse env maxPages batchSize maxRetries Hb
                         (S (Z.to_nat maxPages)) 1 (Split.mkRun [] 0 w))
    as (st & new & more & Hrun & Htr & Hpol & _); [lia | lia |].
  destruct (batches_failed_range parse env maxPages batchSize maxRetries Hb
                                 (S (Z.to_nat maxPages)) 1 (Split.mkRun [] 0 w))
    as (st' & more' & Hrun' & Hfp & Hrange); [lia | lia |].
  rewrite Hrun in Hrun'. inversion Hrun'. subst st'. clear Hrun'.
  destruct (failedUnique_spec (Split.failedPages st)) as [_ Hmem].
  eexists _, new. unfold Split.mainWith. rewrite Hrun.
  split; [reflexivity|]. cbn [Split.final Split.failedUnique].
  split; [exact Htr|]. split.
  - intros u Hu. destruct (Hpol u) as [_ Hpage].
    destruct (Hpage (requested_counts u new Hu)) as (p & Hp & ->).
    apply elem_of_seqZ in Hp. exists p. split; [lia | reflexivity].
  - intros p Hp. apply Hmem in Hp. rewrite Hfp in Hp. cbn [Split.failedPages app] in Hp.
    apply Hrange. exact Hp.
Qed.

Lemma run_stays_in_index_space_witness :
  1 <= 5
  /\ exists rep new,
      Split.mainWith (fun html pageUrl => Js.Return (Split.parsePageByStructure html pageUrl))
                     (S (Z.to_nat 5)) flakyEnv 5 5 3 (Split.mkWorld [] ∅)
      = Some (Js.Return rep)
      /\ Split.trace (Split.final rep) = new ++ []
      /\ (forall u, Split.EvGet u ∈ new ->
                    exists p, 1 <= p <= 5 /\ u = Split.pageUrl p)
      /\ (forall p, p ∈ Split.failedUnique rep -> 1 <= p <= 5).
Proof.
  split; [lia|].
  apply (run_stays_in_index_space
           (fun html pageUrl => Js.Return (Split.parsePageByStructure html pageUrl))
           flakyEnv 5 5 3 (Split.mkWorld [] ∅)).
  lia.
Defined.

(** ** The count of saved items *)

Section Accounting.
Import Js Split.
Variable parse : Dom.Page -> string -> Completion (list Brand).
Variable env : Env.

Lemma rejectedAttempts_written url k : recordsWritten (rejectedAttempts url k) = 0.
Proof.
  unfold rejectedAttempts. induction k as [|k IH]; [reflexivity|].
  cbn [replicate concat]. rewrite recordsWritten_app, IH. reflexivity.
Qed.

Lemma fetchAll_written maxRetries pages :
  forall w results w',
    fetchAll env maxRetries pages w = Some (Return results, w') ->
    exists new, trace w' = new ++ trace w /\ recordsWritten new = 0.
Proof.
  intros w results w' Hrun.
  destruct (fetchAll_runs env maxRetries pages w)
    as (results0 & new & w0 & Hrun0 & Htr & _ & _ & Hquiet & _).
  rewrite Hrun0 in Hrun. inversion Hrun. subst. exists new. auto.
Qed.

Lemma batches_written maxPages batchSize maxRetries :
  1 <= batchSize ->
  (forall h s e, disk env h s e = None) ->
  forall fuel start st,
    1 <= start ->
    (Z.to_nat (maxPages - start + 1) < fuel)%nat ->
    exists st' new,
      batches parse fuel env maxPages batchSize maxRetries start st = Some (Return st')
      /\ trace (world st') = new ++ trace (world st)
      /\ totalSaved st' = totalSaved st + recordsWritten new.
Proof.
  intros Hb Hdisk. induction fuel as [|fuel IH]; intros start st Hs Hfuel; [lia|].
  cbn [batches]. destruct (start <=? maxPages) eqn:Hle.
  - apply Z.leb_le in Hle.
    destruct (fileExistsNonEmpty start (Z.min (start + batchSize - 1) maxPages) (world st)).
    + apply IH; lia.
    + destruct (processBatch_spec parse env maxRetries start
                                  (Z.min (start + batchSize - 1) maxPages) st Hs)
        as (results & new0 & w1 & st1 & Hfetch & _ & _ & _ & Hrun1 & Htr1 & Hok & _).
      destruct (Hok (Hdisk _ _ _)) as (_ & _ & Hsaved).
      destruct (fetchAll_written _ _ _ _ _ Hfetch) as (new1 & Htrf & Hzero).
      rewrite Hrun1.
      destruct (IH (start + batchSize) st1) as (st' & new & Hrun & Htr & Htotal);
        [lia | lia |].
      exists st',
             (new ++ EvSleep BATCH_DELAY_MS
                  :: EvWrite start (Z.min (start + batchSize - 1) maxPages)
                             (recordsOf parse results) :: new1).
      split; [exact Hrun|]. split.
      * rewrite Htr, Htr1, Htrf, <- app_assoc. reflexivity.
      * rewrite Htotal, Hsaved, recordsWritten_app.
        unfold recordsWritten in *. cbn [fold_right]. lia.
  - exists st, []. split; [reflexivity|]. split; [reflexivity|]. cbn. lia.
Qed.

End Accounting.

(** X10.  The count that [main] prints is the number of records it wrote:
    in a run during which the disk takes every write, the total of saved
    items of the final report equals the number of records in the writes
    of the run. *)
Theorem saved_count_is_what_was_written
        (parse : Dom.Page -> string -> Js.Completion (list Split.Brand))
        (env : Split.Env) (maxPages batchSize maxRetries : Z) (w : Split.World) :
  1 <= batchSize ->
  (forall h s e, Split.disk env h s e = None) ->
  exists rep new,
    Split.mainWith parse (S (Z.to_nat maxPages)) env maxPages batchSize maxRetries w
    = Some (Js.Return rep)
    /\ Split.trace (Split.final rep) = new ++ Split.trace w
    /\ Split.saved rep = recordsWritten new.
Proof.
  intros Hb Hdisk.
  destruct (batches_written parse env maxPages batchSize maxRetries Hb Hdisk
                            (S (Z.to_nat maxPages)) 1 (Split.mkRun [] 0 w))
    as (st & new & Hrun & Htr & Htotal); [lia | lia |].
  eexists _, new. unfold Split.mainWith. rewrite Hrun.
  split; [reflexivity|]. cbn [Split.final Split.saved]. split; [exact Htr|].
  rewrite Htotal. reflexivity.
Qed.

Lemma saved_count_is_what_was_written_witness :
  1 <= 5
  /\ (forall h s e, Split.disk flakyEnv h s e = None)
  /\ exists rep new,
      Split.mainWith (fun html pageUrl => Js.Return (Split.parsePageByStructure html pageUrl))
                     (S (Z.to_nat 5)) flakyEnv 5 5 3 (Split.mkWorld [] ∅)
      = Some (Js.Return rep)
      /\ Split.trace (Split.final rep) = new ++ []
      /\ Split.saved rep = recordsWritten new.
Proof.
  split; [lia|]. split; [reflexivity|].
  apply (saved_count_is_what_was_written
           (fun html pageUrl => Js.Return (Split.parsePageByStructure html pageUrl))
           flakyEnv 5 5 3 (Split.mkWorld [] ∅)); [lia | reflexivity].
Defined.

(** ** More on the resumable detail loop *)

Section DetailLoop.
Import Js Details.
Variable parseBrandDetail : Dom.Page -> Completion Fields.
Variable env : Env.

Lemma writeFile_trace arr w :
  trace (snd (writeFile env arr w)) = EvWrite arr :: trace w.
Proof. unfold writeFile. now destruct (disk env (trace w)). Qed.

Lemma appendToOutput_trace e w :
  exists arr, trace (snd (appendToOutput env e w)) = EvWrite arr :: trace w.
Proof. eexists. unfold appendToOutput. apply writeFile_trace. Qed.

(** One turn of the loop: the item is skipped and nothing happens, or one
    request is sent, one or two writes are tried, and the loop pauses. *)
Lemma step_effects i item outputArr w :
  file w = Array outputArr ->
  exists outputArr' w',
    step parseBrandDetail env i item (outputArr, w) = (outputArr', w')
    /\ file w' = Array outputArr'
    /\ ((alreadyProcessed outputArr (sourceUrlOf item) = true
         /\ outputArr' = outputArr /\ w' = w)
        \/ (alreadyProcessed outputArr (sourceUrlOf item) = false
            /\ (outputArr' = outputArr \/ exists e, outputArr' = outputArr ++ [e])
            /\ exists writes,
                trace w' = EvSleep REQUEST_DELAY_MS
                             :: writes ++ EvGet (sourceUrlOf item) :: trace w
                /\ forallb isWrite writes = true
                /\ (1 <= length writes <= 2)%nat)).
Proof.
  intros Hfile. unfold step.
  destruct (alreadyProcessed outputArr (sourceUrlOf item)) eqn:Hseen.
  { eexists _, _. split; [reflexivity|]. split; [exact Hfile|]. left. auto. }
  assert (forall (err : Error) w2 pre,
             file w2 = Array outputArr ->
             trace w2 = pre ++ EvGet (sourceUrlOf item) :: trace w ->
             forallb isWrite pre = true -> (length pre <= 1)%nat ->
             exists outputArr' w',
               (let '(outputArr0, w0) :=
                  match appendToOutput env
                          (ErrorRecord (sourceUrlOf item) (errorText err)
                                       (clock env (trace w2)) item) w2 with
                  | (Return _, w3) =>
                      (outputArr ++ [ErrorRecord (sourceUrlOf item) (errorText err)
                                                 (clock env (trace w2)) item], w3)
                  | (Throw _, w3) => (outputArr, w3)
                  end in
                (outputArr0, sleep REQUEST_DELAY_MS w0)) = (outputArr', w')
               /\ file w' = Array outputArr'
               /\ (outputArr' = outputArr \/ exists e, outputArr' = outputArr ++ [e])
               /\ exists writes,
                   trace w' = EvSleep REQUEST_DELAY_MS
                                :: writes ++ EvGet (sourceUrlOf item) :: trace w
                   /\ forallb isWrite writes = true
                   /\ (1 <= length writes <= 2)%nat) as Hcatch.
  { intros err w2 pre Hf2 Htr2 Hpre Hlen.
    set (errObj := ErrorRecord _ _ _ _).
    pose proof (appendToOutput_file env errObj outputArr w2 Hf2) as Hf3.
    destruct (appendToOutput_trace errObj w2) as [arr Htr3].
    destruct (appendToOutput env errObj w2) as [[[]|e3] w3]; cbn [snd] in Htr3;
      eexists _, _; (split; [reflexivity|]); cbn [sleep log file trace];
      (split; [exact Hf3|]); (split; [eauto|]);
      exists (EvWrite arr :: pre); rewrite Htr3, Htr2;
      (split; [reflexivity|]); (split; [exact Hpre | cbn [length]; lia]). }
  unfold fetchHtml.
  destruct (http env (trace w) (sourceUrlOf item)) as [data responseUrl|err].
  - destruct (parseBrandDetail data) as [fields|err].
    + set (parsed := Parsed _ _ _ _ _).
      pose proof (appendToOutput_file env parsed outputArr
                                      (log (EvGet (sourceUrlOf item)) w) Hfile) as Hf2.
      destruct (appendToOutput_trace parsed (log (EvGet (sourceUrlOf item)) w))
        as [arr Htr2].
      destruct (appendToOutput env parsed (log (EvGet (sourceUrlOf item)) w))
        as [[[]|e2] w2]; cbn [snd] in Htr2.
      * eexists _, _. split; [reflexivity|]. cbn [sleep log file trace].
        split; [exact Hf2|]. right. split; [reflexivity|]. split; [eauto|].
        exists [EvWrite arr]. rewrite Htr2. split; [reflexivity|].
        split; [reflexivity | cbn; lia].
      * destruct (Hcatch e2 w2 [EvWrite arr] Hf2) as (o' & w' & Hrun & Hf & Hgrow & Hw);
          [exact Htr2 | reflexivity | cbn; lia |].
        exists o', w'. split; [exact Hrun|]. split; [exact Hf|]. right. auto.
    + destruct (Hcatch err (log (EvGet (sourceUrlOf item)) w) [] Hfile)
        as (o' & w' & Hrun & Hf & Hgrow & Hw); [reflexivity | reflexivity | cbn; lia |].
      exists o', w'. split; [exact Hrun|]. split; [exact Hf|]. right. auto.
  - destruct (Hcatch (fetchFailed err) (log (EvGet (sourceUrlOf item)) w) [] Hfile)
      as (o' & w' & Hrun & Hf & Hgrow & Hw); [reflexivity | reflexivity | cbn; lia |].
    exists o', w'. split; [exact Hrun|]. split; [exact Hf|]. right. auto.
Qed.

Lemma alreadyProcessed_app outputArr added u :
  alreadyProcessed (outputArr ++ added) u = false ->
  alreadyProcessed outputArr u = false.
Proof.
  unfold alreadyProcessed. destruct u as [u|]; [|auto].
  destruct (negb (truthy u)); [auto|].
  rewrite existsb_app. intros H. now apply orb_false_elim in H as [H _].
Qed.

Lemma requestedUrls_app l1 l2 :
  requestedUrls (l1 ++ l2) = requestedUrls l1 ++ requestedUrls l2.
Proof. apply omap_app. Qed.

Lemma pauses_app l1 l2 : pauses (l1 ++ l2) = pauses l1 ++ pauses l2.
Proof. apply omap_app. Qed.

Lemma writes_silent writes :
  forallb isWrite writes = true -> requestedUrls writes = [] /\ pauses writes = [].
Proof.
  induction writes as [|e writes IH]; [auto|]. cbn [forallb].
  intros H. apply andb_prop in H as [He H]. destruct e; try discriminate.
  now apply IH.
Qed.

(** The loop: the store only grows, one request per item that is not
    skipped, in the order of the input, and one pause per request. *)
Lemma loop_effects input :
  forall i outputArr w,
    file w = Array outputArr ->
    exists added new w',
      loop parseBrandDetail env i input (outputArr, w) = (outputArr ++ added, w')
      /\ file w' = Array (outputArr ++ added)
      /\ trace w' = new ++ trace w
      /\ (length added <= length (requestedUrls new))%nat
      /\ sublist (rev (requestedUrls new)) (map sourceUrlOf input)
      /\ pauses new = replicate (length (requestedUrls new)) REQUEST_DELAY_MS
      /\ (forall u, u ∈ requestedUrls new -> alreadyProcessed outputArr u = false).
Proof.
  induction input as [|item input IH]; intros i outputArr w Hfile.
  - exists [], [], w. rewrite app_nil_r. cbn.
    repeat (split; [first [reflexivity | exact Hfile | lia | constructor]|]).
    intros u Hu. inversion Hu.
  - cbn [loop].
    destruct (step_effects i item outputArr w Hfile)
      as (o1 & w1 & Hstep & Hf1 & [(Hseen & -> & ->)|(Hseen & Hgrow & writes & Htr1 & Hw & Hlen)]).
    + rewrite Hstep. destruct (IH (i + 1) outputArr w Hfile)
        as (added & new & w' & Hrun & Hf & Htr & Hcount & Hsub & Hp & Hnew).
      exists added, new, w'. split_and!; auto.
      cbn [map]. now apply sublist_cons.
    + rewrite Hstep. destruct (writes_silent writes Hw) as [Hwr Hwp].
      assert (exists one, o1 = outputArr ++ one /\ (length one <= 1)%nat) as (one & -> & Hone).
      { destruct Hgrow as [->|[e ->]]; [exists []; rewrite app_nil_r | exists [e]];
          cbn; auto. }
      destruct (IH (i + 1) (outputArr ++ one) w1 Hf1)
        as (added & new & w' & Hrun & Hf & Htr & Hcount & Hsub & Hp & Hnew).
      exists (one ++ added),
             (new ++ EvSleep REQUEST_DELAY_MS :: writes ++ [EvGet (sourceUrlOf item)]), w'.
      rewrite app_assoc. split; [exact Hrun|]. split; [exact Hf|].
      assert (requestedUrls (new ++ EvSleep REQUEST_DELAY_MS
                                 :: writes ++ [EvGet (sourceUrlOf item)])
              = requestedUrls new ++ [sourceUrlOf item]) as Hreq.
      { rewrite requestedUrls_app. f_equal.
        change (EvSleep REQUEST_DELAY_MS :: writes ++ [EvGet (sourceUrlOf item)])
          with ([EvSleep REQUEST_DELAY_MS] ++ writes ++ [EvGet (sourceUrlOf item)]).
        now rewrite !requestedUrls_app, Hwr. }
      assert (pauses (new ++ EvSleep REQUEST_DELAY_MS
                          :: writes ++ [EvGet (sourceUrlOf item)])
              = pauses new ++ [REQUEST_DELAY_MS]) as Hpa.
      { rewrite pauses_app. f_equal.
        change (EvSleep REQUEST_DELAY_MS :: writes ++ [EvGet (sourceUrlOf item)])
          with ([EvSleep REQUEST_DELAY_MS] ++ writes ++ [EvGet (sourceUrlOf item)]).
        now rewrite !pauses_app, Hwp. }
      rewrite Hreq, Hpa. split_and!.
      * rewrite Htr, Htr1, <- !app_assoc. cbn [app]. now rewrite <- app_assoc.
      * rewrite !length_app. cbn [length]. lia.
      * rewrite rev_app_distr. cbn [rev app map]. now apply sublist_skip.
      * rewrite Hp, length_app. cbn [length].
        rewrite Nat.add_1_r. now rewrite replicate_S_end.
      * intros u Hu. apply elem_of_app in Hu as [Hu|Hu].
        -- eapply alreadyProcessed_app. eauto.
        -- apply list_elem_of_singleton in Hu. now subst u.
Qed.

End DetailLoop.

Section DetailRun.
Import Js Details.
Variable parseBrandDetail : Dom.Page -> Completion Fields.
Variable env : Env.

Lemma ensureOutputFile_trace w :
  exists writes,
    trace (snd (ensureOutputFile env w)) = writes ++ trace w
    /\ forallb isWrite writes = true.
Proof.
  unfold ensureOutputFile.
  destruct (file w).
  - exists [EvWrite []]. pose proof (writeFile_trace env [] w) as H.
    destruct (writeFile env [] w) as [[[]|e] w1]; cbn [snd] in *; auto.
  - pose proof (writeFile_trace env [] w) as H.
    destruct (writeFile env [] w) as [[[]|e] w1]; cbn [snd] in *.
    + exists [EvWrite []]. auto.
    + pose proof (writeFile_trace env [] w1) as H1.
      exists [EvWrite []; EvWrite []].
      destruct (writeFile env [] w1) as [[[]|e1] w2]; cbn [snd] in *;
        rewrite H1, H; auto.
  - exists [EvWrite []]. pose proof (writeFile_trace env [] w) as H.
    destruct (writeFile env [] w) as [[[]|e] w1]; cbn [snd] in *; auto.
  - exists []. auto.
Qed.

Lemma main_effects input w :
  exists c w' new,
    main parseBrandDetail env input w = (c, w')
    /\ trace w' = new ++ trace w
    /\ sublist (rev (requestedUrls new)) (map sourceUrlOf input)
    /\ pauses new = replicate (length (requestedUrls new)) REQUEST_DELAY_MS
    /\ (forall u, u ∈ requestedUrls new -> alreadyProcessed (stored (file w)) u = false)
    /\ match c with
       | Return _ =>
           exists added,
             file w' = Array (stored (file w) ++ added)
             /\ (length added <= length (requestedUrls new))%nat
       | Throw _ =>
           file w' = file w /\ requestedUrls new = []
           /\ forall arr, file w <> Array arr
       end.
Proof.
  unfold main.
  pose proof (ensureOutputFile_spec env w) as Hens.
  destruct (ensureOutputFile_trace w) as (writes & Htr0 & Hw).
  destruct (writes_silent writes Hw) as [Hwr Hwp].
  destruct (ensureOutputFile env w) as [[outputArr|err] w0] eqn:He; cbn [snd] in Htr0.
  - destruct Hens as [Hfile ->].
    destruct (loop_effects parseBrandDetail env input 0 _ w0 Hfile)
      as (added & new & w' & Hloop & Hf & Htr & Hcount & Hsub & Hp & Hnew).
    rewrite Hloop. cbn [snd].
    exists (Return tt), w', (new ++ writes).
    rewrite requestedUrls_app, pauses_app, Hwr, Hwp, !app_nil_r.
    split; [reflexivity|]. split; [now rewrite Htr, Htr0, app_assoc|].
    split; [exact Hsub|]. split; [exact Hp|]. split; [exact Hnew|].
    exists added. auto.
  - exists (Throw err), w0, writes. rewrite Hwr, Hwp.
    split; [reflexivity|]. split; [exact Htr0|]. split; [apply sublist_nil_l|].
    split; [reflexivity|]. split; [intros u Hu; inversion Hu|].
    split; [exact Hens|]. split; [reflexivity|].
    intros arr Harr. unfold ensureOutputFile in He. rewrite Harr in He. discriminate He.
Qed.

End DetailRun.

(** X11.  The detail fetcher only ever appends to its store: whatever the
    server and the disk do, the records that the output file held before a
    run are still there after it, in the same order, followed by at most
    one new record per input item; and a run that finds an array in the
    output file never throws. *)
Theorem detail_store_only_grows
        (parse : Dom.Page -> Js.Completion Details.Fields)
        (env : Details.Env) (input : list Details.Item) (w : Details.World) :
  (exists added,
      Details.stored (Details.file (snd (Details.main parse env input w)))
      = Details.stored (Details.file w) ++ added
      /\ (length added <= length input)%nat)
  /\ (forall arr, Details.file w = Details.Array arr ->
                  fst (Details.main parse env input w) = Js.Return tt).
Proof.
  destruct (main_effects parse env input w)
    as (c & w' & new & Hrun & _ & Hsub & _ & _ & Hc).
  rewrite Hrun. cbn [fst snd]. apply sublist_length in Hsub.
  rewrite length_rev, length_map in Hsub.
  destruct c as [[]|err].
  - destruct Hc as (added & Hf & Hlen). split; [|reflexivity].
    exists added. rewrite Hf. cbn. split; [reflexivity | lia].
  - destruct Hc as (Hf & _ & Hno). split.
    + exists []. rewrite Hf, app_nil_r. split; [reflexivity | cbn; lia].
    + intros arr Harr. now destruct (Hno arr).
Qed.

Lemma detail_store_only_grows_witness :
  (exists added,
      Details.stored (Details.file (snd (Details.main rawParse downEnv [brandItem]
                                                      (Details.mkWorld [] (Details.Array [])))))
      = Details.stored (Details.Array []) ++ added
      /\ (length added <= length [brandItem])%nat)
  /\ Details.file (Details.mkWorld [] (Details.Array [])) = Details.Array []
  /\ fst (Details.main rawParse downEnv [brandItem] (Details.mkWorld [] (Details.Array [])))
     = Js.Return tt.
Proof.
  destruct (detail_store_only_grows rawParse downEnv [brandItem]
                                    (Details.mkWorld [] (Details.Array [])))
    as [Hgrow Hreturns].
  split; [exact Hgrow|]. split; [reflexivity|]. apply (Hreturns []). reflexivity.
Defined.



(** X13.  A failed item is recorded and never tried again.  When the
    request for an item is rejected, or the extractor throws on the page,
    and the disk takes the write, the turn appends one error record that
    carries the address of the item, the text of the error ([Fetch failed: ]
    and the cause, for a rejected request) and the item itself.  From then
    on an item with a clean address counts as processed, whatever is
    appended later: a later run does not fetch it again. *)
Theorem failed_item_is_recorded
        (parse : Dom.Page -> Js.Completion Details.Fields)
        (env : Details.Env) (i : Z) (item : Details.Item)
        (outputArr : list Details.Entry) (w : Details.World) (msg : string) :
  Details.file w = Details.Array outputArr ->
  Details.alreadyProcessed outputArr (Details.sourceUrlOf item) = false ->
  (forall h, Details.disk env h = None) ->
  ((exists e, Details.http env (Details.trace w) (Details.sourceUrlOf item)
              = Details.Rejected e
              /\ msg = "Fetch failed: " +:+ Js.errorText e)
   \/ (exists data responseUrl e,
          Details.http env (Details.trace w) (Details.sourceUrlOf item)
          = Details.Response data responseUrl
          /\ parse data = Js.Throw e /\ msg = Js.errorText e)) ->
  exists w' errObj,
    Details.step parse env i item (outputArr, w) = (outputArr ++ [errObj], w')
    /\ errObj = Details.ErrorRecord
                  (Details.sourceUrlOf item) msg
                  (Details.clock env (Details.EvGet (Details.sourceUrlOf item)
                                        :: Details.trace w))
                  item
    /\ Details.file w' = Details.Array (outputArr ++ [errObj])
    /\ (Details.Clean item ->
        forall more,
          Details.alreadyProcessed (outputArr ++ [errObj] ++ more)
                                   (Details.sourceUrlOf item) = true).
Proof.
  intros Hfile Hseen Hdisk Hfail.
  assert (forall errObj,
             Details.entryUrl errObj = Details.sourceUrlOf item ->
             Details.Clean item ->
             forall more,
               Details.alreadyProcessed (outputArr ++ [errObj] ++ more)
                                        (Details.sourceUrlOf item) = true) as Hsticky.
  { intros errObj Hurl (su & Hsu & Htrim) more. rewrite Hsu in *.
    destruct (sourceUrlOf_normal item su Hsu) as [Ht Hn].
    apply alreadyProcessed_iff; auto.
    rewrite !map_app, !elem_of_app. right. left. cbn. rewrite Hurl. left. }
  unfold Details.step. rewrite Hseen. unfold Details.fetchHtml.
  destruct Hfail as [(e & Hhttp & ->)|(data & responseUrl & e & Hhttp & Hparse & ->)];
    rewrite Hhttp; rewrite ?Hparse.
  - unfold Details.appendToOutput, Details.writeFile. cbn [Details.log Details.file Details.trace].
    rewrite Hfile, Hdisk. eexists _, _. split; [reflexivity|].
    split; [reflexivity|]. split; [reflexivity|]. apply Hsticky. reflexivity.
  - unfold Details.appendToOutput, Details.writeFile. cbn [Details.log Details.file Details.trace].
    rewrite Hfile, Hdisk. eexists _, _. split; [reflexivity|].
    split; [reflexivity|]. split; [reflexivity|]. apply Hsticky. reflexivity.
Qed.

Lemma failed_item_is_recorded_witness :
  Details.file (Details.mkWorld [] (Details.Array [])) = Details.Array []
  /\ Details.alreadyProcessed [] (Details.sourceUrlOf brandItem) = false
  /\ (forall h, Details.disk downEnv h = None)
  /\ exists w' errObj,
      Details.step rawParse downEnv 0 brandItem ([], Details.mkWorld [] (Details.Array []))
      = ([] ++ [errObj], w')
      /\ errObj = Details.ErrorRecord
                    (Details.sourceUrlOf brandItem) "Fetch failed: connect ECONNREFUSED"
                    (Details.clock downEnv [Details.EvGet (Details.sourceUrlOf brandItem)])
                    brandItem
      /\ Details.file w' = Details.Array ([] ++ [errObj])
      /\ (Details.Clean brandItem ->
          forall more,
            Details.alreadyProcessed ([] ++ [errObj] ++ more)
                                     (Details.sourceUrlOf brandItem) = true).
Proof.
  split; [reflexivity|]. split; [reflexivity|]. split; [reflexivity|].
  apply (failed_item_is_recorded rawParse downEnv 0 brandItem []
                                 (Details.mkWorld [] (Details.Array []))
                                 "Fetch failed: connect ECONNREFUSED");
    [reflexivity | reflexivity | reflexivity |].
  left. eexists. split; reflexivity.
Defined.

(** X14.  The mirror and the store agree.  Whatever the server and the
    disk do, the array that the skip test reads is, at the end of the
    loop, the array of the output file.  So a run that returns leaves a
    file that the next run reads back as it stands: [ensureOutputFile]
    returns its array and writes nothing. *)
Theorem mirror_matches_store
        (parse : Dom.Page -> Js.Completion Details.Fields)
        (env env2 : Details.Env) (input : list Details.Item) (w : Details.World) :
  (forall i outputArr,
      Details.file w = Details.Array outputArr ->
      Details.file (snd (Details.loop parse env i input (outputArr, w)))
      = Details.Array (fst (Details.loop parse env i input (outputArr, w))))
  /\ (fst (Details.main parse env input w) = Js.Return tt ->
      Details.ensureOutputFile env2 (snd (Details.main parse env input w))
      = (Js.Return (Details.stored (Details.file (snd (Details.main parse env input w)))),
         snd (Details.main parse env input w))).
Proof.
  split.
  - intros i outputArr Hfile.
    destruct (loop_effects parse env input i outputArr w Hfile)
      as (added & new & w' & Hloop & Hf & _).
    rewrite Hloop. exact Hf.
  - destruct (main_effects parse env input w) as (c & w' & new & Hrun & _ & _ & _ & _ & Hc).
    rewrite Hrun. cbn [fst snd]. intros ->. destruct Hc as (added & Hf & _).
    unfold Details.ensureOutputFile. rewrite Hf. reflexivity.
Qed.

Lemma mirror_matches_store_witness :
  Details.file (Details.mkWorld [] (Details.Array [])) = Details.Array []
  /\ (exists e,
         fst (Details.loop rawParse downEnv 0 [brandItem]
                           ([], Details.mkWorld [] (Details.Array []))) = [e]
         /\ Details.file (snd (Details.loop rawParse downEnv 0 [brandItem]
                                            ([], Details.mkWorld [] (Details.Array []))))
            = Details.Array [e])
  /\ fst (Details.main rawParse downEnv [brandItem] (Details.mkWorld [] Details.Missing))
     = Js.Return tt
  /\ Details.ensureOutputFile
       plainEnv (snd (Details.main rawParse downEnv [brandItem]
                                   (Details.mkWorld [] Details.Missing)))
     = (Js.Return (Details.stored
                     (Details.file (snd (Details.main rawParse downEnv [brandItem]
                                                      (Details.mkWorld [] Details.Missing))))),
        snd (Details.main rawParse downEnv [brandItem] (Details.mkWorld [] Details.Missing))).
Proof.
  destruct (mirror_matches_store rawParse downEnv plainEnv [brandItem]
                                 (Details.mkWorld [] (Details.Array []))) as [Hloop _].
  destruct (mirror_matches_store rawParse downEnv plainEnv [brandItem]
                                 (Details.mkWorld [] Details.Missing)) as [_ Hmain].
  assert (fst (Details.main rawParse downEnv [brandItem] (Details.mkWorld [] Details.Missing))
          = Js.Return tt) as Hret by (vm_compute; reflexivity).
  assert (exists e, fst (Details.loop rawParse downEnv 0 [brandItem]
                                      ([], Details.mkWorld [] (Details.Array []))) = [e])
    as [e He] by (eexists; vm_compute; reflexivity).
  split; [reflexivity|]. split.
  - exists e. split; [exact He|]. rewrite <- He. exact (Hloop 0 [] eq_refl).
  - split; [exact Hret|]. exact (Hmain Hret).
Defined.

(** ** The section table of the raw-text extractor *)

Section RawSections.
Import Js Json.

Lemma getProp_setProp_eq k v props : getProp k (setProp k v props) = Some v.
Proof.
  induction props as [|[k' v'] props IH]; cbn [setProp getProp].
  - now rewrite String.eqb_refl.
  - destruct (String.eqb k' k) eqn:E; cbn [getProp].
    + now rewrite String.eqb_refl.
    + now rewrite E.
Qed.

Lemma getProp_setProp_ne k k' v props :
  k <> k' -> getProp k' (setProp k v props) = getProp k' props.
Proof.
  intros Hne. induction props as [|[k0 v0] props IH]; cbn [setProp getProp].
  - now rewrite (proj2 (String.eqb_neq k k') Hne).
  - destruct (String.eqb k0 k) eqn:E; cbn [getProp].
    + apply String.eqb_eq in E. subst k0.
      now rewrite (proj2 (String.eqb_neq k k') Hne).
    + now rewrite IH.
Qed.

Lemma fold_setProp (f : string -> option JsVal) (k : string) (ids : list string) :
  NoDup ids ->
  forall acc,
    getProp k (fold_left (fun props id =>
                            match f id with
                            | Some v => setProp id v props
                            | None => props
                            end) ids acc)
    = if bool_decide (k ∈ ids)
      then match f k with Some v => Some v | None => getProp k acc end
      else getProp k acc.
Proof.
  induction ids as [|id ids IH]; intros Hnd acc; cbn [fold_left]; [reflexivity|].
  apply NoDup_cons in Hnd as [Hid Hnd]. rewrite (IH Hnd).
  destruct (decide (k = id)) as [->|Hne].
  - rewrite (bool_decide_eq_false_2 _ Hid).
    rewrite bool_decide_eq_true_2 by left.
    destruct (f id); [apply getProp_setProp_eq | reflexivity].
  - assert (getProp k match f id with
                      | Some v => setProp id v acc
                      | None => acc
                      end = getProp k acc) as ->.
    { destruct (f id); [|reflexivity]. apply getProp_setProp_ne. congruence. }
    destruct (decide (k ∈ ids)) as [Hin|Hin].
    + rewrite !bool_decide_eq_true_2; [reflexivity | now right | exact Hin].
    + rewrite !bool_decide_eq_false_2; [reflexivity | | exact Hin].
      intros H. apply elem_of_cons in H as [H|H]; auto.
Qed.

Lemma fold_left_agree {A B} (f g : A -> B -> A) (l : list B) :
  (forall a b, f a b = g a b) -> forall a, fold_left f l a = fold_left g l a.
Proof.
  intros H. induction l as [|b l IH]; intros a; cbn [fold_left]; [reflexivity|].
  now rewrite H, IH.
Qed.

End RawSections.

(** X15.  The section table of the raw-text extractor holds what was
    found and nothing else: it has a key exactly for the section names of
    the script whose text was found, and the value is that text, which is
    not empty.  A section that is missing or blank has no key (not a
    [null]), and no other key is ever there. *)
Theorem raw_sections_hold_found_texts (doc : Dom.Page) (id : string) :
  Json.get id (Json.JObj (Details.sections doc))
  = (if bool_decide (id ∈ Details.sectionIds)
     then match Details.sectionText doc id with
          | Some t => if Js.truthy t then Some (Json.JStr t) else None
          | None => None
          end
     else None)
  /\ (forall v, Json.get id (Json.JObj (Details.sections doc)) = Some v ->
                exists t, v = Json.JStr t /\ Js.truthy t = true).
Proof.
  assert (Json.get id (Json.JObj (Details.sections doc))
          = (if bool_decide (id ∈ Details.sectionIds)
             then match Details.sectionText doc id with
                  | Some t => if Js.truthy t then Some (Json.JStr t) else None
                  | None => None
                  end
             else None)) as Heq.
  { unfold Details.sections. cbn [Json.get].
    assert (NoDup Details.sectionIds) as Hnd
        by (apply (bool_decide_unpack _); vm_compute; exact I).
    set (f := fun id => match Details.sectionText doc id with
                        | Some t => if Js.truthy t then Some (Json.JStr t) else None
                        | None => None
                        end).
    transitivity (Json.getProp id
                    (fold_left (fun props id =>
                                  match f id with
                                  | Some v => Json.setProp id v props
                                  | None => props
                                  end) Details.sectionIds [])).
    - f_equal. apply fold_left_agree. intros props i. unfold f.
      destruct (Details.sectionText doc i) as [t|]; [destruct (Js.truthy t)|]; reflexivity.
    - rewrite (fold_setProp f id Details.sectionIds Hnd []). cbn [Json.getProp].
      unfold f.
      destruct (Details.sectionText doc id) as [t|]; [destruct (Js.truthy t)|]; reflexivity. }
  split; [exact Heq|].
  intros v. rewrite Heq. destruct (bool_decide _); [|discriminate].
  destruct (Details.sectionText doc id) as [t|]; [|discriminate].
  destruct (Js.truthy t) eqn:Ht; [|discriminate].
  intros H. inversion H. eauto.
Qed.

Lemma raw_sections_hold_found_texts_witness :
  Json.get "indications" (Json.JObj (Details.sections sectionPage))
  = Some (Json.JStr "Uses Fever and pain headache toothache")
  /\ exists t, Json.JStr "Uses Fever and pain headache toothache" = Json.JStr t
               /\ Js.truthy t = true.
Proof.
  assert (Json.get "indications" (Json.JObj (Details.sections sectionPage))
          = Some (Json.JStr "Uses Fever and pain headache toothache")) as H
      by (vm_compute; reflexivity).
  split; [exact H|].
  exact (proj2 (raw_sections_hold_found_texts sectionPage "indications") _ H).
Defined.

(** ** When the structured extractor throws *)

Section DosageThrows.
Import Js Dom Structured Structured.Dosage.

Lemma forEach_throws {A B} (body : A -> B -> Completion A) (bad : B -> bool) (e0 : Error) :
  (forall a b, bad b = true -> body a b = Throw e0) ->
  (forall a b, bad b = false -> exists a', body a b = Return a') ->
  forall l a,
    if existsb bad l then forEach body l a = Throw e0
    else exists a', forEach body l a = Return a'.
Proof.
  intros Hbad Hgood. induction l as [|b l IH]; intros a; cbn [existsb forEach].
  - eauto.
  - destruct (bad b) eqn:Hb; cbn [orb].
    + now rewrite (Hbad a b Hb).
    + destruct (Hgood a b Hb) as [a' ->]. cbn [andThen]. apply IH.
Qed.

Lemma dosageItem_plain groups li :
  if plainItem li then dosageItem groups li = Throw nullLength
  else exists groups', dosageItem groups li = Return groups'.
Proof.
  unfold plainItem, dosageItem.
  destruct (strongChildren li) as [|s rest] eqn:Hs; cbn [head].
  - rewrite bool_decide_eq_true_2 by reflexivity. cbn [andb].
    destruct (truthy (normWs (textContent li))); [reflexivity | eauto].
  - rewrite bool_decide_eq_false_2 by discriminate. cbn [andb pushGroup]. eauto.
Qed.

Lemma dosageStep_mixed w nd :
  if isMixedList nd then dosageStep w nd = Throw nullLength
  else exists w', dosageStep w nd = Return w'.
Proof.
  unfold isMixedList. destruct nd as [data|data|t attrs cs]; cbn [hasTag andb dosageStep].
  - eauto.
  - eauto.
  - destruct (isTagType (Elem t attrs cs)) eqn:Htag; cbn [negb].
    2:{ destruct (String.eqb t "ul") eqn:E; cbn [andb]; [|eauto].
        apply String.eqb_eq in E. subst t. discriminate Htag. }
    destruct (String.eqb t "strong") eqn:Estrong.
    + apply String.eqb_eq in Estrong. subst t.
      replace (String.eqb "strong" "ul") with false by reflexivity. cbn [andb].
      change (hasTag "strong" (Elem "strong" attrs cs)) with true. cbv iota.
      destruct (flush_returns w) as (w' & -> & _). cbn [andThen]. eauto.
    + destruct (String.eqb t "ul"); cbn [andb]; [|eauto].
      destruct (liHasStrong (Elem t attrs cs)); cbn [andb]; [|eauto].
      destruct (flush_returns w) as (w' & -> & _). cbn [andThen].
      assert (Hbad : forall a b, plainItem b = true -> dosageItem a b = Throw nullLength).
      { intros a b Hb. pose proof (dosageItem_plain a b) as H. now rewrite Hb in H. }
      assert (Hgood : forall a b, plainItem b = false ->
                                  exists a', dosageItem a b = Return a').
      { intros a b Hb. pose proof (dosageItem_plain a b) as H. now rewrite Hb in H. }
      pose proof (forEach_throws dosageItem plainItem nullLength Hbad Hgood
                                 (liChildren (Elem t attrs cs)) (dosageArray w')) as H.
      destruct (existsb plainItem (liChildren (Elem t attrs cs))).
      * now rewrite H.
      * destruct H as [groups ->]. cbn [andThen]. eauto.
Qed.

Lemma parseDosageBody_mixed body :
  if existsb isMixedList (children body) then parseDosageBody body = Throw nullLength
  else exists groups, parseDosageBody body = Return groups.
Proof.
  unfold parseDosageBody.
  assert (Hbad : forall w nd, isMixedList nd = true -> dosageStep w nd = Throw nullLength).
  { intros w nd Hb. pose proof (dosageStep_mixed w nd) as H. now rewrite Hb in H. }
  assert (Hgood : forall w nd, isMixedList nd = false -> exists w', dosageStep w nd = Return w').
  { intros w nd Hb. pose proof (dosageStep_mixed w nd) as H. now rewrite Hb in H. }
  pose proof (forEach_throws dosageStep isMixedList nullLength Hbad Hgood
                             (children body) (mkWalk [] None [] [])) as H.
  destruct (existsb isMixedList (children body)).
  - now rewrite H.
  - destruct H as [w ->]. cbn [andThen].
    destruct (flush_returns w) as (w' & -> & _). cbn [andThen].
    destruct (dosageArray w'); [|eauto].
    destruct (normText [body]) as [plain|]; [|eauto].
    destruct (truthy plain); eauto.
Qed.

End DosageThrows.

(** X16.  When the structured extractor throws.  On a page that the HTML
    parser has read, [parseBrandDetail] throws exactly when the dosage
    container has, among its children, a [ul] that mixes items with a bold
    child and items without one that have text: there it throws the
    [TypeError] of reading [.length] of [null], and no record is built.  On
    every other page it returns a record. *)
Theorem parseBrandDetail_throws_on_mixed_list
        (matchFormula : string -> option string)
        (html : Dom.Page) (pageUrl : option string) (now : string) :
  if hasMixedList html
  then Structured.parseBrandDetail matchFormula html pageUrl now = Js.Throw Js.nullLength
  else exists v, Structured.parseBrandDetail matchFormula html pageUrl now = Js.Return v.
Proof.
  unfold hasMixedList, Structured.parseBrandDetail, Structured.Dosage.parseDosage.
  destruct (Structured.Dosage.dosageBody html) as [body|]; [|cbn [Js.andThen]; eauto].
  pose proof (parseDosageBody_mixed body) as H.
  destruct (existsb isMixedList (Dom.children body)).
  - now rewrite H.
  - destruct H as [groups ->]. cbn [Js.andThen]. eauto.
Qed.

(** ** What the section walk keeps *)

Section SectionWalk.
Import Js Dom Structured.

Lemma normalized_app l1 l2 : normalized l1 -> normalized l2 -> normalized (l1 ++ l2).
Proof. apply Forall_app_2. Qed.

Lemma normalized_flat_map {A} (f : A -> list string) (l : list A) :
  (forall x, normalized (f x)) -> normalized (flat_map f l).
Proof.
  intros Hf. induction l as [|x l IH]; cbn [flat_map]; [constructor|].
  now apply normalized_app.
Qed.

Lemma sectionItems_normalized nd : normalized (sectionItems nd).
Proof.
  unfold sectionItems. destruct (negb (isTagType nd) || hasTag "strong" nd); [constructor|].
  destruct (isList nd); [apply liTexts_normalized|].
  apply normalized_flat_map. intros x. apply liTexts_normalized.
Qed.




(** The groups of a walk, counted against the headings met. *)
Lemma flushCurrent_length w : (length (out (flushCurrent w)) <= S (length (out w)))%nat.
Proof.
  unfold flushCurrent. cbn [out]. destruct (_ || _); [|lia].
  rewrite length_app. cbn. lia.
Qed.

Lemma walk_length nodes :
  forall w, (length (out (fold_left sectionStep nodes w))
             <= length (out w) + length (filter (fun nd => isHeading nd) nodes))%nat.
Proof.
  induction nodes as [|nd nodes IH]; intros w; cbn [fold_left]; [cbn; lia|].
  specialize (IH (sectionStep w nd)). rewrite filter_cons.
  assert (length (out (sectionStep w nd))
          <= length (out w) + (if isHeading nd then 1 else 0))%nat as Hstep.
  { unfold isHeading. destruct nd as [data|data|t attrs cs].
    - cbn [sectionStep isTagType andb]. destruct (truthy (normWs data)); cbn; lia.
    - cbn [sectionStep isTagType andb]. lia.
    - cbn [sectionStep]. destruct (isTagType (Elem t attrs cs)); cbn [negb andb]; [|lia].
      destruct (hasTag "strong" (Elem t attrs cs)).
      + cbn [out]. pose proof (flushCurrent_length w). lia.
      + destruct (isList (Elem t attrs cs)); cbn [out]; lia. }
  destruct (decide (isHeading nd)) as [Hh|Hh].
  - apply Is_true_true in Hh. rewrite Hh in Hstep. cbn [length]. lia.
  - apply Is_true_false in Hh. rewrite Hh in Hstep. lia.
Qed.

End SectionWalk.


(** X18.  The groups of a section come from its headings: a section has at
    most one group more than its container has bold children, so a
    container without a bold child yields at most one group. *)
Theorem section_groups_are_bounded (body : Dom.node) :
  (length (Structured.parseSectionBody body)
   <= S (length (filter (fun nd => isHeading nd) (Dom.children body))))%nat.
Proof.
  assert (length (Structured.walkSection body)
          <= S (length (filter (fun nd => isHeading nd) (Dom.children body))))%nat as Hwalk.
  { unfold Structured.walkSection.
    pose proof (walk_length (Dom.children body) (Structured.mkWalk [] None [] [])) as H.
    pose proof (flushCurrent_length
                  (fold_left Structured.sectionStep (Dom.children body)
                             (Structured.mkWalk [] None [] []))) as H'.
    cbn [Structured.out length] in H. lia. }
  unfold Structured.parseSectionBody.
  destruct (Structured.walkSection body) as [|g groups]; [|exact Hwalk].
  destruct (Structured.nullIfFalsy _); cbn; lia.
Qed.

(** ** Texts and addresses of the structured record *)

Section Texts.
Import Js Dom Structured.

Lemma trim_normWs s : trim (normWs s) = normWs s.
Proof.
  unfold trim, normWs. rewrite list_ascii_of_string_of_list_ascii. f_equal.
  destruct (trimList_noLead (collapse false (list_ascii_of_string s))).
  now apply trimList_id.
Qed.

Lemma normText_normal sel s :
  normText sel = Some s -> truthy s = true /\ normWs s = s /\ trim s = s.
Proof.
  unfold normText. destruct sel as [|n sel]; [discriminate|].
  unfold orNull. destruct (truthy (normWs (text (n :: sel)))) eqn:E; [|discriminate].
  intros H. inversion H. subst s.
  split; [exact E|]. split; [apply normWs_idempotent | apply trim_normWs].
Qed.

Lemma liTexts_trimmed lst : Forall Trimmed (liTexts lst).
Proof.
  pose proof (liTexts_normalized lst) as H.
  eapply Forall_impl; [exact H|]. intros t [Ht Hn]. split; [exact Ht|].
  rewrite <- Hn. apply trim_normWs.
Qed.

Lemma makeAbs_absolute v u :
  makeAbs v = Some u -> truthy u = true /\ isAbsolute u = true /\ makeAbs (Some u) = Some u.
Proof.
  unfold makeAbs. destruct v as [src|]; [|discriminate].
  destruct (truthy src) eqn:Ht; cbn [negb]; [|discriminate].
  assert (forall x, truthy x = true -> isAbsolute x = true ->
                    truthy x = true /\ isAbsolute x = true
                    /\ (if negb (truthy x) then None
                        else if startsWith "http://" (Str.lower x)
                                || startsWith "https://" (Str.lower x)
                             then Some x
                             else if startsWith "/" x then Some (ORIGIN +:+ x)
                                  else Some (ORIGIN +:+ "/" +:+ x)) = Some x) as Hfix.
  { intros x Hx Ha. split; [exact Hx|]. split; [exact Ha|].
    rewrite Hx. cbn [negb]. unfold isAbsolute in Ha. now rewrite Ha. }
  destruct (startsWith "http://" (Str.lower src) || startsWith "https://" (Str.lower src))
           eqn:Habs.
  - intros H. inversion H. subst u. now apply Hfix.
  - destruct (startsWith "/" src); intros H; inversion H; subst u;
      apply Hfix; reflexivity.
Qed.

Lemma absHref_absolute v u :
  absHref v = Some u -> startsWith "http" u = true /\ absHref (Some u) = Some u.
Proof.
  unfold absHref. destruct v as [h|]; [|discriminate].
  destruct (truthy h) eqn:Ht; cbn [negb]; [|discriminate].
  destruct (startsWith "http" h) eqn:Hh; intros H; inversion H; subst u.
  - split; [exact Hh|]. now rewrite Ht, Hh.
  - split; reflexivity.
Qed.

End Texts.

(** X19.  [normText] (and [cleanText], the same function) never returns the
    empty string: its result is [null] or a text that is not empty, has no
    white space around it and is its own normal form: no white space but
    single blanks. *)
Theorem normText_is_normal (sel : list Dom.node) (s : string) :
  Structured.normText sel = Some s ->
  Js.truthy s = true /\ Js.normWs s = s /\ Js.trim s = s
  /\ Js.tidy false (list_ascii_of_string s) = true.
Proof.
  intros H. destruct (normText_normal sel s H) as (Ht & Hn & Htrim).
  split; [exact Ht|]. split; [exact Hn|]. split; [exact Htrim|].
  rewrite <- Hn. unfold Js.normWs. rewrite list_ascii_of_string_of_list_ascii.
  apply trimList_tidy. apply tidy_collapse.
Qed.

Lemma normText_is_normal_witness :
  Structured.normText [Dom.Text "  Napa   500 mg "] = Some "Napa 500 mg"
  /\ Js.truthy "Napa 500 mg" = true /\ Js.normWs "Napa 500 mg" = "Napa 500 mg"
  /\ Js.trim "Napa 500 mg" = "Napa 500 mg"
  /\ Js.tidy false (list_ascii_of_string "Napa 500 mg") = true.
Proof.
  assert (Structured.normText [Dom.Text "  Napa   500 mg "] = Some "Napa 500 mg") as H
      by reflexivity.
  split; [exact H|]. exact (normText_is_normal _ _ H).
Defined.

(** X20.  The addresses of the structured record are [null] or absolute.
    [makeAbs] returns [null] or an address that begins with [http://] or
    [https://] in any case, and leaves such an address as it is; so the
    pack image is [null] or absolute.  The [href] of every sibling brand
    and the address of the alternate brands are [null] or begin with
    [http]. *)
Theorem detail_urls_are_absolute (doc : Dom.Page) :
  (forall v u, Structured.makeAbs v = Some u ->
               isAbsolute u = true /\ Structured.makeAbs (Some u) = Some u)
  /\ (forall u, Structured.packImageOf doc = Some u -> isAbsolute u = true)
  /\ (forall a u, a ∈ Structured.alsoAvailableOf doc ->
                  Structured.sb_href a = Some u -> Js.startsWith "http" u = true)
  /\ (forall u, Structured.alternateBrandsUrlOf doc = Some u ->
                Js.startsWith "http" u = true).
Proof.
  split; [|split; [|split]].
  - intros v u H. destruct (makeAbs_absolute v u H) as (_ & Ha & Hfix). auto.
  - intros u. unfold Structured.packImageOf.
    destruct (head _) as [img|]; [|discriminate].
    destruct (Structured.imgSrc img) as [src|]; [|discriminate].
    intros H. now destruct (makeAbs_absolute _ _ H) as (_ & Ha & _).
  - intros a u Ha Hu. unfold Structured.alsoAvailableOf in Ha.
    apply list_elem_of_fmap in Ha as (n & -> & _). cbn in Hu.
    now destruct (absHref_absolute _ _ Hu).
  - intros u Hu. unfold Structured.alternateBrandsUrlOf in Hu.
    now destruct (absHref_absolute _ _ Hu).
Qed.

Lemma detail_urls_are_absolute_witness :
  (Structured.makeAbs (Some "storage/napa.jpg") = Some "https://medex.com.bd/storage/napa.jpg"
   /\ isAbsolute "https://medex.com.bd/storage/napa.jpg" = true
   /\ Structured.makeAbs (Some "https://medex.com.bd/storage/napa.jpg")
      = Some "https://medex.com.bd/storage/napa.jpg")
  /\ (Structured.packImageOf linksPage = Some "https://medex.com.bd/storage/napa.jpg"
      /\ isAbsolute "https://medex.com.bd/storage/napa.jpg" = true)
  /\ (exists a u, a ∈ Structured.alsoAvailableOf linksPage
                  /\ Structured.sb_href a = Some u /\ Js.startsWith "http" u = true)
  /\ (Structured.alternateBrandsUrlOf linksPage
      = Some "https://medex.com.bd/generics/4/brand-names"
      /\ Js.startsWith "http" "https://medex.com.bd/generics/4/brand-names" = true).
Proof.
  destruct (detail_urls_are_absolute linksPage) as (Habs & Himg & Hsib & Halt).
  assert (Structured.makeAbs (Some "storage/napa.jpg")
          = Some "https://medex.com.bd/storage/napa.jpg") as H1 by reflexivity.
  assert (Structured.packImageOf linksPage = Some "https://medex.com.bd/storage/napa.jpg")
    as H2 by (vm_compute; reflexivity).
  assert (exists a, Structured.alsoAvailableOf linksPage = [a]
                    /\ Structured.sb_href a = Some "https://medex.com.bd/brands/2/napa-syrup")
    as (a & Ha & Hhref) by (eexists; split; vm_compute; reflexivity).
  assert (Structured.alternateBrandsUrlOf linksPage
          = Some "https://medex.com.bd/generics/4/brand-names") as H4
      by (vm_compute; reflexivity).
  split; [|split; [|split]].
  - split; [exact H1|]. exact (Habs _ _ H1).
  - split; [exact H2|]. exact (Himg _ H2).
  - exists a, "https://medex.com.bd/brands/2/napa-syrup".
    assert (a ∈ Structured.alsoAvailableOf linksPage) as Hin by (rewrite Ha; left).
    split; [exact Hin|]. split; [exact Hhref|]. exact (Hsib _ _ Hin Hhref).
  - split; [exact H4|]. exact (Halt _ H4).
Defined.

Section Questions.
Import Js Dom Structured.

Lemma extractAnswerArray_trimmed c : Forall Trimmed (extractAnswerArray c).
Proof.
  unfold extractAnswerArray. destruct c as [c|]; [|constructor].
  apply Forall_forall. intros t Ht.
  apply list_elem_of_filter in Ht as [Ht Hin].
  apply list_elem_of_fmap in Hin as (x & -> & _).
  split; [now destruct (truthy (trim x)) | apply trim_idempotent].
Qed.

Lemma questionOf_spec el q :
  questionOf el = Some q ->
  NullOrTrimmed (question q)
  /\ Forall Trimmed (answer q)
  /\ (question q <> None \/ answer q <> []).
Proof.
  unfold questionOf. cbv zeta.
  set (qt := orElse _ _). set (ansEl := head _).
  set (arr := match extractAnswerArray ansEl, ansEl with
              | [], Some a => _
              | _, _ => _
              end).
  assert (NullOrTrimmed qt) as Hq.
  { unfold qt, orElse.
    destruct (normText (option_list (head (find (hasClass "caq-q") el)))) as [s|] eqn:E1.
    - destruct (normText_normal _ _ E1) as (Ht & _ & Htrim). rewrite Ht.
      split; auto.
    - destruct (normText (option_list (head (find (hasTag "h4") el)))) as [s|] eqn:E2;
        [|exact I].
      destruct (normText_normal _ _ E2) as (Ht & _ & Htrim). split; auto. }
  assert (Forall Trimmed arr) as Harr.
  { unfold arr. pose proof (extractAnswerArray_trimmed ansEl) as H.
    destruct (extractAnswerArray ansEl) as [|t ts]; [|exact H].
    destruct ansEl as [a|]; [|constructor].
    unfold nullIfFalsy. destruct (normText [a]) as [s|] eqn:E; cbn [falsy]; [|constructor].
    destruct (normText_normal _ _ E) as (Ht & _ & Htrim). rewrite Ht. cbn [negb].
    repeat constructor; auto. }
  destruct (negb (falsy qt) || negb (bool_decide (arr = []))) eqn:E; [|discriminate].
  intros H. inversion H. subst q. cbn [question answer].
  split; [exact Hq|]. split; [exact Harr|].
  apply orb_prop in E as [E|E].
  - left. intros Hn. rewrite Hn in E. discriminate E.
  - right. apply negb_true_iff, bool_decide_eq_false in E. exact E.
Qed.

End Questions.

(** X21.  No empty question: every entry of [common_questions] has a
    question or at least one answer; its question is [null] or a text
    that is not empty and has no white space around it, and so is each of
    its answers: no answer is the empty string. *)
Theorem common_questions_say_something (doc : Dom.Page) (q : Structured.Question) :
  q ∈ Structured.commonQuestionsOf doc ->
  NullOrTrimmed (Structured.question q)
  /\ Forall Trimmed (Structured.answer q)
  /\ (Structured.question q <> None \/ Structured.answer q <> []).
Proof.
  unfold Structured.commonQuestionsOf. cbv zeta.
  assert (forall l : list Dom.node, q ∈ omap Structured.questionOf l ->
                    NullOrTrimmed (Structured.question q)
                    /\ Forall Trimmed (Structured.answer q)
                    /\ (Structured.question q <> None \/ Structured.answer q <> [])) as H.
  { intros l Hq. apply list_elem_of_omap in Hq as (el & _ & Hel).
    now apply (questionOf_spec el). }
  destruct (head _) as [commBlock|].
  - destruct (omap Structured.questionOf (Structured.find _ commBlock)) as [|q0 qs] eqn:E.
    + apply H.
    + rewrite <- E. apply H.
  - apply H.
Qed.

Lemma common_questions_say_something_witness :
  exists q,
    q ∈ Structured.commonQuestionsOf faqPage
    /\ NullOrTrimmed (Structured.question q)
    /\ Forall Trimmed (Structured.answer q)
    /\ (Structured.question q <> None \/ Structured.answer q <> []).
Proof.
  assert (exists q, Structured.commonQuestionsOf faqPage = [q]) as [q Hq]
      by (eexists; vm_compute; reflexivity).
  assert (q ∈ Structured.commonQuestionsOf faqPage) as Hin by (rewrite Hq; left).
  exists q. split; [exact Hin|]. exact (common_questions_say_something faqPage q Hin).
Defined.

Section PricingAgain.
Import Js Structured.

Lemma dedupe_fixed entries :
  forall seenPK : gset string,
    NoDup (map pkKey entries) ->
    (forall p, p ∈ entries -> pkKey p ∉ seenPK) ->
    dedupe seenPK entries = entries.
Proof.
  induction entries as [|p entries IH]; intros seenPK Hnd Hnew; [reflexivity|].
  cbn [dedupe]. cbn [map] in Hnd. apply NoDup_cons in Hnd as [Hp Hnd].
  rewrite bool_decide_eq_false_2 by (apply Hnew; left).
  f_equal. apply IH; [exact Hnd|].
  intros q Hq. rewrite elem_of_union, elem_of_singleton. intros [Heq|Hin].
  - apply Hp. rewrite <- Heq. apply list_elem_of_fmap. eauto.
  - apply (Hnew q); [now right | exact Hin].
Qed.

End PricingAgain.

(** X22.  The package list is a fixed point of the deduplication, and the
    pricing depends on the discovered entries only through it: resolving
    the prices again from the packages of a pricing gives the same
    pricing. *)
Theorem pricing_of_packages_is_stable (entries : list Structured.Package) :
  Structured.dedupe ∅ (Structured.pr_packages (Structured.pricingOf entries))
  = Structured.pr_packages (Structured.pricingOf entries)
  /\ Structured.pricingOf (Structured.pr_packages (Structured.pricingOf entries))
     = Structured.pricingOf entries.
Proof.
  assert (Structured.dedupe ∅ (Structured.dedupe ∅ entries) = Structured.dedupe ∅ entries)
    as Hfix.
  { destruct (dedupe_spec entries ∅) as (Hnd & _ & _ & _).
    apply dedupe_fixed; [exact Hnd|]. intros p _. apply not_elem_of_empty. }
  split; [exact Hfix|].
  unfold Structured.pricingOf. cbn [Structured.pr_packages]. now rewrite Hfix.
Qed.

(** ** More on [normalizeUrl] *)

(** X23.  [normalizeUrl] makes every address that is not empty absolute:
    its result begins with [http].  The empty string stays empty.  A
    relative path gives the same address with and without its leading
    slash. *)
Theorem normalizeUrl_is_absolute (u : string) :
  (Js.truthy u = true -> Js.startsWith "http" (normalizeUrl u) = true)
  /\ normalizeUrl "" = ""
  /\ (Js.truthy u = true -> Js.startsWith "http" u = false -> Js.startsWith "/" u = false ->
      normalizeUrl ("/" +:+ u) = normalizeUrl u
      /\ normalizeUrl u = ORIGIN +:+ "/" +:+ u).
Proof.
  split; [|split; [reflexivity|]].
  - intros Ht. unfold normalizeUrl. rewrite Ht.
    destruct (Js.startsWith "http" u) eqn:Hh; [exact Hh|].
    destruct (Js.startsWith "/" u); reflexivity.
  - intros Ht Hh Hs.
    assert (normalizeUrl u = ORIGIN +:+ "/" +:+ u) as Hu
        by (unfold normalizeUrl; now rewrite Ht, Hh, Hs).
    split; [|exact Hu]. rewrite Hu. destruct u as [|c u]; [discriminate Ht | reflexivity].
Qed.

Lemma normalizeUrl_is_absolute_witness :
  Js.truthy "brands/1" = true
  /\ Js.startsWith "http" "brands/1" = false
  /\ Js.startsWith "/" "brands/1" = false
  /\ Js.startsWith "http" (normalizeUrl "brands/1") = true
  /\ normalizeUrl ("/" +:+ "brands/1") = normalizeUrl "brands/1"
  /\ normalizeUrl "brands/1" = ORIGIN +:+ "/" +:+ "brands/1".
Proof.
  destruct (normalizeUrl_is_absolute "brands/1") as (Habs & _ & Hrel).
  split; [reflexivity|]. split; [reflexivity|]. split; [reflexivity|].
  split; [apply Habs; reflexivity|].
  apply Hrel; reflexivity.
Defined.

(** ** The fields of the section groups *)

Section GroupFields.
Import Js Dom Structured.

Lemma itemsArr_trimmed l : Forall Trimmed (itemsArr l).
Proof.
  unfold itemsArr. apply Forall_forall. intros t Ht.
  apply list_elem_of_filter in Ht as [Ht Hin].
  apply list_elem_of_fmap in Hin as (x & -> & _).
  split; [now destruct (truthy (normWs x)) | apply trim_normWs].
Qed.

Lemma nullIfFalsy_trimmed v : NullOrTrimmed v -> NullOrTrimmed (nullIfFalsy v).
Proof. unfold nullIfFalsy. destruct (falsy v); [intros _; exact I | auto]. Qed.

Lemma normText_trimmed sel : NullOrTrimmed (normText sel).
Proof.
  destruct (normText sel) as [s|] eqn:E; [|exact I].
  destruct (normText_normal sel s E) as (Ht & _ & Htrim). split; auto.
Qed.

Lemma orNull_normWs s : NullOrTrimmed (orNull (normWs s)).
Proof.
  unfold orNull. destruct (truthy (normWs s)) eqn:E; [|exact I].
  split; [exact E | apply trim_normWs].
Qed.

Lemma flushCurrent_fields w :
  NullOrTrimmed (currTitle w) -> Forall GroupOk (out w) ->
  NullOrTrimmed (currTitle (flushCurrent w)) /\ Forall GroupOk (out (flushCurrent w)).
Proof.
  intros Ht Hout. unfold flushCurrent. cbn [currTitle out]. split; [exact I|].
  destruct (_ || _); [|exact Hout].
  apply Forall_app_2; [exact Hout|]. constructor; [|constructor].
  split; [now apply nullIfFalsy_trimmed|]. split; [apply orNull_normWs|].
  apply itemsArr_trimmed.
Qed.

Lemma sectionStep_fields w nd :
  NullOrTrimmed (currTitle w) -> Forall GroupOk (out w) ->
  NullOrTrimmed (currTitle (sectionStep w nd)) /\ Forall GroupOk (out (sectionStep w nd)).
Proof.
  intros Ht Hout. destruct nd as [data|data|t attrs cs]; cbn [sectionStep].
  - destruct (truthy (normWs data)); auto.
  - auto.
  - destruct (negb (isTagType (Elem t attrs cs))); [auto|].
    destruct (hasTag "strong" (Elem t attrs cs)).
    + destruct (flushCurrent_fields w Ht Hout) as [_ Hout']. cbn [currTitle out].
      split; [apply nullIfFalsy_trimmed, normText_trimmed | exact Hout'].
    + destruct (isList (Elem t attrs cs)); cbn [currTitle out]; auto.
Qed.

Lemma walk_fields nodes :
  forall w, NullOrTrimmed (currTitle w) -> Forall GroupOk (out w) ->
            NullOrTrimmed (currTitle (fold_left sectionStep nodes w))
            /\ Forall GroupOk (out (fold_left sectionStep nodes w)).
Proof.
  induction nodes as [|nd nodes IH]; intros w Ht Hout; cbn [fold_left]; [auto|].
  destruct (sectionStep_fields w nd Ht Hout) as [Ht' Hout']. now apply IH.
Qed.

End GroupFields.

(** X24.  No empty string in a section: in every group of every section
    the title and the information are [null] or a text that is not empty
    and has no white space around it, and so is every item. *)
Theorem section_groups_hold_texts (doc : Dom.Page) (sectionId : string)
        (g : Structured.SectionGroup) :
  g ∈ Structured.parseSectionToStructuredArray doc sectionId -> GroupOk g.
Proof.
  unfold Structured.parseSectionToStructuredArray.
  destruct (Structured.findBody doc sectionId) as [body|]; [|intros H; inversion H].
  assert (Forall GroupOk (Structured.walkSection body)) as Hwalk.
  { unfold Structured.walkSection.
    destruct (walk_fields (Dom.children body) (Structured.mkWalk [] None [] []))
      as [Ht Hout]; [exact I | constructor |].
    now destruct (flushCurrent_fields _ Ht Hout). }
  unfold Structured.parseSectionBody.
  destruct (Structured.walkSection body) as [|g0 groups].
  - pose proof (nullIfFalsy_trimmed _ (normText_trimmed [body])) as Hfull.
    destruct (Structured.nullIfFalsy (Structured.normText [body])) as [full|];
      [|intros H; inversion H].
    intros H. apply list_elem_of_singleton in H. subst g.
    split; [exact I|]. split; [exact Hfull | constructor].
  - intros H. eapply Forall_forall in Hwalk; eauto.
Qed.

Lemma section_groups_hold_texts_witness :
  exists g,
    g ∈ Structured.parseSectionToStructuredArray sectionPage "indications" /\ GroupOk g.
Proof.
  assert (exists g, Structured.parseSectionToStructuredArray sectionPage "indications" = [g])
    as [g Hg] by (eexists; vm_compute; reflexivity).
  assert (g ∈ Structured.parseSectionToStructuredArray sectionPage "indications") as Hin
      by (rewrite Hg; left).
  exists g. split; [exact Hin|].
  exact (section_groups_hold_texts sectionPage "indications" g Hin).
Defined.

(** ** The fields of the dosage groups *)

Section DosageFields.
Import Js Dom Structured Structured.Dosage.

Lemma collapse_keeps c l :
  In c l -> isSpace c = false -> forall b, In c (collapse b l).
Proof.
  intros Hin Hc. induction l as [|x l IH]; intros b; [destruct Hin|].
  cbn [collapse]. destruct Hin as [->|Hin].
  - rewrite Hc. now left.
  - destruct (isSpace x); [destruct b; [|right]|right]; auto.
Qed.

Lemma dropSpaces_keeps c l : In c l -> isSpace c = false -> In c (dropSpaces l).
Proof.
  intros Hin Hc. induction l as [|x l IH]; [destruct Hin|].
  cbn [dropSpaces]. destruct (isSpace x) eqn:Hx.
  - destruct Hin as [->|Hin]; [congruence | auto].
  - exact Hin.
Qed.

Lemma trimList_keeps c l : In c l -> isSpace c = false -> In c (trimList l).
Proof.
  intros Hin Hc. unfold trimList. apply in_rev. rewrite rev_involutive.
  apply dropSpaces_keeps; [|exact Hc]. apply -> in_rev.
  now apply dropSpaces_keeps.
Qed.

Lemma normWs_truthy s c :
  In c (list_ascii_of_string s) -> isSpace c = false -> truthy (normWs s) = true.
Proof.
  intros Hin Hc. unfold normWs.
  pose proof (trimList_keeps c _ (collapse_keeps c _ Hin Hc false) Hc) as H.
  destruct (trimList _); [destruct H | reflexivity].
Qed.

Lemma normalized_nonblank t :
  truthy t = true -> normWs t = t ->
  exists c, In c (list_ascii_of_string t) /\ isSpace c = false.
Proof.
  intros Ht Hn. rewrite <- Hn. unfold normWs. rewrite list_ascii_of_string_of_list_ascii.
  destruct (trimList_noLead (collapse false (list_ascii_of_string t))) as [Hlead _].
  destruct (trimList (collapse false (list_ascii_of_string t))) as [|c l] eqn:E.
  - rewrite <- Hn in Ht. unfold normWs in Ht. rewrite E in Ht. discriminate Ht.
  - exists c. split; [now left | exact Hlead].
Qed.

Lemma list_ascii_app a b :
  list_ascii_of_string (a +:+ b) = list_ascii_of_string a ++ list_ascii_of_string b.
Proof.
  induction a as [|c a IH]; [reflexivity|].
  change (String c a +:+ b) with (String c (a +:+ b)).
  cbn [list_ascii_of_string app]. now rewrite IH.
Qed.

Lemma concat_keeps sep t l c :
  In t l -> In c (list_ascii_of_string t) -> In c (list_ascii_of_string (String.concat sep l)).
Proof.
  intros Ht Hc. induction l as [|x l IH]; [destruct Ht|].
  destruct l as [|y l].
  - destruct Ht as [->|[]]. exact Hc.
  - change (String.concat sep (x :: y :: l)) with (x +:+ sep +:+ String.concat sep (y :: l)).
    rewrite !list_ascii_app, !in_app_iff.
    destruct Ht as [->|Ht]; [now left | right; right; auto].
Qed.

Lemma normalized_join infos :
  normalized infos -> infos <> [] ->
  Trimmed (normWs (String.concat " " infos)).
Proof.
  intros Hn Hne. split; [|apply trim_normWs].
  destruct infos as [|t infos]; [congruence|].
  apply Forall_cons in Hn as [[Ht Hfix] _].
  destruct (normalized_nonblank t Ht Hfix) as (c & Hc & Hsp).
  apply (normWs_truthy _ c); [|exact Hsp].
  apply (concat_keeps " " t); [now left | exact Hc].
Qed.

Lemma normalized_trimmed l : normalized l -> Forall Trimmed l.
Proof.
  intros H. eapply Forall_impl; [exact H|]. intros t [Ht Hn]. split; [exact Ht|].
  rewrite <- Hn. apply trim_normWs.
Qed.

Lemma pushGroup_ok groups medType infos instr :
  Forall DosageOk groups -> NullOrTrimmed medType -> normalized infos -> normalized instr ->
  exists groups', pushGroup groups medType (Some infos) instr = Return groups'
                  /\ Forall DosageOk groups'.
Proof.
  intros Hg Hm Hi Hs. unfold pushGroup. eexists. split; [reflexivity|].
  apply Forall_app_2; [exact Hg|]. constructor; [|constructor].
  split; [|split]; cbn [medication_type information instructions].
  - unfold nullIfFalsy. destruct (falsy medType); [exact I | exact Hm].
  - destruct (bool_decide (infos = [])) eqn:E; [exact I|].
    apply bool_decide_eq_false in E. now apply normalized_join.
  - rewrite (filter_normalized instr Hs). now apply normalized_trimmed.
Qed.

Lemma flush_ok w :
  DosageWalkOk w -> forall w', flush w = Return w' -> DosageWalkOk w'.
Proof.
  intros (Hg & Hm & Hi & Hs) w'. unfold flush.
  destruct (_ || _).
  - destruct (pushGroup_ok _ _ _ _ Hg Hm Hi Hs) as (groups' & -> & Hg').
    cbn [andThen]. intros H. inversion H. subst w'.
    split; [exact Hg'|]. split; [exact I|]. split; constructor.
  - intros H. inversion H. subst w'. split; auto.
Qed.

Lemma normWs_normalized s : truthy (normWs s) = true -> normalized [normWs s].
Proof. intros H. constructor; [|constructor]. split; [exact H | apply normWs_idempotent]. Qed.

Lemma dosageItem_ok groups li groups' :
  Forall DosageOk groups -> dosageItem groups li = Return groups' -> Forall DosageOk groups'.
Proof.
  intros Hg. unfold dosageItem. destruct (head (strongChildren li)) as [s|].
  - set (rest := normWs _). set (childInstr := match head _ with Some sub => _ | None => _ end).
    assert (normalized childInstr) as Hc.
    { unfold childInstr. destruct (head _); [apply liTexts_normalized | constructor]. }
    assert (normalized (if truthy rest then [rest] else [])) as Hr.
    { destruct (truthy rest) eqn:E; [now apply normWs_normalized | constructor]. }
    destruct (pushGroup_ok groups (normText [s]) _ _ Hg (normText_trimmed [s]) Hr Hc)
      as (g' & -> & Hg').
    intros H. inversion H. now subst.
  - destruct (truthy _); [discriminate|]. intros H. inversion H. now subst.
Qed.

Lemma forEach_ok {A B} (P : A -> Prop) (body : A -> B -> Completion A) :
  (forall a b a', P a -> body a b = Return a' -> P a') ->
  forall l a a', P a -> forEach body l a = Return a' -> P a'.
Proof.
  intros Hbody. induction l as [|b l IH]; intros a a' Ha; cbn [forEach].
  - intros H. inversion H. now subst.
  - destruct (body a b) as [a1|e] eqn:E; cbn [andThen]; [|discriminate].
    apply IH. eapply Hbody; eauto.
Qed.

Lemma dosageStep_ok w nd w' :
  DosageWalkOk w -> dosageStep w nd = Return w' -> DosageWalkOk w'.
Proof.
  intros Hw. pose proof Hw as (Hg & Hm & Hi & Hs).
  destruct nd as [data|data|t attrs cs]; cbn [dosageStep].
  - intros [= <-]. destruct (truthy (normWs data)) eqn:E; [|exact Hw].
    split; [exact Hg|]. split; [exact Hm|]. split; [|exact Hs].
    apply Forall_app_2; [exact Hi | now apply normWs_normalized].
  - intros [= <-]. exact Hw.
  - destruct (negb (isTagType (Elem t attrs cs))); [intros [= <-]; exact Hw|].
    destruct (hasTag "strong" (Elem t attrs cs)).
    { destruct (flush w) as [w1|e] eqn:Hf; cbn [andThen]; [|discriminate].
      destruct (flush_ok w Hw w1 Hf) as (Hg1 & Hm1 & Hi1 & Hs1).
      intros [= <-].
      split; [exact Hg1|]. split; [exact (normText_trimmed [Elem t attrs cs])|].
      split; assumption. }
    destruct (hasTag "ul" (Elem t attrs cs)).
    + destruct (liHasStrong (Elem t attrs cs)).
      * destruct (flush w) as [w1|e] eqn:Hf; cbn [andThen]; [|discriminate].
        destruct (flush_ok w Hw w1 Hf) as (Hg1 & Hm1 & Hi1 & Hs1).
        destruct (forEach dosageItem (liChildren (Elem t attrs cs)) (dosageArray w1))
          as [groups|e] eqn:Hfe; cbn [andThen]; [|discriminate].
        intros [= <-].
        split; [|split; [exact Hm1|split; assumption]]. cbn [dosageArray].
        eapply (forEach_ok (Forall DosageOk) dosageItem); [|exact Hg1|exact Hfe].
        intros a b a' Ha Hb. eapply dosageItem_ok; eauto.
      * intros [= <-].
        split; [exact Hg|]. split; [exact Hm|]. split; [exact Hi|].
        apply Forall_app_2; [exact Hs | apply liTexts_normalized].
    + intros [= <-].
      split; [exact Hg|]. split; [exact Hm|]. split.
      * destruct (truthy (normWs _)) eqn:E; [|exact Hi].
        apply Forall_app_2; [exact Hi | now apply normWs_normalized].
      * apply Forall_app_2; [exact Hs|].
        apply normalized_flat_map. intros x. apply liTexts_normalized.
Qed.

End DosageFields.

(** X25.  No empty string in the dosage: whenever the dosage of a page is
    extracted, in every group the medication type and the information are
    [null] or a text that is not empty and has no white space around it,
    and so is every instruction. *)
Theorem dosage_groups_hold_texts (doc : Dom.Page)
        (groups : list Structured.Dosage.DosageGroup) :
  Structured.Dosage.parseDosage doc = Js.Return groups -> Forall DosageOk groups.
Proof.
  unfold Structured.Dosage.parseDosage.
  destruct (Structured.Dosage.dosageBody doc) as [body|];
    [|intros H; inversion H; constructor].
  unfold Structured.Dosage.parseDosageBody.
  destruct (Js.forEach Structured.Dosage.dosageStep (Dom.children body)
                       (Structured.Dosage.mkWalk [] None [] [])) as [w|e] eqn:Hwalk;
    cbn [Js.andThen]; [|discriminate].
  assert (DosageWalkOk w) as Hw.
  { eapply (forEach_ok DosageWalkOk Structured.Dosage.dosageStep); [| |exact Hwalk].
    - intros a b a' Ha Hb. eapply dosageStep_ok; eauto.
    - split; [constructor|]. split; [exact I|]. split; constructor. }
  destruct (Structured.Dosage.flush w) as [w'|e] eqn:Hf; cbn [Js.andThen]; [|discriminate].
  destruct (flush_ok w Hw w' Hf) as (Hg & _).
  destruct (Structured.Dosage.dosageArray w') as [|g gs] eqn:Hd.
  - pose proof (normText_trimmed [body]) as Hplain.
    destruct (Structured.normText [body]) as [plain|]; [|intros H; inversion H; constructor].
    destruct (Js.truthy plain); intros H; inversion H; [|constructor].
    constructor; [|constructor]. split; [exact I|]. split; [exact Hplain | constructor].
  - intros H. inversion H. subst groups. exact Hg.
Qed.

Lemma dosage_groups_hold_texts_witness :
  Structured.Dosage.parseDosage dosagePage
  = Js.Return [Structured.Dosage.mkDosage (Some "Adult") (Some "1-2 tablets every 4 hours")
                                          ["not more than 8 tablets daily"]]
  /\ Forall DosageOk
            [Structured.Dosage.mkDosage (Some "Adult") (Some "1-2 tablets every 4 hours")
                                        ["not more than 8 tablets daily"]].
Proof.
  assert (Structured.Dosage.parseDosage dosagePage
          = Js.Return [Structured.Dosage.mkDosage
                         (Some "Adult") (Some "1-2 tablets every 4 hours")
                         ["not more than 8 tablets daily"]]) as H
      by (vm_compute; reflexivity).
  split; [exact H|]. exact (dosage_groups_hold_texts _ _ H).
Defined.

(** ** The dosage parser, list by list *)

Section DosageLists.
Import Js Dom Structured Structured.Dosage.

Lemma forEach_app {A B} (body : A -> B -> Completion A) (l1 l2 : list B) :
  forall a, forEach body (l1 ++ l2) a = andThen (forEach body l1 a) (forEach body l2).
Proof.
  induction l1 as [|b l1 IH]; intros a; cbn [app forEach andThen]; [reflexivity|].
  destruct (body a b) as [a'|e]; cbn [andThen]; auto.
Qed.

Lemma flush_empties w w' :
  flush w = Return w' -> w' = mkWalk (dosageArray w') None [] [].
Proof.
  unfold flush.
  destruct (bool_decide (currMed w <> None)) eqn:Hm; cbn [orb andThen pushGroup].
  - intros [= <-]. reflexivity.
  - destruct (bool_decide (currInfos w = [])) eqn:Hi; cbn [negb orb andThen].
    2:{ intros [= <-]. reflexivity. }
    destruct (bool_decide (currInstr w = [])) eqn:Hs; cbn [negb andThen].
    2:{ intros [= <-]. reflexivity. }
    intros [= <-].
    apply bool_decide_eq_false in Hm. apply bool_decide_eq_true in Hi, Hs.
    destruct w as [d m i s]. cbn in *.
    destruct m; [exfalso; apply Hm; discriminate|]. now subst.
Qed.

(** Groups pushed earlier do not matter to what follows. *)
Lemma pushGroup_prefixed G groups medType infos instr :
  pushGroup (G ++ groups) medType infos instr
  = andThen (pushGroup groups medType infos instr) (fun r => Return (G ++ r)).
Proof.
  unfold pushGroup. destruct infos; cbn [andThen]; [|reflexivity].
  now rewrite <- app_assoc.
Qed.

Lemma dosageItem_prefixed G groups li :
  dosageItem (G ++ groups) li
  = andThen (dosageItem groups li) (fun r => Return (G ++ r)).
Proof.
  unfold dosageItem. destruct (head (strongChildren li)).
  - apply pushGroup_prefixed.
  - destruct (truthy (normWs (textContent li))); [apply pushGroup_prefixed | reflexivity].
Qed.

Lemma forEach_prefixed {A B} (body : A -> B -> Completion A) (lift : A -> A) :
  (forall a b, body (lift a) b = andThen (body a b) (fun r => Return (lift r))) ->
  forall l a,
    forEach body l (lift a) = andThen (forEach body l a) (fun r => Return (lift r)).
Proof.
  intros Hbody. induction l as [|b l IH]; intros a; cbn [forEach andThen]; [reflexivity|].
  rewrite Hbody. destruct (body a b) as [a'|e]; cbn [andThen]; auto.
Qed.

Lemma flush_prefixed G w :
  flush (prefixed G w) = andThen (flush w) (fun r => Return (prefixed G r)).
Proof.
  unfold flush, prefixed. cbn [currMed currInfos currInstr dosageArray].
  destruct (_ || _ || _); cbn [andThen]; [|reflexivity].
  rewrite pushGroup_prefixed. unfold pushGroup. cbn [andThen]. reflexivity.
Qed.

Lemma dosageStep_prefixed G w nd :
  dosageStep (prefixed G w) nd
  = andThen (dosageStep w nd) (fun r => Return (prefixed G r)).
Proof.
  destruct nd as [data|data|t attrs cs]; cbn [dosageStep].
  - destruct (truthy (normWs data)); reflexivity.
  - reflexivity.
  - destruct (negb (isTagType (Elem t attrs cs))); [reflexivity|].
    destruct (hasTag "strong" (Elem t attrs cs)).
    { rewrite flush_prefixed. destruct (flush w); reflexivity. }
    destruct (hasTag "ul" (Elem t attrs cs)); [|reflexivity].
    destruct (liHasStrong (Elem t attrs cs)); [|reflexivity].
    rewrite flush_prefixed. destruct (flush w) as [w'|e]; cbn [andThen]; [|reflexivity].
    cbn [prefixed dosageArray currMed currInfos currInstr].
    rewrite (forEach_prefixed dosageItem (app G) (dosageItem_prefixed G)).
    destruct (forEach dosageItem _ _); reflexivity.
Qed.

Lemma groupsFrom_prefixed G w l :
  groupsFrom (prefixed G w) l = andThen (groupsFrom w l) (fun r => Return (G ++ r)).
Proof.
  unfold groupsFrom.
  rewrite (forEach_prefixed dosageStep (prefixed G) (dosageStep_prefixed G)).
  destruct (forEach dosageStep l w) as [w1|e]; cbn [andThen]; [|reflexivity].
  rewrite flush_prefixed. destruct (flush w1); reflexivity.
Qed.

Lemma walk_returns l w :
  existsb isMixedList l = false -> exists w', forEach dosageStep l w = Return w'.
Proof.
  intros Hl.
  assert (Hbad : forall w nd, isMixedList nd = true -> dosageStep w nd = Throw nullLength).
  { intros a nd Hb. pose proof (dosageStep_mixed a nd) as H. now rewrite Hb in H. }
  assert (Hgood : forall w nd, isMixedList nd = false -> exists w', dosageStep w nd = Return w').
  { intros a nd Hb. pose proof (dosageStep_mixed a nd) as H. now rewrite Hb in H. }
  pose proof (forEach_throws dosageStep isMixedList nullLength Hbad Hgood l w) as H.
  now rewrite Hl in H.
Qed.

Lemma groupsFrom_returns l w :
  existsb isMixedList l = false -> exists groups, groupsFrom w l = Return groups.
Proof.
  intros Hl. unfold groupsFrom. destruct (walk_returns l w Hl) as [w1 ->].
  cbn [andThen]. destruct (flush_returns w1) as (w2 & -> & _). cbn [andThen]. eauto.
Qed.

(** The walk from a point where nothing is in hand. *)
Lemma groupsFrom_flushed G l :
  existsb isMixedList l = false ->
  exists after,
    walked l = Return after /\ groupsFrom (mkWalk G None [] []) l = Return (G ++ after).
Proof.
  intros Hl. destruct (groupsFrom_returns l (mkWalk [] None [] []) Hl) as [after Hafter].
  exists after. split; [exact Hafter|].
  change (mkWalk G None [] []) with (mkWalk (G ++ []) None [] []) at 1 || idtac.
  replace (mkWalk G None [] []) with (prefixed G (mkWalk [] None [] []))
    by (unfold prefixed; cbn; now rewrite app_nil_r).
  rewrite groupsFrom_prefixed, Hafter. reflexivity.
Qed.

Lemma dosageStep_bold_list w attrs cs :
  let ul := Elem "ul" attrs cs in
  liChildren ul <> [] ->
  Forall (fun li => strongChildren li <> []) (liChildren ul) ->
  exists w',
    flush w = Return w'
    /\ dosageStep w ul
       = Return (mkWalk (dosageArray w' ++ map itemGroup (liChildren ul)) None [] []).
Proof.
  cbv zeta. intros Hne Hall.
  destruct (flush_returns w) as (w' & Hflush & _).
  exists w'. split; auto.
  unfold dosageStep.
  change (isTagType (Elem "ul" attrs cs)) with true.
  change (hasTag "strong" (Elem "ul" attrs cs)) with false.
  change (hasTag "ul" (Elem "ul" attrs cs)) with true.
  cbn [negb]. rewrite (liHasStrong_all _ Hne Hall), Hflush. cbn [andThen].
  rewrite (forEach_bold _ Hall). cbn [andThen].
  rewrite (flush_empties _ _ Hflush). reflexivity.
Qed.

Lemma dosageStep_plain_list w attrs cs :
  let ul := Elem "ul" attrs cs in
  Forall (fun li => strongChildren li = []) (liChildren ul) ->
  dosageStep w ul
  = Return (mkWalk (dosageArray w) (currMed w) (currInfos w) (currInstr w ++ liTexts ul)).
Proof.
  cbv zeta. intros Hnone. unfold dosageStep.
  change (isTagType (Elem "ul" attrs cs)) with true.
  change (hasTag "strong" (Elem "ul" attrs cs)) with false.
  change (hasTag "ul" (Elem "ul" attrs cs)) with true.
  cbn [negb]. now rewrite (liHasStrong_none _ Hnone).
Qed.

(** A child that closes no group adds to what is in hand. *)
Lemma dosageStep_quiet w nd :
  startsGroup nd = false ->
  dosageStep w nd
  = Return (mkWalk (dosageArray w) (currMed w)
                   (currInfos w ++ infosOf nd) (currInstr w ++ instrOf nd)).
Proof.
  unfold startsGroup, infosOf, instrOf. intros Hq.
  destruct nd as [data|data|t attrs cs]; cbn [dosageStep isTagType negb orb hasTag].
  - destruct (truthy (normWs data)); rewrite ?app_nil_r; [reflexivity | now destruct w].
  - rewrite !app_nil_r. now destruct w.
  - cbn [hasTag] in Hq.
    destruct (negb (negb (String.eqb t "script" || String.eqb t "style"))) eqn:Htag;
      cbn [orb].
    { rewrite !app_nil_r. now destruct w. }
    destruct (String.eqb t "strong") eqn:Hs; [discriminate Hq|]. cbn [orb] in *.
    destruct (String.eqb t "ul") eqn:Hu; cbn [andb] in Hq.
    + rewrite Hq, app_nil_r. reflexivity.
    + destruct (truthy _); rewrite ?app_nil_r; reflexivity.
Qed.

Lemma walk_quiet l :
  forall w,
    Forall (fun nd => startsGroup nd = false) l ->
    forEach dosageStep l w
    = Return (mkWalk (dosageArray w) (currMed w)
                     (currInfos w ++ flat_map infosOf l)
                     (currInstr w ++ flat_map instrOf l)).
Proof.
  induction l as [|nd l IH]; intros w Hq; cbn [forEach flat_map].
  - rewrite !app_nil_r. now destruct w.
  - apply Forall_cons in Hq as [Hnd Hq].
    rewrite (dosageStep_quiet w nd Hnd). cbn [andThen].
    rewrite (IH _ Hq). cbn [dosageArray currMed currInfos currInstr].
    now rewrite <- !app_assoc.
Qed.

Lemma untilGroup_fromGroup l : l = untilGroup l ++ fromGroup l.
Proof.
  induction l as [|nd l IH]; cbn; [reflexivity|].
  destruct (startsGroup nd); cbn; [reflexivity | now rewrite <- IH].
Qed.

Lemma untilGroup_quiet l : Forall (fun nd => startsGroup nd = false) (untilGroup l).
Proof.
  induction l as [|nd l IH]; cbn; [constructor|].
  destruct (startsGroup nd) eqn:E; constructor; auto.
Qed.

Lemma fromGroup_head l :
  fromGroup l = [] \/ exists nd rest, fromGroup l = nd :: rest /\ startsGroup nd = true.
Proof.
  induction l as [|nd l IH]; cbn; [now left|].
  destruct (startsGroup nd) eqn:E; [right; eauto | exact IH].
Qed.

(** A child that closes the group in hand: the step is the one from the
    flushed walk. *)
Lemma dosageStep_closes w w' nd :
  startsGroup nd = true -> flush w = Return w' -> dosageStep w nd = dosageStep w' nd.
Proof.
  intros Hs Hflush.
  assert (flush w' = Return w') as Hagain.
  { rewrite (flush_empties _ _ Hflush). reflexivity. }
  unfold startsGroup in Hs.
  destruct nd as [data|data|t attrs cs]; try discriminate Hs.
  cbn [hasTag] in Hs. cbn [dosageStep hasTag isTagType].
  destruct (negb (negb (String.eqb t "script" || String.eqb t "style"))) eqn:Htag.
  { exfalso. destruct (String.eqb t "strong") eqn:E1.
    - apply String.eqb_eq in E1. subst t. discriminate Htag.
    - destruct (String.eqb t "ul") eqn:E2; [|discriminate Hs].
      apply String.eqb_eq in E2. subst t. discriminate Htag. }
  destruct (String.eqb t "strong"); [now rewrite Hflush, Hagain|].
  cbn [orb] in Hs. destruct (String.eqb t "ul"); [|discriminate Hs].
  cbn [andb] in Hs. rewrite Hs. now rewrite Hflush, Hagain.
Qed.

Lemma existsb_app_false {A} (p : A -> bool) l1 l2 :
  existsb p (l1 ++ l2) = false -> existsb p l1 = false /\ existsb p l2 = false.
Proof. rewrite existsb_app. apply orb_false_iff. Qed.

Lemma parseDosageBody_groups body groups :
  groupsFrom (mkWalk [] None [] []) (children body) = Return groups ->
  groups <> [] ->
  parseDosageBody body = Return groups.
Proof.
  unfold groupsFrom, parseDosageBody.
  destruct (forEach dosageStep (children body) (mkWalk [] None [] [])) as [w|e];
    cbn [andThen]; [|discriminate].
  destruct (flush w) as [w'|e]; cbn [andThen]; [|discriminate].
  intros [= <-] Hne. destruct (dosageArray w'); [congruence | reflexivity].
Qed.

Lemma instrOf_normalized nd : normalized (instrOf nd).
Proof.
  unfold instrOf. destruct (_ || _); [constructor|].
  destruct (hasTag "ul" nd); [apply liTexts_normalized|].
  apply normalized_flat_map. intros x. apply liTexts_normalized.
Qed.

Lemma dosage_walk_ok l w :
  forEach dosageStep l (mkWalk [] None [] []) = Return w -> DosageWalkOk w.
Proof.
  intros Hwalk.
  eapply (forEach_ok DosageWalkOk dosageStep); [| |exact Hwalk].
  - intros a b a' Ha Hb. eapply dosageStep_ok; eauto.
  - split; [constructor|]. split; [exact I|]. split; constructor.
Qed.

Lemma finish_in_hand G m infos instr :
  instr <> [] -> normalized instr ->
  flush (mkWalk G m infos instr)
  = Return (mkWalk (G ++ [mkDosage (nullIfFalsy m) (infoText infos) instr]) None [] []).
Proof.
  intros Hne Hnorm. unfold flush. cbn [currMed currInfos currInstr dosageArray].
  rewrite (bool_decide_eq_false_2 (instr = [])) by exact Hne.
  cbn [negb]. rewrite !orb_true_r. unfold pushGroup, infoText.
  rewrite (filter_normalized instr Hnorm). reflexivity.
Qed.

End DosageLists.

Section DosageBifurcation.
Import Js Dom Structured Structured.Dosage.

(** C5 (as amended).  Let an unordered list be a child of the dosage
    container of a page, and let no other child be a list that mixes
    items with and without a bold child.  If the list has items and each
    has a bold node among its direct children, the dosage of the page is:
    the groups of the children before the list, then one group per item
    (the text of the item's first bold child as medication type, the text
    of the item without its bold children as information, the item texts
    of its first nested list as instructions), then the groups of the
    children after the list.  If no item of the list has a bold child and
    some item has text, the dosage is: the groups pushed before the list
    was met; then one group, with the medication type in hand at the list
    and, as instructions, those in hand, the item texts of the list, and
    those of the children that follow up to the next bold element or list
    with a bold item; then the groups of the children from there on.  No
    group is made for an item of such a list. *)
Theorem dosage_list_bifurcation (doc : Dom.Page) (body : Dom.node)
        (pre post : list Dom.node) (attrs : list (string * string)) (cs : list Dom.node) :
  let ul := Dom.Elem "ul" attrs cs in
  let lis := Structured.Dosage.liChildren ul in
  Structured.Dosage.dosageBody doc = Some body ->
  Dom.children body = pre ++ ul :: post ->
  existsb isMixedList (pre ++ post) = false ->
  (lis <> [] ->
   Forall (fun li => Structured.Dosage.strongChildren li <> []) lis ->
   exists before after,
     walked pre = Js.Return before
     /\ walked post = Js.Return after
     /\ Structured.Dosage.parseDosage doc
        = Js.Return (before ++ map Structured.Dosage.itemGroup lis ++ after))
  /\ (Forall (fun li => Structured.Dosage.strongChildren li = []) lis ->
      Structured.liTexts ul <> [] ->
      exists w after,
        Js.forEach Structured.Dosage.dosageStep pre (Structured.Dosage.mkWalk [] None [] [])
        = Js.Return w
        /\ walked (fromGroup post) = Js.Return after
        /\ Structured.Dosage.parseDosage doc
           = Js.Return
               (Structured.Dosage.dosageArray w
                ++ [Structured.Dosage.mkDosage
                      (Structured.nullIfFalsy (Structured.Dosage.currMed w))
                      (infoText (Structured.Dosage.currInfos w
                                 ++ flat_map infosOf (untilGroup post)))
                      (Structured.Dosage.currInstr w ++ Structured.liTexts ul
                       ++ flat_map instrOf (untilGroup post))]
                ++ after)).
Proof.
  cbv zeta. intros Hbody Hkids Hmixed.
  apply existsb_app_false in Hmixed as [Hpre Hpost].
  unfold parseDosage. rewrite Hbody.
  destruct (walk_returns pre (mkWalk [] None [] []) Hpre) as [w Hw].
  assert (forall w1 groups,
             dosageStep w (Elem "ul" attrs cs) = Return w1 ->
             groupsFrom w1 post = Return groups ->
             groups <> [] ->
             parseDosageBody body = Return groups) as Hcompose.
  { intros w1 groups Hstep Hrest Hne.
    apply parseDosageBody_groups; [|exact Hne].
    unfold groupsFrom in *. rewrite Hkids, forEach_app, Hw. cbn [andThen forEach].
    rewrite Hstep. cbn [andThen]. exact Hrest. }
  split.
  - intros Hne Hall.
    destruct (dosageStep_bold_list w attrs cs Hne Hall) as (w' & Hflush & Hstep).
    destruct (groupsFrom_flushed
                (dosageArray w' ++ map itemGroup (liChildren (Elem "ul" attrs cs))) post Hpost)
      as (after & Hafter & Hrest).
    exists (dosageArray w'), after. split_and!; auto.
    + unfold walked, groupsFrom. rewrite Hw. cbn [andThen]. now rewrite Hflush.
    + rewrite <- app_assoc in Hrest.
      apply (Hcompose _ _ Hstep Hrest).
      destruct (liChildren (Elem "ul" attrs cs)); [congruence|].
      cbn [map]. intros E. apply app_eq_nil in E as [_ E]. discriminate E.
  - intros Hnone Htexts.
    pose proof (dosageStep_plain_list w attrs cs Hnone) as Hstep. cbv zeta in Hstep.
    destruct (dosage_walk_ok _ _ Hw) as (_ & _ & _ & Hinstr).
    set (mid := untilGroup post).
    set (infos := currInfos w ++ flat_map infosOf mid).
    set (instr := currInstr w ++ liTexts (Elem "ul" attrs cs) ++ flat_map instrOf mid).
    set (g := mkDosage (nullIfFalsy (currMed w)) (infoText infos) instr).
    assert (existsb isMixedList (fromGroup post) = false) as Htail.
    { rewrite (untilGroup_fromGroup post) in Hpost.
      now apply existsb_app_false in Hpost as [_ ?]. }
    destruct (groupsFrom_flushed (dosageArray w ++ [g]) (fromGroup post) Htail)
      as (after & Hafter & Hrest).
    exists w, after. split_and!; auto.
    rewrite <- app_assoc in Hrest.
    refine (Hcompose _ _ Hstep _ _).
    2:{ intros E. apply app_eq_nil in E as [_ E]. discriminate E. }
    change (groupsFrom (mkWalk (dosageArray w) (currMed w) (currInfos w)
                               (currInstr w ++ liTexts (Elem "ul" attrs cs))) post
            = Return (dosageArray w ++ [g] ++ after)).
    rewrite <- Hrest. unfold groupsFrom.
    rewrite (untilGroup_fromGroup post) at 1. fold mid.
    rewrite forEach_app, (walk_quiet mid _ (untilGroup_quiet post)).
    cbn [andThen dosageArray currMed currInfos currInstr].
    rewrite <- app_assoc. fold infos. fold instr.
    assert (flush (mkWalk (dosageArray w) (currMed w) infos instr)
            = Return (mkWalk (dosageArray w ++ [g]) None [] [])) as Hflush.
    { apply finish_in_hand.
      - subst instr. intros E. apply app_eq_nil in E as [_ E].
        apply app_eq_nil in E as [E _]. congruence.
      - subst instr. apply normalized_app; [exact Hinstr|].
        apply normalized_app; [apply liTexts_normalized|].
        apply normalized_flat_map. apply instrOf_normalized. }
    destruct (fromGroup_head post) as [Hnil|(nd & rest & Hcons & Hstart)].
    + rewrite Hnil. cbn [forEach andThen]. rewrite Hflush. reflexivity.
    + rewrite Hcons. cbn [forEach].
      now rewrite (dosageStep_closes _ _ nd Hstart Hflush).
Qed.

End DosageBifurcation.

Lemma dosage_list_bifurcation_witness :
  (Structured.Dosage.liChildren perTypeList <> []
   /\ Forall (fun li => Structured.Dosage.strongChildren li <> [])
             (Structured.Dosage.liChildren perTypeList)
   /\ Structured.Dosage.parseDosage perTypePage
      = Js.Return
          ([Structured.Dosage.mkDosage None (Some "Usual dose:") []]
           ++ map Structured.Dosage.itemGroup (Structured.Dosage.liChildren perTypeList)
           ++ [Structured.Dosage.mkDosage None (Some "Or as directed.") []]))
  /\ (Forall (fun li => Structured.Dosage.strongChildren li = [])
             (Structured.Dosage.liChildren plainList)
      /\ Structured.liTexts plainList <> []
      /\ Structured.Dosage.parseDosage plainListPage
         = Js.Return
             [Structured.Dosage.mkDosage (Some "Adult") (Some "Swallow whole.")
                                         ["after meals"; "twice daily"];
              Structured.Dosage.mkDosage (Some "Child") (Some "half a tablet") []]).
Proof.
  assert (Structured.Dosage.liChildren perTypeList <> []) as Hne
      by (vm_compute; discriminate).
  assert (Forall (fun li => Structured.Dosage.strongChildren li <> [])
                 (Structured.Dosage.liChildren perTypeList)) as Hall.
  { vm_compute. repeat constructor; discriminate. }
  assert (Forall (fun li => Structured.Dosage.strongChildren li = [])
                 (Structured.Dosage.liChildren plainList)) as Hnone.
  { vm_compute. repeat constructor. }
  assert (Structured.liTexts plainList <> []) as Htexts by (vm_compute; discriminate).
  split.
  - split; [exact Hne|]. split; [exact Hall|].
    destruct (dosage_list_bifurcation
                perTypePage
                (Dom.Elem "div" [("class", "ac-body")]
                          [Dom.Text "Usual dose: "; perTypeList;
                           Dom.Elem "p" [] [Dom.Text "Or as directed."]])
                [Dom.Text "Usual dose: "] [Dom.Elem "p" [] [Dom.Text "Or as directed."]]
                [] _ eq_refl eq_refl eq_refl) as [Hbold _].
    destruct (Hbold Hne Hall) as (before & after & Hbefore & Hafter & Hparse).
    assert (walked [Dom.Text "Usual dose: "]
            = Js.Return [Structured.Dosage.mkDosage None (Some "Usual dose:") []]) as E1
        by (vm_compute; reflexivity).
    assert (walked [Dom.Elem "p" [] [Dom.Text "Or as directed."]]
            = Js.Return [Structured.Dosage.mkDosage None (Some "Or as directed.") []]) as E2
        by (vm_compute; reflexivity).
    rewrite E1 in Hbefore. rewrite E2 in Hafter.
    inversion Hbefore. inversion Hafter. subst before after. exact Hparse.
  - split; [exact Hnone|]. split; [exact Htexts|].
    destruct (dosage_list_bifurcation
                plainListPage
                (Dom.Elem "div" [("class", "ac-body")]
                          [Dom.Elem "strong" [] [Dom.Text "Adult"]; plainList;
                           Dom.Elem "p" [] [Dom.Text "Swallow whole."];
                           Dom.Elem "strong" [] [Dom.Text "Child"];
                           Dom.Text " half a tablet"])
                [Dom.Elem "strong" [] [Dom.Text "Adult"]]
                [Dom.Elem "p" [] [Dom.Text "Swallow whole."];
                 Dom.Elem "strong" [] [Dom.Text "Child"];
                 Dom.Text " half a tablet"]
                [] _ eq_refl eq_refl eq_refl) as [_ Hplain].
    destruct (Hplain Hnone Htexts) as (w & after & Hw & Hafter & Hparse).
    assert (Js.forEach Structured.Dosage.dosageStep [Dom.Elem "strong" [] [Dom.Text "Adult"]]
                       (Structured.Dosage.mkWalk [] None [] [])
            = Js.Return (Structured.Dosage.mkWalk [] (Some "Adult") [] [])) as E1
        by (vm_compute; reflexivity).
    assert (walked (fromGroup [Dom.Elem "p" [] [Dom.Text "Swallow whole."];
                               Dom.Elem "strong" [] [Dom.Text "Child"];
                               Dom.Text " half a tablet"])
            = Js.Return [Structured.Dosage.mkDosage (Some "Child") (Some "half a tablet") []])
      as E2 by (vm_compute; reflexivity).
    rewrite E1 in Hw. rewrite E2 in Hafter.
    inversion Hw. inversion Hafter. subst w after.
    rewrite Hparse. vm_compute. reflexivity.
Defined.

(** C5 as first stated fails on an item whose bold node is not its first
    child: the item does not begin with a bold node, and yet it becomes a
    group of its own instead of an instruction of the group in hand.  It
    also fails on a list of items that begin with a bold node when the
    list is not a child of the dosage container but sits inside a [div]:
    its item texts become instructions of one group.  And it fails when
    such a list is followed by a list that mixes items with and without a
    bold child: the extraction throws. *)
Lemma dosage_bold_inside_item_makes_group :
  existsb Structured.Dosage.beginsWithStrong (Structured.Dosage.liChildren boldInsideList)
  = false
  /\ Structured.liTexts boldInsideList = ["Take two daily"]
  /\ Structured.Dosage.parseDosage boldInsidePage
     = Js.Return [Structured.Dosage.mkDosage (Some "two") (Some "Take daily") []]
  /\ forallb Structured.Dosage.beginsWithStrong (Structured.Dosage.liChildren perTypeList)
     = true
  /\ Structured.Dosage.parseDosage nestedListPage
     = Js.Return [Structured.Dosage.mkDosage
                    None None
                    ["Tablet: 1 dailywith food"; "with food"; "Syrup 5 ml"; "with food"]]
  /\ Structured.Dosage.parseDosage throwingPage = Js.Throw Js.nullLength.
Proof.
  split; [reflexivity|]. split; [vm_compute; reflexivity|].
  split; [vm_compute; reflexivity|]. split; [reflexivity|].
  split; vm_compute; reflexivity.
Qed.
